(** * AthenaK (pkempski fork): MHD flux orchestration and two problem generators

    A shallow embedding of

    - [src/mhd/mhd_calc_fluxes.cpp]  ([MHD::MHDCalcFlux]),
    - [src/pgen/orszag_tang.cpp]     ([A3], [ProblemGenerator::OrszagTang_]),
    - [src/pgen/part_static_turb.cpp] (the particle kernel of
      [ProblemGenerator::UserProblem]),

    together with the properties the specification states about them.

    Conventions.  C++ [int] values are mesh indices and counts; they are
    modelled as [Z] (signed overflow is undefined behaviour in the source,
    so no wrap-around is written for them).  [size_t] arithmetic wraps
    modulo 2^64 and the wrap is written out.  A [par_for]/[par_for_outer]
    dispatch is modelled by running its work units one after the other in
    lexicographic index order. *)

From Stdlib Require Import ZArith String List Bool Lia.
From Stdlib Require Import Floats.SpecFloat.
Import ListNotations.
Open Scope Z_scope.

(** ** Inclusive index ranges, as the loop and dispatch bounds are written *)

Definition range (lo hi : Z) : list Z :=
  map (fun n => lo + Z.of_nat n) (seq 0 (Z.to_nat (hi - lo + 1))).

(** [size_t] is a 64-bit unsigned integer. *)
Definition size_t (z : Z) : Z := z mod 2 ^ 64.

(** * Part I: [MHD::MHDCalcFlux] (src/mhd/mhd_calc_fluxes.cpp) *)

Module Flux.

(** ** Selectors, statuses and tags declared in headers outside [src/] *)

(** Modelled from the spec: the reconstruction-scheme selector
    [ReconstructionMethod] (declared in a header that is not under [src/]),
    "one of piecewise-constant, piecewise-linear, piecewise-parabolic".
    The three enumerators the switch names are [dc], [plm], [ppm];
    [recon_other] stands for any value the switch does not recognise. *)
Inductive ReconstructionMethod :=
| dc | plm | ppm | recon_other (tag : Z).

(** Modelled from the spec: the Riemann-solver selector [MHD_RSolver]
    (declared in [mhd.hpp], not under [src/]), "one of advection, LLF, ...".
    [rsolver_other] stands for every enumerator without a live [case]
    (the [hllc] and [roe] cases are commented out in the source). *)
Inductive MHD_RSolver :=
| advect | llf | rsolver_other (tag : Z).

(** Modelled from the spec: [TaskStatus] (declared in the task-list header,
    not under [src/]), the "status signal indicating whether the computation
    ran to completion". *)
Inductive TaskStatus := fail | complete | incomplete.

(** The velocity-component index passed to the Riemann solver as [ivx]. *)
Inductive VelIndex := IVX | IVY | IVZ.

(** The three sweep directions. *)
Inductive Axis := X1 | X2 | X3.

(** The reconstruction functions are named scheme-by-axis in the source:
    [DonorCellX1], [PiecewiseLinearX2], ... *)
Inductive Scheme := DonorCell | PiecewiseLinear | PiecewiseParabolic.

(** The two Riemann solvers with a live call. *)
Inductive Solver := Advect_fn | LLF_fn.

(** Which cell-centred array a reconstruction call reads: the primitives
    [w0] or the cell-centred field [bcc0]. *)
Inductive Field := W0 | Bcc0.

(** ** Observable events of one invocation

    The trace records, in program order, every kernel dispatch with the
    scratch size requested for it, every scratch array constructed from the
    team scratch pad, every call of a reconstruction function or Riemann
    solver with the index arguments it receives, and every team barrier. *)
Inductive Event :=
| EvLaunch (name : string) (scr_size : Z)
| EvScratch (rows cols : Z)
| EvRecon (s : Scheme) (a : Axis) (q : Field) (m k j il iu : Z)
| EvBarrier
| EvSolve (s : Solver) (m k j il iu : Z) (ivx : VelIndex).

(** Readings of a trace: the kernels dispatched with their scratch sizes,
    the scratch arrays constructed, the reconstruction calls and the solver
    calls, each in program order. *)
Definition launches (t : list Event) : list (string * Z) :=
  flat_map (fun e => match e with EvLaunch n s => [(n, s)] | _ => [] end) t.

Definition scratch_arrays (t : list Event) : list (Z * Z) :=
  flat_map (fun e => match e with EvScratch r c => [(r, c)] | _ => [] end) t.

Definition is_recon (e : Event) : bool :=
  match e with EvRecon _ _ _ _ _ _ _ _ => true | _ => false end.

Definition is_solve (e : Event) : bool :=
  match e with EvSolve _ _ _ _ _ _ _ => true | _ => false end.

Definition recon_calls (t : list Event) : list Event := filter is_recon t.
Definition solver_calls (t : list Event) : list Event := filter is_solve t.

(** The function a selector value selects, if the switch has a case for it. *)
Definition selected_scheme (rm : ReconstructionMethod) : option Scheme :=
  match rm with
  | dc => Some DonorCell
  | plm => Some PiecewiseLinear
  | ppm => Some PiecewiseParabolic
  | recon_other _ => None
  end.

Definition selected_solver (rs : MHD_RSolver) : option Solver :=
  match rs with
  | advect => Some Advect_fn
  | llf => Some LLF_fn
  | rsolver_other _ => None
  end.

(** ** The inlined kernels and array types, which live outside [src/]

    [mhd_calc_fluxes.cpp] textually includes the reconstruction functions and
    the Riemann solvers ([reconstruct/*.cpp], [mhd/rsolvers/*.cpp]); they and
    the Kokkos array types are not under [src/], so they are parameters of the
    development.  A reconstruction function receives the two output
    scratch arrays and returns their new contents; a Riemann solver reads the
    four interface-state arrays and the face field and returns the new flux
    and EMF arrays (spec 4.2: the solvers "read only the interface-state
    buffers and the face-centered longitudinal field"). *)
Class Kernels := {
  Scr : Type;        (* contents of a ScrArray2D<Real> *)
  CellArr : Type;    (* w0, bcc0 *)
  FaceArr : Type;    (* b0.x1f, b0.x2f, b0.x3f *)
  FluxArr : Type;    (* flux1, flux2, flux3 *)
  EmfArr : Type;     (* emf_x1, emf_x2, emf_x3 *)
  EOS_Data : Type;
  (* ScrArray2D<Real>::shmem_size(rows, cols) *)
  shmem_size : Z -> Z -> Z;
  (* what a freshly constructed scratch array holds: team scratch memory is
     not initialised *)
  team_scratch : Z -> Z -> Scr;
  (* <Scheme><Axis>(member, m, k, j, il, iu, q, ql, qr) *)
  reconstruct : Scheme -> Axis -> Z -> Z -> Z -> Z -> Z ->
                CellArr -> Scr -> Scr -> Scr * Scr;
  (* Advect / LLF (member, eos, m, k, j, il, iu, ivx, wl, wr, bl, br, bx, flx, emf) *)
  rsolve : Solver -> EOS_Data -> Z -> Z -> Z -> Z -> Z -> VelIndex ->
           Scr -> Scr -> Scr -> Scr -> FaceArr -> FluxArr -> EmfArr ->
           FluxArr * EmfArr
}.

Abbreviation DonorCellX1 := (reconstruct DonorCell X1).
Abbreviation DonorCellX2 := (reconstruct DonorCell X2).
Abbreviation DonorCellX3 := (reconstruct DonorCell X3).
Abbreviation PiecewiseLinearX1 := (reconstruct PiecewiseLinear X1).
Abbreviation PiecewiseLinearX2 := (reconstruct PiecewiseLinear X2).
Abbreviation PiecewiseLinearX3 := (reconstruct PiecewiseLinear X3).
Abbreviation PiecewiseParabolicX1 := (reconstruct PiecewiseParabolic X1).
Abbreviation PiecewiseParabolicX2 := (reconstruct PiecewiseParabolic X2).
Abbreviation PiecewiseParabolicX3 := (reconstruct PiecewiseParabolic X3).
Abbreviation Advect := (rsolve Advect_fn).
Abbreviation LLF := (rsolve LLF_fn).

(** ** The objects [MHDCalcFlux] reads *)

(** Modelled from the spec: the fields of [pmy_pack->mb_cells] that the
    function reads: "active-cell index bounds per direction per block,
    ghost-zone width".  The struct is declared outside [src/]: the
    [GridIndices] of [mesh/meshblock.hpp] names its ghost-zone width
    [nghost], the field read here is [ng]. *)
Record RegionCells := {
  is_ : Z; ie : Z; js : Z; je : Z; ks : Z; ke : Z;   (* [is] is reserved in Rocq *)
  nx1 : Z; ng : Z
}.

(** Modelled from the spec: what the function reads of its pack and mesh:
    "number of blocks in the current partition, and whether the mesh has
    extent beyond one cell in the second/third dimensions". *)
Record MeshBlockPack := {
  mb_cells : RegionCells;
  nmb_thispack : Z;
  nx2gt1 : bool;      (* pmy_pack->pmesh->nx2gt1 *)
  nx3gt1 : bool       (* pmy_pack->pmesh->nx3gt1 *)
}.

Section WithKernels.
Context {K : Kernels}.

(** The face-centred field [b0]. *)
Record FaceFld := { x1f : FaceArr; x2f : FaceArr; x3f : FaceArr }.

(** The read-only part of the [MHD] object. *)
Record MHD := {
  pmy_pack : MeshBlockPack;
  nmhd : Z;
  nscalars : Z;
  recon_method_ : ReconstructionMethod;
  rsolver_method_ : MHD_RSolver;
  w0 : CellArr;
  bcc0 : CellArr;
  b0 : FaceFld;
  eos_data : EOS_Data
}.

(** The arrays [MHDCalcFlux] may write, with the event trace. *)
Record World := mkWorld {
  flux1 : FluxArr; flux2 : FluxArr; flux3 : FluxArr;
  emf_x1 : EmfArr; emf_x2 : EmfArr; emf_x3 : EmfArr;
  trace : list Event
}.

Definition emit (e : Event) (w : World) : World :=
  mkWorld (flux1 w) (flux2 w) (flux3 w) (emf_x1 w) (emf_x2 w) (emf_x3 w)
          (trace w ++ [e]).

(** The flux/EMF pair of one direction, as passed to a solver
    ([flx1, emf1], [flx2, emf2], [flx3, emf3]: Kokkos views alias the member
    arrays, so a write through the copy is a write to the member). *)
Definition flx (a : Axis) (w : World) : FluxArr :=
  match a with X1 => flux1 w | X2 => flux2 w | X3 => flux3 w end.

Definition emf (a : Axis) (w : World) : EmfArr :=
  match a with X1 => emf_x1 w | X2 => emf_x2 w | X3 => emf_x3 w end.

Definition set_flx_emf (a : Axis) (fe : FluxArr * EmfArr) (w : World) : World :=
  match a with
  | X1 => mkWorld (fst fe) (flux2 w) (flux3 w) (snd fe) (emf_x2 w) (emf_x3 w) (trace w)
  | X2 => mkWorld (flux1 w) (fst fe) (flux3 w) (emf_x1 w) (snd fe) (emf_x3 w) (trace w)
  | X3 => mkWorld (flux1 w) (flux2 w) (fst fe) (emf_x1 w) (emf_x2 w) (snd fe) (trace w)
  end.

(** All six output arrays, and the four that do not belong to axis [a]. *)
Definition arrays (w : World) :=
  (flux1 w, flux2 w, flux3 w, emf_x1 w, emf_x2 w, emf_x3 w).

Definition other_arrays (a : Axis) (w : World) :=
  match a with
  | X1 => (flux2 w, emf_x2 w, flux3 w, emf_x3 w)
  | X2 => (flux1 w, emf_x1 w, flux3 w, emf_x3 w)
  | X3 => (flux1 w, emf_x1 w, flux2 w, emf_x2 w)
  end.

(** ** Scratch arrays of one work unit

    A unit owns a handful of scratch arrays, named by a type [B] of buffer
    names.  [auto wl = scr1] copies a view, not the data: [wl] is then another
    name for the storage of [scr1].  A local of view type is therefore modelled
    as a buffer name, and the storage as a map from names to contents. *)
Record Team (B : Type) := mkTeam {
  scratch : B -> Scr;
  world : World
}.
Arguments mkTeam {B}.
Arguments scratch {B}.
Arguments world {B}.

Section Buffers.
Context {B : Type} (B_eqb : B -> B -> bool).

Definition write (s : B -> Scr) (b : B) (v : Scr) : B -> Scr :=
  fun b' => if B_eqb b' b then v else s b'.

Definition team_emit (e : Event) (t : Team B) : Team B :=
  mkTeam (scratch t) (emit e (world t)).

(** A call [<Scheme><Axis>(member, m, k, j, il, iu, q, ql, qr)]. *)
Definition call_recon (s : Scheme) (a : Axis) (m k j il iu : Z)
    (qf : Field) (q : CellArr) (ql qr : B) (t : Team B) : Team B :=
  let r := reconstruct s a m k j il iu q (scratch t ql) (scratch t qr) in
  mkTeam (write (write (scratch t) ql (fst r)) qr (snd r))
         (emit (EvRecon s a qf m k j il iu) (world t)).

(** A call [Advect/LLF(member, eos, m, k, j, il, iu, ivx, wl, wr, bl, br,
    bx, flx, emf)], where [flx, emf] are the arrays of direction [out]. *)
Definition call_rsolve (s : Solver) (eos : EOS_Data) (m k j il iu : Z)
    (ivx : VelIndex) (wl wr bl br : B) (bx : FaceArr) (out : Axis)
    (t : Team B) : Team B :=
  let fe := rsolve s eos m k j il iu ivx
              (scratch t wl) (scratch t wr) (scratch t bl) (scratch t br)
              bx (flx out (world t)) (emf out (world t)) in
  mkTeam (scratch t)
         (emit (EvSolve s m k j il iu ivx) (set_flx_emf out fe (world t))).

(** [member.team_barrier()] *)
Definition team_barrier (t : Team B) : Team B := team_emit EvBarrier t.

End Buffers.

(** Modelled from the spec: [par_for_outer] (declared in [athena.hpp], not
    under [src/]) launches "a set of independent parallel work units", one
    per combination of its index ranges.  The units touch disjoint scratch
    and disjoint faces, so they are run here one after the other, in
    lexicographic order of their indices. *)
Definition par_for_outer3 (name : string) (scr_size : Z)
    (ml mu kl ku jl ju : Z) (unit_ : Z -> Z -> Z -> World -> World)
    (w : World) : World :=
  fold_left (fun w m =>
    fold_left (fun w k =>
      fold_left (fun w j => unit_ m k j w) (range jl ju) w)
      (range kl ku) w)
    (range ml mu) (emit (EvLaunch name scr_size) w).

Definition par_for_outer2 (name : string) (scr_size : Z)
    (ml mu kl ku : Z) (unit_ : Z -> Z -> World -> World)
    (w : World) : World :=
  fold_left (fun w m =>
    fold_left (fun w k => unit_ m k w) (range kl ku) w)
    (range ml mu) (emit (EvLaunch name scr_size) w).

(** ** The body of [MHDCalcFlux] *)

(** The four scratch arrays of a direction-1 unit. *)
Inductive LineBuf := b_wl | b_wr | b_bl | b_br.

Definition LineBuf_eqb (a b : LineBuf) : bool :=
  match a, b with
  | b_wl, b_wl | b_wr, b_wr | b_bl, b_bl | b_br, b_br => true
  | _, _ => false
  end.

(** The six scratch arrays of a direction-2 or direction-3 unit. *)
Inductive ScrBuf := scr1 | scr2 | scr3 | scr4 | scr5 | scr6.

Definition ScrBuf_eqb (a b : ScrBuf) : bool :=
  match a, b with
  | scr1, scr1 | scr2, scr2 | scr3, scr3
  | scr4, scr4 | scr5, scr5 | scr6, scr6 => true
  | _, _ => false
  end.

(** The six view-typed locals of the loop body, each bound to a buffer. *)
Record Roles := mkRoles {
  wl : ScrBuf; wl_jp1 : ScrBuf; wr : ScrBuf;
  bl : ScrBuf; bl_jp1 : ScrBuf; br : ScrBuf
}.

(** "Permute scratch arrays": the six [auto] locals and the
    [if ((j%2) == 0)] that rebinds four of them.  [%] on [int] truncates
    towards zero, which is [Z.rem]. *)
Definition permute (j : Z) : Roles :=
  let wl     := scr1 in
  let wl_jp1 := scr2 in
  let wr     := scr3 in
  let bl     := scr4 in
  let bl_jp1 := scr5 in
  let br     := scr6 in
  if Z.rem j 2 =? 0
  then mkRoles scr2 scr1 wr scr5 scr4 br
  else mkRoles wl wl_jp1 wr bl bl_jp1 br.

(** In the direction-3 loop the same locals are called [wl_kp1], [bl_kp1]. *)
Definition wl_kp1 : Roles -> ScrBuf := wl_jp1.
Definition bl_kp1 : Roles -> ScrBuf := bl_jp1.

Section Invocation.
Variable pmhd : MHD.

(** [switch (recon_method)]: reconstruct W and then Bcc along axis [a] into
    the given output arrays; the [default] case does nothing. *)
Definition recon_switch {B} (eqb : B -> B -> bool) (a : Axis)
    (m k j il iu : Z) (wl_out wr_out bl_out br_out : B) (t : Team B) : Team B :=
  let w0_ := w0 pmhd in
  let b0_ := bcc0 pmhd in
  match recon_method_ pmhd with
  | dc =>
      let t := call_recon eqb DonorCell a m k j il iu W0 w0_ wl_out wr_out t in
      call_recon eqb DonorCell a m k j il iu Bcc0 b0_ bl_out br_out t
  | plm =>
      let t := call_recon eqb PiecewiseLinear a m k j il iu W0 w0_ wl_out wr_out t in
      call_recon eqb PiecewiseLinear a m k j il iu Bcc0 b0_ bl_out br_out t
  | ppm =>
      let t := call_recon eqb PiecewiseParabolic a m k j il iu W0 w0_ wl_out wr_out t in
      call_recon eqb PiecewiseParabolic a m k j il iu Bcc0 b0_ bl_out br_out t
  | recon_other _ => t
  end.

(** [switch (rsolver_method)]: call the selected solver on the four
    interface-state arrays, writing the flux and EMF of direction [out]; the
    [default] case does nothing. *)
Definition rsolve_switch {B} (m k j il iu : Z) (ivx : VelIndex)
    (wl_in wr_in bl_in br_in : B) (bx : FaceArr) (out : Axis)
    (t : Team B) : Team B :=
  let eos := eos_data pmhd in
  match rsolver_method_ pmhd with
  | advect => call_rsolve Advect_fn eos m k j il iu ivx wl_in wr_in bl_in br_in bx out t
  | llf => call_rsolve LLF_fn eos m k j il iu ivx wl_in wr_in bl_in br_in bx out t
  | rsolver_other _ => t
  end.

Section Sweeps.
(** [nvars] and [ncells1] as computed at the head of the function. *)
Variables nvars ncells1 : Z.

Let cells := mb_cells (pmy_pack pmhd).

(** *** i-direction *)

(** The lambda of ["mhd_flux_x1"], for unit [(m, k, j)]. *)
Definition flux_x1_unit (m k j : Z) (w : World) : World :=
  let w := emit (EvScratch nvars ncells1) w in   (* wl *)
  let w := emit (EvScratch nvars ncells1) w in   (* wr *)
  let w := emit (EvScratch 3 ncells1) w in       (* bl *)
  let w := emit (EvScratch 3 ncells1) w in       (* br *)
  let t := mkTeam (fun b : LineBuf =>
                     match b with
                     | b_wl | b_wr => team_scratch nvars ncells1
                     | b_bl | b_br => team_scratch 3 ncells1
                     end) w in
  (* Reconstruct qR[i] and qL[i+1], for both W and Bcc *)
  let t := recon_switch LineBuf_eqb X1 m k j (is_ cells - 1) (ie cells + 1)
             b_wl b_wr b_bl b_br t in
  (* Sync all threads in the team so that scratch memory is consistent *)
  let t := team_barrier t in
  (* compute fluxes over [is,ie+1] *)
  let t := rsolve_switch m k j (is_ cells) (ie cells + 1) IVX
             b_wl b_wr b_bl b_br (x1f (b0 pmhd)) X1 t in
  world t.

(** *** j-direction *)

(** The freshly constructed [scr1 .. scr6] of a unit. *)
Definition six_scratch (w : World) : Team ScrBuf :=
  let w := emit (EvScratch nvars ncells1) w in   (* scr1 *)
  let w := emit (EvScratch nvars ncells1) w in   (* scr2 *)
  let w := emit (EvScratch nvars ncells1) w in   (* scr3 *)
  let w := emit (EvScratch 3 ncells1) w in       (* scr4 *)
  let w := emit (EvScratch 3 ncells1) w in       (* scr5 *)
  let w := emit (EvScratch 3 ncells1) w in       (* scr6 *)
  mkTeam (fun b : ScrBuf =>
            match b with
            | scr1 | scr2 | scr3 => team_scratch nvars ncells1
            | scr4 | scr5 | scr6 => team_scratch 3 ncells1
            end) w.

(** Reconstruction half of one iteration of the [j] loop, barrier included. *)
Definition flux2_recon (m k j : Z) (t : Team ScrBuf) : Team ScrBuf :=
  let p := permute j in
  (* Reconstruct qR[j] and qL[j+1], for both W and Bcc *)
  let t := recon_switch ScrBuf_eqb X2 m k j (is_ cells - 1) (ie cells + 1)
             (wl_jp1 p) (wr p) (bl_jp1 p) (br p) t in
  team_barrier t.

(** The guarded Riemann solve of one iteration of the [j] loop. *)
Definition flux2_solve (m k j : Z) (t : Team ScrBuf) : Team ScrBuf :=
  let p := permute j in
  (* compute fluxes over [js,je+1]. *)
  if j >? js cells - 1
  then rsolve_switch m k j (is_ cells - 1) (ie cells + 1) IVY
         (wl p) (wr p) (bl p) (br p) (x2f (b0 pmhd)) X2 t
  else t.

(** One iteration of [for (int j=js-1; j<=je+1; ++j)]. *)
Definition flux2_step (m k j : Z) (t : Team ScrBuf) : Team ScrBuf :=
  flux2_solve m k j (flux2_recon m k j t).

(** The iterations from [j = lo] on, started in team state [t]. *)
Definition flux2_loop (m k lo : Z) (t : Team ScrBuf) : Team ScrBuf :=
  fold_left (fun t j => flux2_step m k j t) (range lo (je cells + 1)) t.

(** The lambda of ["mhd_flux2"], for unit [(m, k)]. *)
Definition flux2_unit (m k : Z) (w : World) : World :=
  world (flux2_loop m k (js cells - 1) (six_scratch w)).

(** *** k-direction.  Note order of k,j loops switched *)

Definition flux3_recon (m j k : Z) (t : Team ScrBuf) : Team ScrBuf :=
  let p := permute k in
  (* Reconstruct qR[k] and qL[k+1], for both W and Bcc *)
  let t := recon_switch ScrBuf_eqb X3 m k j (is_ cells - 1) (ie cells + 1)
             (wl_kp1 p) (wr p) (bl_kp1 p) (br p) t in
  team_barrier t.

Definition flux3_solve (m j k : Z) (t : Team ScrBuf) : Team ScrBuf :=
  let p := permute k in
  (* compute fluxes over [ks,ke+1]. *)
  if k >? ks cells - 1
  then
    let t := rsolve_switch m k j (is_ cells - 1) (ie cells + 1) IVZ
               (wl p) (wr p) (bl p) (br p) (x3f (b0 pmhd)) X3 t in
    team_barrier t
  else t.

(** One iteration of [for (int k=ks-1; k<=ke+1; ++k)]. *)
Definition flux3_step (m j k : Z) (t : Team ScrBuf) : Team ScrBuf :=
  flux3_solve m j k (flux3_recon m j k t).

Definition flux3_loop (m j lo : Z) (t : Team ScrBuf) : Team ScrBuf :=
  fold_left (fun t k => flux3_step m j k t) (range lo (ke cells + 1)) t.

(** The lambda of ["divflux_x3"], for unit [(m, j)]. *)
Definition flux3_unit (m j : Z) (w : World) : World :=
  world (flux3_loop m j (ks cells - 1) (six_scratch w)).

(** *** The three dispatches *)

(** [(shmem_size(nvars, ncells1) + shmem_size(3, ncells1)) * n], in
    [size_t] arithmetic. *)
Definition scr_size_for (n : Z) : Z :=
  size_t (size_t (shmem_size nvars ncells1 + shmem_size 3 ncells1) * n).

Definition sweep_x1 (w : World) : World :=
  let nmb := nmb_thispack (pmy_pack pmhd) in
  let scr_size := scr_size_for 2 in
  par_for_outer3 "mhd_flux_x1" scr_size 0 (nmb - 1)
    (ks cells) (ke cells) (js cells) (je cells) flux_x1_unit w.

Definition sweep_x2 (w : World) : World :=
  let nmb := nmb_thispack (pmy_pack pmhd) in
  let scr_size := scr_size_for 3 in
  par_for_outer2 "mhd_flux2" scr_size 0 (nmb - 1)
    (ks cells) (ke cells) flux2_unit w.

Definition sweep_x3 (w : World) : World :=
  let nmb := nmb_thispack (pmy_pack pmhd) in
  let scr_size := scr_size_for 3 in
  par_for_outer2 "divflux_x3" scr_size 0 (nmb - 1)
    (js cells) (je cells) flux3_unit w.

End Sweeps.

(** [nvars] as the function computes it.  The source reads

      [int nmhd = nmhd;]
      [int nvars = nmhd + nscalars;]

    In C++ the scope of a declared name begins before its initialiser, so
    the [nmhd] on the right of the first line is the local being declared,
    not the member: the local is initialised with its own indeterminate
    value.  [nmhd_local] is that value; the member [nmhd pmhd] is not read. *)
Definition nvars_of (nmhd_local : Z) : Z :=
  let nmhd := nmhd_local in
  let nvars := nmhd + nscalars pmhd in
  nvars.

Definition ncells1_of : Z :=
  nx1 (mb_cells (pmy_pack pmhd)) + 2 * ng (mb_cells (pmy_pack pmhd)).

(** [TaskStatus MHD::MHDCalcFlux(Driver *pdrive, int stage)] *)
Definition MHDCalcFlux (nmhd_local : Z) (w : World) : TaskStatus * World :=
  let ncells1 := ncells1_of in
  let nvars := nvars_of nmhd_local in
  (* i-direction *)
  let w := sweep_x1 nvars ncells1 w in
  if negb (nx2gt1 (pmy_pack pmhd)) then (complete, w) else
  (* j-direction *)
  let w := sweep_x2 nvars ncells1 w in
  if negb (nx3gt1 (pmy_pack pmhd)) then (complete, w) else
  (* k-direction *)
  let w := sweep_x3 nvars ncells1 w in
  (complete, w).

End Invocation.
End WithKernels.

Arguments mkTeam {K B}.
Arguments scratch {K B}.
Arguments world {K B}.

End Flux.

(** * Part II: the Orszag-Tang problem generator (src/pgen/orszag_tang.cpp) *)

Module OrszagTang.

(** ** Arithmetic on [Real]

    The generator only evaluates arithmetic expressions and stores the
    results; nothing is compared or branched on.  [Real] and its operations
    are therefore left uninterpreted: a stored value is the expression the
    source evaluates, built from these operations in the source's order of
    evaluation.  [CellCenterX] and [LeftEdgeX] come from
    [utils/grid_locations.hpp], which is not under [src/]. *)
Class RealOps := {
  Real : Type;
  lit : Z -> Real;       (* a literal with an integral value: [25.0] is [lit 25] *)
  half : Real;           (* the literal [0.5] *)
  M_PI : Real;
  fadd : Real -> Real -> Real;
  fsub : Real -> Real -> Real;
  fmul : Real -> Real -> Real;
  fdiv : Real -> Real -> Real;
  fneg : Real -> Real;
  fsqrt : Real -> Real;
  fsin : Real -> Real;
  fcos : Real -> Real;
  (* CellCenterX(ith, n, xmin, xmax), LeftEdgeX(ith, n, xmin, xmax) *)
  CellCenterX : Z -> Z -> Real -> Real -> Real;
  LeftEdgeX : Z -> Z -> Real -> Real -> Real
}.

Declare Scope real_scope.
Delimit Scope real_scope with real.
Infix "+" := fadd : real_scope.
Infix "-" := fsub : real_scope.
Infix "*" := fmul : real_scope.
Infix "/" := fdiv : real_scope.
Notation "- x" := (fneg x) : real_scope.

(** Modelled from the spec: the positions of the conserved variables in a
    cell-state vector ([athena.hpp] is not under [src/]): "density, three
    momentum/velocity components, energy/pressure", in this order. *)
Definition IDN : Z := 0.
Definition IM1 : Z := 1.
Definition IM2 : Z := 2.
Definition IM3 : Z := 3.
Definition IEN : Z := 4.

Section WithReal.
Context {R : RealOps}.

(** [SQR(x)] *)
Definition SQR (x : Real) : Real := (x * x)%real.

(** [u0(m,n,k,j,i)] and [b0.x1f(m,k,j,i)]: arrays as total maps from index
    tuples; an assignment to an element updates the map at that tuple. *)
Definition Array5D := Z -> Z -> Z -> Z -> Z -> Real.
Definition Array4D := Z -> Z -> Z -> Z -> Real.

Definition set5 (a : Array5D) (m n k j i : Z) (v : Real) : Array5D :=
  fun m' n' k' j' i' =>
    if (m' =? m) && (n' =? n) && (k' =? k) && (j' =? j) && (i' =? i)
    then v else a m' n' k' j' i'.

Definition set4 (a : Array4D) (m k j i : Z) (v : Real) : Array4D :=
  fun m' k' j' i' =>
    if (m' =? m) && (k' =? k) && (j' =? j) && (i' =? i)
    then v else a m' k' j' i'.

(** The memory the generator writes: the global [B0], the conserved
    variables and the three face-centred field components. *)
Record Mem := mkMem {
  B0 : Real;
  u0 : Array5D;
  b0_x1f : Array4D;
  b0_x2f : Array4D;
  b0_x3f : Array4D
}.

(** Modelled from the spec: the fields of [pmbp->mb_cells] the generator
    reads (declared outside [src/]): the "active-cell index bounds per
    direction per block" and the active cell counts. *)
Record RegionCells := {
  nx1 : Z; nx2 : Z;
  is_ : Z; ie : Z; js : Z; je : Z; ks : Z; ke : Z   (* [is] is reserved in Rocq *)
}.

(** Modelled from the spec: [pmbp->pmb->mbsize], the per-block physical
    extents and cell sizes; [x1min m] is [size.x1min.d_view(m)]. *)
Record MeshBlockSize := {
  x1min : Z -> Real; x1max : Z -> Real;
  x2min : Z -> Real; x2max : Z -> Real;
  dx1 : Z -> Real; dx2 : Z -> Real
}.

(** What the generator reads of [pmbp]: [gamma] is
    [pmbp->pmhd->peos->eos_data.gamma], present only when [pmbp->pmhd] is not
    null. *)
Record MeshBlockPack := {
  pmhd_gamma : option Real;
  mb_cells : RegionCells;
  nmb_thispack : Z;
  mbsize : MeshBlockSize
}.

(** [Real A3(const Real x1, const Real x2)], reading the global [B0]. *)
Definition A3 (B0 : Real) (x1 x2 : Real) : Real :=
  ((B0 / (lit 4 * M_PI)) *
   (fcos (lit 4 * M_PI * x1) - lit 2 * fcos (lit 2 * M_PI * x2)))%real.

(** Modelled from the spec: [par_for] over four index ranges ([athena.hpp]
    is not under [src/]): the body runs once for every [(m, k, j, i)] of the
    ranges; the iterations are run here in lexicographic order. *)
Definition par_for4 {S : Type} (ml mu kl ku jl ju il iu : Z)
    (body : Z -> Z -> Z -> Z -> S -> S) (s : S) : S :=
  fold_left (fun s m =>
    fold_left (fun s k =>
      fold_left (fun s j =>
        fold_left (fun s i => body m k j i s) (range il iu) s)
        (range jl ju) s)
      (range kl ku) s)
    (range ml mu) s.

Section Generator.
Variable pmbp : MeshBlockPack.

Let cells := mb_cells pmbp.
Let size := mbsize pmbp.

Definition d0 : Real := (lit 25 / (lit 36 * M_PI))%real.
Definition v0 : Real := lit 1.
Definition p0 : Real := (lit 5 / (lit 12 * M_PI))%real.

(** The lambda of ["pgen_ot1"]. *)
Definition pgen_ot1 (m k j i : Z) (s : Mem) : Mem :=
  let x1v := CellCenterX (i - is_ cells) (nx1 cells) (x1min size m) (x1max size m) in
  let x2v := CellCenterX (j - js cells) (nx2 cells) (x2min size m) (x2max size m) in
  (* compute cell-centered conserved variables *)
  let u := u0 s in
  let u := set5 u m IDN k j i d0 in
  let u := set5 u m IM1 k j i (d0 * v0 * fsin (lit 2 * M_PI * x2v))%real in
  let u := set5 u m IM2 k j i (- d0 * v0 * fsin (lit 2 * M_PI * x1v))%real in
  let u := set5 u m IM3 k j i (lit 0) in
  (* Compute face-centered fields from curl(A). *)
  let x1f   := LeftEdgeX (i - is_ cells) (nx1 cells) (x1min size m) (x1max size m) in
  let x1fp1 := LeftEdgeX (i + 1 - is_ cells) (nx1 cells) (x1min size m) (x1max size m) in
  let x2f   := LeftEdgeX (j - js cells) (nx2 cells) (x2min size m) (x2max size m) in
  let x2fp1 := LeftEdgeX (j + 1 - js cells) (nx2 cells) (x2min size m) (x2max size m) in
  let dx1 := dx1 size m in
  let dx2 := dx2 size m in
  let A3 := A3 (B0 s) in
  let b1 := set4 (b0_x1f s) m k j i ((A3 x1f x2fp1 - A3 x1f x2f) / dx2)%real in
  let b2 := set4 (b0_x2f s) m k j i (- (A3 x1fp1 x2f - A3 x1f x2f) / dx1)%real in
  let b3 := set4 (b0_x3f s) m k j i (lit 0) in
  (* Include extra face-component at edge of block in each direction *)
  let b1 := if i =? ie cells
            then set4 b1 m k j (i + 1) ((A3 x1fp1 x2fp1 - A3 x1fp1 x2f) / dx2)%real
            else b1 in
  let b2 := if j =? je cells
            then set4 b2 m k (j + 1) i (- (A3 x1fp1 x2fp1 - A3 x1f x2fp1) / dx1)%real
            else b2 in
  let b3 := if k =? ke cells
            then set4 b3 m (k + 1) j i (lit 0)
            else b3 in
  mkMem (B0 s) u b1 b2 b3.

(** The lambda of ["pgen_ot2"]: total energy. *)
Definition pgen_ot2 (gm1 : Real) (m k j i : Z) (s : Mem) : Mem :=
  let u := u0 s in
  let e :=
    (p0 / gm1
     + (half / u m IDN k j i)
       * (SQR (u m IM1 k j i) + SQR (u m IM2 k j i) + SQR (u m IM3 k j i))
     + half * (SQR (half * (b0_x1f s m k j i + b0_x1f s m k j (i + 1)%Z))
               + SQR (half * (b0_x2f s m k j i + b0_x2f s m k (j + 1)%Z i))
               + SQR (half * (b0_x3f s m k j i + b0_x3f s m (k + 1)%Z j i))))%real in
  mkMem (B0 s) (set5 u m IEN k j i e) (b0_x1f s) (b0_x2f s) (b0_x3f s).

(** The generator either leaves through [exit(EXIT_FAILURE)] or returns
    with the memory it has written. *)
Inductive Outcome := FatalExit | Returned (s : Mem).

(** [void ProblemGenerator::OrszagTang_(MeshBlockPack *pmbp, ParameterInput *pin)] *)
Definition OrszagTang_ (s : Mem) : Outcome :=
  match pmhd_gamma pmbp with
  | None => FatalExit
  | Some gamma =>
      (* defined as global variable shared with A3() function *)
      let s := mkMem (lit 1 / fsqrt (lit 4 * M_PI))%real
                     (u0 s) (b0_x1f s) (b0_x2f s) (b0_x3f s) in
      let gm1 := (gamma - lit 1)%real in
      let nmb := nmb_thispack pmbp in
      let s := par_for4 0 (nmb - 1) (ks cells) (ke cells) (js cells) (je cells)
                        (is_ cells) (ie cells) pgen_ot1 s in
      (* initialize total energy (requires B to be defined across entire grid first) *)
      let s := par_for4 0 (nmb - 1) (ks cells) (ke cells) (js cells) (je cells)
                        (is_ cells) (ie cells) (pgen_ot2 gm1) s in
      Returned s
  end.

End Generator.
End WithReal.
End OrszagTang.

(** * Part III: the particle initialisation of
      [ProblemGenerator::UserProblem] (src/pgen/part_static_turb.cpp) *)

Module PartStaticTurb.

(** ** Floating-point values

    A [Real] is an IEEE 754 value in the representation of the Standard
    Library's [SpecFloat]: a signed zero, a signed infinity, NaN, or a finite
    number.  Comparison is [SFcompare], which is undefined on NaN. *)
Definition Real := spec_float.

Definition is_nan (x : Real) : bool :=
  match x with S754_nan => true | _ => false end.

(** C's [fmin]: the smaller argument; a NaN argument is treated as missing
    data, so the other argument is returned. *)
Definition fmin (x y : Real) : Real :=
  match SFcompare x y with
  | Some Lt => x
  | Some _ => y
  | None => if is_nan x then y else x
  end.

(** C's [fmax]: the larger argument, with the same treatment of NaN. *)
Definition fmax (x y : Real) : Real :=
  match SFcompare x y with
  | Some Gt => x
  | Some _ => y
  | None => if is_nan x then y else x
  end.

(** ** What stays uninterpreted

    The arithmetic of the kernel, its literals, the conversion
    [static_cast<int>] and the Kokkos random-number pool.  A generator is
    taken from the pool with [get_state], advanced by every [frand], and
    given back with [free_state]. *)
Class Numerics := {
  lit : Z -> Z -> Real;          (* [lit n e]: the decimal literal n * 10^e *)
  M_PI : Real;
  of_int : Z -> Real;            (* the conversion of an [int] operand *)
  static_cast_int : Real -> Z;   (* [static_cast<int>] *)
  fadd : Real -> Real -> Real;
  fsub : Real -> Real -> Real;
  fmul : Real -> Real -> Real;
  fsqrt : Real -> Real;
  fcos : Real -> Real;
  fsin : Real -> Real;
  fpow : Real -> Real -> Real;
  Pool : Type;
  Gen : Type;
  Random_XorShift64_Pool : Z -> Pool;
  get_state : Pool -> Gen * Pool;
  frand : Gen -> Real * Gen;
  free_state : Pool -> Gen -> Pool
}.

Declare Scope fp_scope.
Delimit Scope fp_scope with fp.
Infix "+" := fadd : fp_scope.
Infix "-" := fsub : fp_scope.
Infix "*" := fmul : fp_scope.

(** The rows of the particle arrays ([particles.hpp] is not under [src/]):
    the integer data [prtcl_idata] and the real data [prtcl_rdata]. *)
Inductive IntIndex := PGID | PSP.

Inductive RealIndex :=
| IPX | IPY | IPZ | IPVX | IPVY | IPVZ | IPM
| IPDX | IPDY | IPDZ | IPDB | IPBX | IPBY | IPBZ.

Definition IntIndex_eqb (a b : IntIndex) : bool :=
  match a, b with
  | PGID, PGID | PSP, PSP => true
  | _, _ => false
  end.

Definition RealIndex_eqb (a b : RealIndex) : bool :=
  match a, b with
  | IPX, IPX | IPY, IPY | IPZ, IPZ | IPVX, IPVX | IPVY, IPVY | IPVZ, IPVZ
  | IPM, IPM | IPDX, IPDX | IPDY, IPDY | IPDZ, IPDZ | IPDB, IPDB
  | IPBX, IPBX | IPBY, IPBY | IPBZ, IPBZ => true
  | _, _ => false
  end.

(** Modelled from the spec: the physical extent of one mesh block, an
    element of [mbsize.d_view] (its struct is declared outside [src/]). *)
Record RegionSize := {
  x1min : Real; x1max : Real;
  x2min : Real; x2max : Real;
  x3min : Real; x3max : Real
}.

Section WithNumerics.
Context {N : Numerics}.

(** [pr(n,p)] and [pi(n,p)]: arrays as total maps from (row, particle). *)
Definition RealData := RealIndex -> Z -> Real.
Definition IntData := IntIndex -> Z -> Z.

Definition set_pr (a : RealData) (n : RealIndex) (p : Z) (v : Real) : RealData :=
  fun n' p' => if RealIndex_eqb n' n && (p' =? p) then v else a n' p'.

Definition set_pi (a : IntData) (n : IntIndex) (p : Z) (v : Z) : IntData :=
  fun n' p' => if IntIndex_eqb n' n && (p' =? p) then v else a n' p'.

(** The [Particles] object behind [pmbp->ppart]. *)
Record Particles := mkParticles {
  prtcl_rdata : RealData;
  prtcl_idata : IntData;
  nprtcl_thispack : Z;
  nprtcl_perspec_thispack : Z;
  nspecies : Z
}.

(** What the kernel reads of the pack. *)
Record MeshBlockPack := {
  ppart : option Particles;
  mb_size : Z -> RegionSize;     (* [mbsize.d_view(m)] *)
  gids : Z;
  gide : Z;
  nmb_thispack : Z
}.

(** The state the kernel threads: the two arrays and the generator pool. *)
Record KState := mkKState {
  pr : RealData;
  pi : IntData;
  rand_pool64 : Pool
}.

Section Kernel.
Variable pmbp : MeshBlockPack.
Variables min_mass mass_log_spacing : Real.
Variables npart_spec nspecies_ : Z.

(** The lambda of ["part_update"], for particle [p]. *)
Definition part_update (p : Z) (s : KState) : KState :=
  let mbsize := mb_size pmbp in
  let gids := gids pmbp in
  let gide := gide pmbp in
  let nmbtp := nmb_thispack pmbp in
  let pr := pr s in
  let pi := pi s in
  (* get random number state this thread *)
  let '(rand_gen, pool) := get_state (rand_pool64 s) in
  (* choose parent MeshBlock randomly *)
  let '(r, rand_gen) := frand rand_gen in
  let m := static_cast_int (r * (of_int (gide - gids) + lit 1 0))%fp in
  let m := Z.max m 0 in
  let m := Z.min m (nmbtp - 1) in
  let pi := set_pi pi PGID p (gids + m) in
  let spec := Z.quot p npart_spec in
  let spec := Z.max spec 0 in
  let spec := Z.min spec (nspecies_ - 1) in
  let pi := set_pi pi PSP p spec in
  let '(rand, rand_gen) := frand rand_gen in
  let pr := set_pr pr IPX p
              ((lit 1 0 - rand) * x1min (mbsize m) + rand * x1max (mbsize m))%fp in
  let pr := set_pr pr IPX p (fmin (pr IPX p) (x1max (mbsize m))) in
  let pr := set_pr pr IPX p (fmax (pr IPX p) (x1min (mbsize m))) in
  let '(rand, rand_gen) := frand rand_gen in
  let pr := set_pr pr IPY p
              ((lit 1 0 - rand) * x2min (mbsize m) + rand * x2max (mbsize m))%fp in
  let pr := set_pr pr IPY p (fmin (pr IPY p) (x2max (mbsize m))) in
  let pr := set_pr pr IPY p (fmax (pr IPY p) (x2min (mbsize m))) in
  let '(rand, rand_gen) := frand rand_gen in
  let pr := set_pr pr IPZ p
              ((lit 1 0 - rand) * x3min (mbsize m) + rand * x3max (mbsize m))%fp in
  let pr := set_pr pr IPZ p (fmin (pr IPZ p) (x3max (mbsize m))) in
  let pr := set_pr pr IPZ p (fmax (pr IPZ p) (x3min (mbsize m))) in
  let mu := lit 99 (-2) in
  let '(r, rand_gen) := frand rand_gen in
  let phi := (lit 2 0 * M_PI * r)%fp in
  let pr := set_pr pr IPVX p (fsqrt (lit 1 0 - mu * mu) * fcos phi)%fp in
  let pr := set_pr pr IPVY p (fsqrt (lit 1 0 - mu * mu) * fsin phi)%fp in
  let pr := set_pr pr IPVZ p mu in
  let pr := set_pr pr IPM p (min_mass * fpow mass_log_spacing (of_int spec))%fp in
  let pr := set_pr pr IPDX p (lit 0 0) in
  let pr := set_pr pr IPDY p (lit 0 0) in
  let pr := set_pr pr IPDZ p (lit 0 0) in
  let pr := set_pr pr IPDB p (lit 0 0) in
  let pr := set_pr pr IPBX p (lit 0 0) in
  let pr := set_pr pr IPBY p (lit 0 0) in
  let pr := set_pr pr IPBZ p (lit 1 0) in
  mkKState pr pi (free_state pool rand_gen).

End Kernel.

(** Modelled from the spec: [par_for] over one index range ([athena.hpp] is
    not under [src/]); the iterations are run in increasing order. *)
Definition par_for1 {S : Type} (lo hi : Z) (body : Z -> S -> S) (s : S) : S :=
  fold_left (fun s p => body p s) (range lo hi) s.

(** The function either leaves through [exit(EXIT_FAILURE)] or goes on with
    initialised particle arrays. *)
Inductive Outcome := FatalExit | Initialized (pp : Particles).

(** The head of [UserProblem]: the check that [pmbp->ppart] is not null and
    the ["part_update"] kernel.  The statements that follow in the source
    set the time step and the MHD variables; they write neither
    [prtcl_rdata] nor [prtcl_idata]. *)
Definition UserProblem (pmbp : MeshBlockPack) (min_mass mass_log_spacing : Real)
    : Outcome :=
  match ppart pmbp with
  | None => FatalExit
  | Some pp =>
      let npart := nprtcl_thispack pp in
      let npart_spec := nprtcl_perspec_thispack pp in
      let nspecies_ := nspecies pp in
      (* initialize particles *)
      let rand_pool64 := Random_XorShift64_Pool (gids pmbp) in
      let s := par_for1 0 (npart - 1)
                 (part_update pmbp min_mass mass_log_spacing npart_spec nspecies_)
                 (mkKState (prtcl_rdata pp) (prtcl_idata pp) rand_pool64) in
      Initialized (mkParticles (pr s) (pi s) npart npart_spec nspecies_)
  end.

End WithNumerics.
End PartStaticTurb.
(** * Part III, continued: the rest of src/pgen/part_static_turb.cpp

    The time step, the restart reduction over the magnetic field, the MHD
    initialisation of [ProblemGenerator::UserProblem], and the history
    function [ParticleHistory]. *)

Module PartStaticTurbRest.
Import PartStaticTurb.


(** ** What stays uninterpreted, besides [Numerics]

    Division and the value a [Kokkos::Min<Real>] reduction starts from. *)
Class MoreNumerics := {
  fdiv : Real -> Real -> Real;
  min_identity : Real
}.

Infix "/" := fdiv : fp_scope.

(** [GridIndices] of mesh/meshblock.hpp. *)
Record GridIndices := {
  is_ : Z; ie : Z; js : Z; je : Z; ks : Z; ke : Z;   (* indices of ACTIVE cells *)
  nghost : Z;                                        (* number of ghost zones *)
  nx1 : Z; nx2 : Z; nx3 : Z;                         (* number of ACTIVE cells in each dir *)
  ncells1 : Z; ncells2 : Z; ncells3 : Z              (* total # of cells each dir *)
}.

(** [MeshBlock::GetNumberOfMeshBlockCells] of mesh/meshblock.hpp, on the
    three cell counts of [block_size]. *)
Definition GetNumberOfMeshBlockCells (block_nx1 block_nx2 block_nx3 : Z) : Z :=
  block_nx1 * block_nx2 * block_nx3.

(** Arrays as total maps from index tuples, as in the other parts. *)
Definition Array5D := Z -> Z -> Z -> Z -> Z -> Real.
Definition Array4D := Z -> Z -> Z -> Z -> Real.

Definition set5 (a : Array5D) (m n k j i : Z) (v : Real) : Array5D :=
  fun m' n' k' j' i' =>
    if (m' =? m) && (n' =? n) && (k' =? k) && (j' =? j) && (i' =? i)
    then v else a m' n' k' j' i'.

Definition set4 (a : Array4D) (m k j i : Z) (v : Real) : Array4D :=
  fun m' k' j' i' =>
    if (m' =? m) && (k' =? k) && (j' =? j) && (i' =? i)
    then v else a m' k' j' i'.

(** Modelled from the spec: the face-centred field [pmhd->b0] (its struct is
    declared outside [src/]). *)
Record DvceFaceFld := mkFaceFld {
  x1f : Array4D;
  x2f : Array4D;
  x3f : Array4D
}.

(** Modelled from the spec: the two fields of [peos->eos_data] the function
    reads. *)
Record EOS_Data := {
  gamma : Real;
  is_ideal : bool
}.

(** Modelled from the spec: what the function reads and writes of the [MHD]
    object behind [pmbp->pmhd]. *)
Record MHD := mkMHD {
  eos_data : EOS_Data;
  u0 : Array5D;
  b0 : DvceFaceFld
}.



Section WithNumerics.
Context {N : Numerics} {M : MoreNumerics}.

Definition SQR (x : Real) : Real := (x * x)%fp.

(** ** The restart reduction ["pgen_restart_w_part"] *)

Section Restart.
Variable indcs : GridIndices.
Variables nkji nji : Z.

(** The [m,k,j,i] indices of thread [idx]. *)
Definition thread_cell (idx : Z) : Z * Z * Z * Z :=
  let m := Z.quot idx nkji in
  let k := Z.quot (idx - m * nkji) nji in
  let j := Z.quot (idx - m * nkji - k * nji) (nx1 indcs) in
  let i := (idx - m * nkji - k * nji - j * nx1 indcs) + is_ indcs in
  let k := k + ks indcs in
  let j := j + js indcs in
  (m, k, j, i).



End Restart.


(** ** The MHD initialisation ["pgen_mhd"] *)


(** ** The whole of [ProblemGenerator::UserProblem] *)

(** The function leaves through [exit(EXIT_FAILURE)], or reads through the
    null pointer [pmbp->pmhd] (a restart without MHD: undefined behaviour),
    or returns with the particle arrays, the time step [dtnew] and the MHD
    object.  The enrolment [user_hist_func = ParticleHistory] that opens the
    function is not part of the model. *)
Inductive Outcome :=
| FatalExit
| NullDereference
| Returned (pp : Particles) (dtnew : Real) (pmhd : option MHD).


(** ** [ParticleHistory] *)

(** Modelled from the spec: what the function writes of [HistoryData] (its
    struct is declared outside [src/]). *)
Record HistoryData := mkHistoryData {
  nhist : Z;
  label : Z -> string;
  hdata : Z -> Real
}.

(** Modelled from the spec: [array_sum::GlobalSum], an array of
    [NHISTORY_VARIABLES] reals added element by element (declared outside
    [src/]).  The model does not bound the array: an index outside
    [0 .. NHISTORY_VARIABLES-1], which the source must not use, is an
    element like any other. *)
Definition GlobalSum := Z -> Real.

Definition set_elt (a : GlobalSum) (n : Z) (v : Real) : GlobalSum :=
  fun n' => if n' =? n then v else a n'.

Definition add_sum (a b : GlobalSum) : GlobalSum := fun n => (a n + b n)%fp.

(** The loop that writes the four labels of each species. *)
Definition write_labels (nfields nspecies_ : Z) (label : Z -> string) : Z -> string :=
  fold_left (fun label i =>
    let label := fun n => if n =? nfields * i + 0 then "Dx^2"%string else label n in
    let label := fun n => if n =? nfields * i + 1 then "Dy^2"%string else label n in
    let label := fun n => if n =? nfields * i + 2 then "Dz^2"%string else label n in
    let label := fun n => if n =? nfields * i + 3 then "Db^2"%string else label n in
    label) (range 0 (nspecies_ - 1)) label.

(** The lambda of ["HistSums"], for particle [p]. *)
Definition HistSums (pr : RealData) (pi : IntData) (nfields nspecies_ nprtcl_total_ : Z)
    (p : Z) (mb_sum : GlobalSum) : GlobalSum :=
  let spec := pi PSP p in
  (* fill the_array with zeros *)
  let hvars : GlobalSum := fun _ => lit 0 0 in
  (* Now fill the fields relevant to that species *)
  let hvars := set_elt hvars (spec * nfields + 0)
                 (SQR (pr IPDX p) / of_int nprtcl_total_ * of_int nspecies_)%fp in
  let hvars := set_elt hvars (spec * nfields + 1)
                 (SQR (pr IPDY p) / of_int nprtcl_total_ * of_int nspecies_)%fp in
  let hvars := set_elt hvars (spec * nfields + 2)
                 (SQR (pr IPDZ p) / of_int nprtcl_total_ * of_int nspecies_)%fp in
  let hvars := set_elt hvars (spec * nfields + 3)
                 (SQR (pr IPDB p) / of_int nprtcl_total_ * of_int nspecies_)%fp in
  (* sum into parallel reduce *)
  add_sum mb_sum hvars.

(** Modelled from the spec: [Kokkos::parallel_reduce] over
    [RangePolicy(lo, hi)] with the reducer [Kokkos::Sum<GlobalSum>] (Kokkos
    is not under [src/]): the iterations [lo .. hi-1], in increasing order,
    on one accumulator that starts from zeros. *)
Definition parallel_reduce_sum (lo hi : Z) (body : Z -> GlobalSum -> GlobalSum)
    : GlobalSum :=
  fold_left (fun mb_sum p => body p mb_sum) (range lo (hi - 1)) (fun _ => lit 0 0).

(** The loop that stores the sums into [hdata]. *)
Definition store_sums (nhist : Z) (sum_this_mb : GlobalSum) (hdata : Z -> Real)
    : Z -> Real :=
  fold_left (fun hdata n => fun n' => if n' =? n then sum_this_mb n else hdata n')
            (range 0 (nhist - 1)) hdata.

Definition ParticleHistory (pdata : HistoryData) (pp : Particles) (nprtcl_total : Z)
    : HistoryData :=
  let npart := nprtcl_thispack pp in
  let pr := prtcl_rdata pp in
  let pi := prtcl_idata pp in
  let nspecies_ := nspecies pp in
  let nprtcl_total_ := nprtcl_total in
  let nfields := 4 in
  let nhist_ := nfields * nspecies_ in
  let label := write_labels nfields nspecies_ (label pdata) in
  let sum_this_mb :=
    parallel_reduce_sum 0 (npart - 1)
      (HistSums pr pi nfields nspecies_ nprtcl_total_) in
  mkHistoryData nhist_ label (store_sums nhist_ sum_this_mb (hdata pdata)).

End WithNumerics.
End PartStaticTurbRest.

(** * Concrete instances of the uninterpreted parts, for closed examples *)

(** ** Recording kernels for [MHDCalcFlux]

    Kernels that keep a record of their own calls instead of numbers.  A
    scratch array holds a stamp saying which reconstruction call wrote it
    last (or that it is still uninitialised team scratch); a flux or EMF
    array holds the list of solver calls that wrote it, each with the stamps
    of the left and right states it was given. *)
Module Recording.
Import Flux.

Inductive Stamp :=
| Uninit (rows cols : Z)
| LeftState (a : Axis) (q : Field) (m k j : Z)
| RightState (a : Axis) (q : Field) (m k j : Z).

Definition SolveRecord : Type := Solver * (Z * Z * Z) * (Z * Z) * (Stamp * Stamp).

#[export] Instance kernels : Kernels := {|
  Scr := Stamp;
  CellArr := Field;
  FaceArr := Axis;
  FluxArr := list SolveRecord;
  EmfArr := list SolveRecord;
  EOS_Data := unit;
  shmem_size := fun rows cols => 8 * rows * cols;
  team_scratch := Uninit;
  reconstruct := fun _ a m k j _ _ q _ _ => (LeftState a q m k j, RightState a q m k j);
  rsolve := fun s _ m k j il iu _ wl wr bl br _ flx emf =>
              (flx ++ [(s, (m, k, j), (il, iu), (wl, wr))],
               emf ++ [(s, (m, k, j), (il, iu), (bl, br))])
|}.

Definition cells (is_ ie js je ks ke : Z) : RegionCells :=
  {| is_ := is_; ie := ie; js := js; je := je; ks := ks; ke := ke;
     nx1 := ie - is_ + 1; ng := is_ |}.

(** One block with active cells [2..3] in each meshed direction. *)
Definition pack (nx2gt1 nx3gt1 : bool) : MeshBlockPack :=
  {| mb_cells := cells 2 3 (if nx2gt1 then 2 else 0) (if nx2gt1 then 3 else 0)
                           (if nx3gt1 then 2 else 0) (if nx3gt1 then 3 else 0);
     nmb_thispack := 1;
     nx2gt1 := nx2gt1;
     nx3gt1 := nx3gt1 |}.

Definition mhd (nx2gt1 nx3gt1 : bool) (rm : ReconstructionMethod)
    (rs : MHD_RSolver) : MHD :=
  {| pmy_pack := pack nx2gt1 nx3gt1;
     nmhd := 8;
     nscalars := 0;
     recon_method_ := rm;
     rsolver_method_ := rs;
     w0 := W0;
     bcc0 := Bcc0;
     b0 := {| x1f := X1; x2f := X2; x3f := X3 |};
     eos_data := tt |}.

(** Output arrays nothing has written yet. *)
Definition blank : World := mkWorld [] [] [] [] [] [] [].

End Recording.

(** ** Symbolic reals for the Orszag-Tang generator

    The free instance of [RealOps]: a value is the expression that computes
    it, so two stored values are equal exactly when the source evaluates the
    same expression for them. *)
Module Symbolic.
Import OrszagTang.

Inductive Expr :=
| Lit (z : Z)
| Half
| Pi
| Add (a b : Expr)
| Sub (a b : Expr)
| Mul (a b : Expr)
| Div (a b : Expr)
| Neg (a : Expr)
| Sqrt (a : Expr)
| Sin (a : Expr)
| Cos (a : Expr)
| CellCenter (ith n : Z) (xmin xmax : Expr)
| LeftEdge (ith n : Z) (xmin xmax : Expr)
| Param (name : string) (m : Z).

#[export] Instance real_ops : RealOps := {|
  Real := Expr;
  lit := Lit; half := Half; M_PI := Pi;
  fadd := Add; fsub := Sub; fmul := Mul; fdiv := Div; fneg := Neg;
  fsqrt := Sqrt; fsin := Sin; fcos := Cos;
  CellCenterX := CellCenter; LeftEdgeX := LeftEdge
|}.

(** A pack of two blocks of 4 x 4 x 1 active cells with two ghost cells. *)
Definition pack : MeshBlockPack :=
  {| pmhd_gamma := Some (Div (Lit 5) (Lit 3));
     mb_cells := {| nx1 := 4; nx2 := 4;
                    is_ := 2; ie := 5; js := 2; je := 5; ks := 0; ke := 0 |};
     nmb_thispack := 2;
     mbsize := {| x1min := Param "x1min"; x1max := Param "x1max";
                  x2min := Param "x2min"; x2max := Param "x2max";
                  dx1 := Param "dx1"; dx2 := Param "dx2" |} |}.

(** Memory before the generator runs: every element is a named unknown. *)
Definition unset : Mem :=
  {| B0 := Param "B0" 0;
     u0 := fun _ _ _ _ _ => Param "u0" 0;
     b0_x1f := fun _ _ _ _ => Param "b0.x1f" 0;
     b0_x2f := fun _ _ _ _ => Param "b0.x2f" 0;
     b0_x3f := fun _ _ _ _ => Param "b0.x3f" 0 |}.

End Symbolic.

(** ** Binary64 numerics for the particle kernel

    [Real] computed as IEEE 754 binary64 with the Standard Library's
    [SpecFloat] operations.  [cos], [sin] and [pow] are not IEEE operations
    and have no counterpart there; they and the generator are stand-ins,
    which is enough for closed examples of statements that hold for every
    choice of them. *)
Module Binary64.
Import PartStaticTurb.

Definition b64_of_Z (z : Z) : Real := binary_normalize 53 1024 z 0 false.

Definition b64_lit (n e : Z) : Real :=
  if 0 <=? e
  then b64_of_Z (n * 10 ^ e)
  else SFdiv 53 1024 (b64_of_Z n) (b64_of_Z (10 ^ (- e))).

(** Truncation towards zero of a finite value. *)
Definition b64_trunc (x : Real) : Z :=
  match x with
  | S754_finite s m e =>
      let a := if 0 <=? e then Z.pos m * 2 ^ e else Z.quot (Z.pos m) (2 ^ (- e)) in
      if s then - a else a
  | _ => 0
  end.

#[export] Instance numerics : Numerics := {|
  lit := b64_lit;
  M_PI := b64_lit 3141592653589793 (-15);
  of_int := b64_of_Z;
  static_cast_int := b64_trunc;
  fadd := SFadd 53 1024;
  fsub := SFsub 53 1024;
  fmul := SFmul 53 1024;
  fsqrt := SFsqrt 53 1024;
  fcos := fun x => x;
  fsin := fun x => x;
  fpow := fun x _ => x;
  Pool := Z;
  Gen := Z;
  Random_XorShift64_Pool := fun seed => seed;
  get_state := fun pool => (pool, pool + 1);
  (* a draw in [0, 1): (g mod 16) / 16 *)
  frand := fun g => (SFdiv 53 1024 (b64_of_Z (g mod 16)) (b64_of_Z 16), 5 * g + 3);
  free_state := fun pool _ => pool
|}.

(** Two unit blocks side by side along x1. *)
Definition block (m : Z) : RegionSize :=
  {| x1min := b64_of_Z m; x1max := b64_of_Z (m + 1);
     x2min := b64_of_Z 0; x2max := b64_of_Z 1;
     x3min := b64_of_Z 0; x3max := b64_of_Z 1 |}.

(** Six particles of two species, arrays zero-filled. *)
Definition particles : Particles :=
  {| prtcl_rdata := fun _ _ => S754_zero false;
     prtcl_idata := fun _ _ => 0;
     nprtcl_thispack := 6;
     nprtcl_perspec_thispack := 3;
     nspecies := 2 |}.

Definition pack : MeshBlockPack :=
  {| ppart := Some particles;
     mb_size := block;
     gids := 4;
     gide := 5;
     nmb_thispack := 2 |}.

End Binary64.

(** ** A pack without blocks, on the recording kernels *)
Module NoBlocks.
Import Flux Recording.

Definition mhd : MHD :=
  {| pmy_pack := {| mb_cells := cells 2 3 2 3 2 3;
                    nmb_thispack := 0;
                    nx2gt1 := true;
                    nx3gt1 := true |};
     nmhd := 8;
     nscalars := 0;
     recon_method_ := plm;
     rsolver_method_ := llf;
     w0 := W0;
     bcc0 := Bcc0;
     b0 := {| x1f := X1; x2f := X2; x3f := X3 |};
     eos_data := tt |}.

End NoBlocks.

(** ** A second symbolic memory for the Orszag-Tang generator *)

Module Cleared.
Import OrszagTang.

(** Memory in which every element is the literal zero. *)
Definition mem : @Mem Symbolic.real_ops :=
  @mkMem Symbolic.real_ops (Symbolic.Lit 0)
    (fun _ _ _ _ _ => Symbolic.Lit 0)
    (fun _ _ _ _ => Symbolic.Lit 0)
    (fun _ _ _ _ => Symbolic.Lit 0)
    (fun _ _ _ _ => Symbolic.Lit 0).

End Cleared.
(** ** A restart and a fresh start on the binary64 numerics *)
Module Binary64Rest.
Import PartStaticTurb PartStaticTurbRest Binary64.

#[export] Instance more_numerics : MoreNumerics := {|
  fdiv := SFdiv 53 1024;
  (* the largest finite binary64 number *)
  min_identity := S754_finite false 9007199254740991 971
|}.

(** Blocks of 2 x 2 x 2 active cells behind two ghost zones. *)
Definition indcs : GridIndices :=
  {| is_ := 2; ie := 3; js := 2; je := 3; ks := 2; ke := 3;
     nghost := 2;
     nx1 := 2; nx2 := 2; nx3 := 2;
     ncells1 := 6; ncells2 := 6; ncells3 := 6 |}.

(** An ideal gas with [gamma = 2], nothing stored yet, in the field
    [(0, 0, 2)]. *)
Definition mhd : MHD :=
  {| eos_data := {| gamma := b64_of_Z 2; is_ideal := true |};
     u0 := fun _ _ _ _ _ => S754_zero false;
     b0 := {| x1f := fun _ _ _ _ => S754_zero false;
              x2f := fun _ _ _ _ => S754_zero false;
              x3f := fun _ _ _ _ => b64_of_Z 2 |} |}.




(** The six particles of [Binary64.particles], the last one displaced. *)
Definition last_displaced : Particles :=
  {| prtcl_rdata := fun n p => if p =? 5 then b64_of_Z 3
                               else prtcl_rdata particles n p;
     prtcl_idata := prtcl_idata particles;
     nprtcl_thispack := 6;
     nprtcl_perspec_thispack := 3;
     nspecies := 2 |}.

(** A history record nothing has been written to. *)
Definition no_history : HistoryData :=
  {| nhist := 0;
     label := fun _ => EmptyString;
     hdata := fun _ => S754_zero false |}.

End Binary64Rest.

(** ** The events each piece of [MHDCalcFlux] is expected to leave

    Written from the selectors and the index bounds alone; the theorems
    below show that the code's trace is the one written here. *)
Module FluxEvents.
Import Flux.

Section Expected.
Context {K : Kernels}.
Variable pmhd : MHD.
Variables nvars ncells1 : Z.

Let cells := mb_cells (pmy_pack pmhd).

(** The two calls of the selected reconstruction function, on W and on Bcc. *)
Definition recon_events (a : Axis) (m k j il iu : Z) : list Event :=
  match selected_scheme (recon_method_ pmhd) with
  | Some s => [EvRecon s a W0 m k j il iu; EvRecon s a Bcc0 m k j il iu]
  | None => []
  end.

(** The call of the selected Riemann solver. *)
Definition solve_events (m k j il iu : Z) (ivx : VelIndex) : list Event :=
  match selected_solver (rsolver_method_ pmhd) with
  | Some s => [EvSolve s m k j il iu ivx]
  | None => []
  end.

Definition x1_unit_events (m k j : Z) : list Event :=
  [EvScratch nvars ncells1; EvScratch nvars ncells1;
   EvScratch 3 ncells1; EvScratch 3 ncells1]
  ++ recon_events X1 m k j (is_ cells - 1) (ie cells + 1)
  ++ [EvBarrier]
  ++ solve_events m k j (is_ cells) (ie cells + 1) IVX.

Definition six_scratch_events : list Event :=
  [EvScratch nvars ncells1; EvScratch nvars ncells1; EvScratch nvars ncells1;
   EvScratch 3 ncells1; EvScratch 3 ncells1; EvScratch 3 ncells1].

Definition x2_step_events (m k j : Z) : list Event :=
  recon_events X2 m k j (is_ cells - 1) (ie cells + 1)
  ++ [EvBarrier]
  ++ (if j >? js cells - 1
      then solve_events m k j (is_ cells - 1) (ie cells + 1) IVY
      else []).

Definition x2_unit_events (m k : Z) : list Event :=
  six_scratch_events
  ++ flat_map (x2_step_events m k) (range (js cells - 1) (je cells + 1)).

Definition x3_step_events (m j k : Z) : list Event :=
  recon_events X3 m k j (is_ cells - 1) (ie cells + 1)
  ++ [EvBarrier]
  ++ (if k >? ks cells - 1
      then solve_events m k j (is_ cells - 1) (ie cells + 1) IVZ ++ [EvBarrier]
      else []).

Definition x3_unit_events (m j : Z) : list Event :=
  six_scratch_events
  ++ flat_map (x3_step_events m j) (range (ks cells - 1) (ke cells + 1)).

Definition x1_sweep_events : list Event :=
  EvLaunch "mhd_flux_x1" (scr_size_for nvars ncells1 2)
  :: flat_map (fun m =>
       flat_map (fun k =>
         flat_map (fun j => x1_unit_events m k j) (range (js cells) (je cells)))
         (range (ks cells) (ke cells)))
       (range 0 (nmb_thispack (pmy_pack pmhd) - 1)).

Definition x2_sweep_events : list Event :=
  EvLaunch "mhd_flux2" (scr_size_for nvars ncells1 3)
  :: flat_map (fun m =>
       flat_map (fun k => x2_unit_events m k) (range (ks cells) (ke cells)))
       (range 0 (nmb_thispack (pmy_pack pmhd) - 1)).

Definition x3_sweep_events : list Event :=
  EvLaunch "divflux_x3" (scr_size_for nvars ncells1 3)
  :: flat_map (fun m =>
       flat_map (fun j => x3_unit_events m j) (range (js cells) (je cells)))
       (range 0 (nmb_thispack (pmy_pack pmhd) - 1)).

End Expected.

(** The events of a whole invocation: the sweeps of the meshed directions,
    in order. *)
Definition MHDCalcFlux_events {K : Kernels} (pmhd : MHD) (nmhd_local : Z)
    : list Event :=
  let nvars := nvars_of pmhd nmhd_local in
  let ncells1 := ncells1_of pmhd in
  x1_sweep_events pmhd nvars ncells1
  ++ (if nx2gt1 (pmy_pack pmhd)
      then x2_sweep_events pmhd nvars ncells1
           ++ (if nx3gt1 (pmy_pack pmhd)
               then x3_sweep_events pmhd nvars ncells1
               else [])
      else []).

End FluxEvents.

(** ** What the Orszag-Tang generator is expected to store

    Written from the problem statement: the face coordinates, the two
    components of the curl of [A3] by finite differences, and the conserved
    variables; then the two relations between memories that the proofs
    carry through the kernels. *)
Module OrszagTangSpec.
Import OrszagTang.

Section Expected.
Context {R : RealOps}.
Variable pmbp : MeshBlockPack.

Let cells := mb_cells pmbp.
Let size := mbsize pmbp.

(** Coordinates of the cell centre [i], [j] and of the lower face [i], [j]
    of block [m]. *)
Definition x1_centre (m i : Z) : Real :=
  CellCenterX (i - is_ cells) (nx1 cells) (x1min size m) (x1max size m).
Definition x2_centre (m j : Z) : Real :=
  CellCenterX (j - js cells) (nx2 cells) (x2min size m) (x2max size m).
Definition x1_face (m i : Z) : Real :=
  LeftEdgeX (i - is_ cells) (nx1 cells) (x1min size m) (x1max size m).
Definition x2_face (m j : Z) : Real :=
  LeftEdgeX (j - js cells) (nx2 cells) (x2min size m) (x2max size m).

(** B1 on the x1-face [i] of row [j]: the difference of [A3] along x2. *)
Definition curl_x1 (B0 : Real) (m j i : Z) : Real :=
  ((A3 B0 (x1_face m i) (x2_face m (j + 1)) - A3 B0 (x1_face m i) (x2_face m j))
   / dx2 size m)%real.

(** B2 on the x2-face [j] of column [i]: minus the difference of [A3]
    along x1. *)
Definition curl_x2 (B0 : Real) (m j i : Z) : Real :=
  (- (A3 B0 (x1_face m (i + 1)) (x2_face m j) - A3 B0 (x1_face m i) (x2_face m j))
   / dx1 size m)%real.

(** The conserved variable [n] of cell [(j, i)] of block [m], for
    [n = IDN, IM1, IM2, IM3]. *)
Definition conserved (n m j i : Z) : Real :=
  if n =? IDN then (lit 25 / (lit 36 * M_PI))%real
  else if n =? IM1
       then (lit 25 / (lit 36 * M_PI) * lit 1 * fsin (lit 2 * M_PI * x2_centre m j))%real
  else if n =? IM2
       then (- (lit 25 / (lit 36 * M_PI)) * lit 1 * fsin (lit 2 * M_PI * x1_centre m i))%real
  else lit 0.

(** [s'] differs from [s] only where it holds the expected value: [B0] is
    the same, and each element of [u0] (rows [IDN .. IM3] only) and of the
    three face arrays is either as in [s] or the expected one. *)
Definition fills (s s' : Mem) : Prop :=
  B0 s' = B0 s
  /\ (forall m n k j i,
        u0 s' m n k j i = u0 s m n k j i
        \/ (IDN <= n <= IM3 /\ u0 s' m n k j i = conserved n m j i))
  /\ (forall m k j i,
        b0_x1f s' m k j i = b0_x1f s m k j i
        \/ b0_x1f s' m k j i = curl_x1 (B0 s) m j i)
  /\ (forall m k j i,
        b0_x2f s' m k j i = b0_x2f s m k j i
        \/ b0_x2f s' m k j i = curl_x2 (B0 s) m j i)
  /\ (forall m k j i,
        b0_x3f s' m k j i = b0_x3f s m k j i
        \/ b0_x3f s' m k j i = lit 0).

(** Cell [(m, k, j, i)] and its faces, upper ones included, hold the
    expected values in [s], for the [B0] of [s]. *)
Definition filled (m k j i : Z) (s : Mem) : Prop :=
  (forall n, IDN <= n <= IM3 -> u0 s m n k j i = conserved n m j i)
  /\ b0_x1f s m k j i = curl_x1 (B0 s) m j i
  /\ (i = ie cells -> b0_x1f s m k j (i + 1) = curl_x1 (B0 s) m j (i + 1))
  /\ b0_x2f s m k j i = curl_x2 (B0 s) m j i
  /\ (j = je cells -> b0_x2f s m k (j + 1) i = curl_x2 (B0 s) m (j + 1) i)
  /\ b0_x3f s m k j i = lit 0
  /\ (k = ke cells -> b0_x3f s m (k + 1) j i = lit 0).

(** [s'] is [s] except for the energy row of [u0]. *)
Definition same_but_energy (s s' : Mem) : Prop :=
  B0 s' = B0 s
  /\ (forall m n k j i, n <> IEN -> u0 s' m n k j i = u0 s m n k j i)
  /\ (forall m k j i, b0_x1f s' m k j i = b0_x1f s m k j i)
  /\ (forall m k j i, b0_x2f s' m k j i = b0_x2f s m k j i)
  /\ (forall m k j i, b0_x3f s' m k j i = b0_x3f s m k j i).

(** The total energy of cell [(m, k, j, i)] computed from the other
    variables of [s]: internal energy [p0/gm1], kinetic energy, and magnetic
    energy of the face fields averaged to the cell centre. *)
Definition total_energy (gm1 : Real) (s : Mem) (m k j i : Z) : Real :=
  (lit 5 / (lit 12 * M_PI) / gm1
   + (half / u0 s m IDN k j i)
     * (u0 s m IM1 k j i * u0 s m IM1 k j i
        + u0 s m IM2 k j i * u0 s m IM2 k j i
        + u0 s m IM3 k j i * u0 s m IM3 k j i)
   + half
     * ((half * (b0_x1f s m k j i + b0_x1f s m k j (i + 1)%Z))
        * (half * (b0_x1f s m k j i + b0_x1f s m k j (i + 1)%Z))
        + (half * (b0_x2f s m k j i + b0_x2f s m k (j + 1)%Z i))
          * (half * (b0_x2f s m k j i + b0_x2f s m k (j + 1)%Z i))
        + (half * (b0_x3f s m k j i + b0_x3f s m (k + 1)%Z j i))
          * (half * (b0_x3f s m k j i + b0_x3f s m (k + 1)%Z j i))))%real.

(** The energy row of cell [(m, k, j, i)] is consistent with the rest of [s]. *)
Definition has_energy (gm1 : Real) (m k j i : Z) (s : Mem) : Prop :=
  u0 s m IEN k j i = total_energy gm1 s m k j i.

(** Every cell with a consistent energy before has one after. *)
Definition keeps_energy (gm1 : Real) (s s' : Mem) : Prop :=
  forall m k j i, has_energy gm1 m k j i s -> has_energy gm1 m k j i s'.

End Expected.
End OrszagTangSpec.

(** ** Bounds on initialised particles *)
Module PartStaticTurbSpec.
Import PartStaticTurb.

(** [x <= y] on [Real]: both are numbers (not NaN) and compare so. *)
Definition Rle (x y : Real) : Prop := SFleb x y = true.

(** A block whose lower bounds do not exceed its upper bounds. *)
Definition ordered (b : RegionSize) : Prop :=
  Rle (x1min b) (x1max b) /\ Rle (x2min b) (x2max b) /\ Rle (x3min b) (x3max b).

Section Bounds.
Context {N : Numerics}.
Variable pmbp : MeshBlockPack.

(** Particle [p] of the arrays [pr], [pi] lies in a block of the pack, is of
    one of the [nspecies_] species, and is positioned inside its block. *)
Definition in_bounds (nspecies_ : Z) (pr : RealData) (pi : IntData) (p : Z) : Prop :=
  gids pmbp <= pi PGID p <= gids pmbp + nmb_thispack pmbp - 1
  /\ 0 <= pi PSP p <= nspecies_ - 1
  /\ (let parent := mb_size pmbp (pi PGID p - gids pmbp) in
      Rle (x1min parent) (pr IPX p) /\ Rle (pr IPX p) (x1max parent)
      /\ Rle (x2min parent) (pr IPY p) /\ Rle (pr IPY p) (x2max parent)
      /\ Rle (x3min parent) (pr IPZ p) /\ Rle (pr IPZ p) (x3max parent)).

(** Every particle in bounds before is in bounds after. *)
Definition keeps_bounds (nspecies_ : Z) (s s' : KState) : Prop :=
  forall p, in_bounds nspecies_ (pr s) (pi s) p -> in_bounds nspecies_ (pr s') (pi s') p.



End Bounds.
End PartStaticTurbSpec.

(** ** The region the Orszag-Tang generator writes *)
Module OrszagTangRegion.
Import OrszagTang.

Section Region.
Context {R : RealOps}.
Variable pmbp : MeshBlockPack.

Let cells := mb_cells pmbp.

(** Cell [(m, k, j, i)] is an active cell of a block of the pack. *)
Definition active (m k j i : Z) : Prop :=
  0 <= m <= nmb_thispack pmbp - 1
  /\ ks cells <= k <= ke cells
  /\ js cells <= j <= je cells
  /\ is_ cells <= i <= ie cells.

(** A face of an active cell along x1, x2, x3: the cell's own index or,
    for the last cell of a line, the one above it. *)
Definition x1_face_of_active (m k j i : Z) : Prop :=
  0 <= m <= nmb_thispack pmbp - 1 /\ ks cells <= k <= ke cells
  /\ js cells <= j <= je cells /\ is_ cells <= i <= ie cells + 1
  /\ is_ cells <= ie cells.

Definition x2_face_of_active (m k j i : Z) : Prop :=
  0 <= m <= nmb_thispack pmbp - 1 /\ ks cells <= k <= ke cells
  /\ js cells <= j <= je cells + 1 /\ is_ cells <= i <= ie cells
  /\ js cells <= je cells.

Definition x3_face_of_active (m k j i : Z) : Prop :=
  0 <= m <= nmb_thispack pmbp - 1 /\ ks cells <= k <= ke cells + 1
  /\ js cells <= j <= je cells /\ is_ cells <= i <= ie cells
  /\ ks cells <= ke cells.

(** [s'] is [s] outside the active cells and their faces (and outside the
    rows [IDN .. IEN] of [u0]). *)
Definition same_outside (s s' : Mem) : Prop :=
  (forall m n k j i,
      ~ (active m k j i /\ IDN <= n <= IEN) -> u0 s' m n k j i = u0 s m n k j i)
  /\ (forall m k j i,
        ~ x1_face_of_active m k j i -> b0_x1f s' m k j i = b0_x1f s m k j i)
  /\ (forall m k j i,
        ~ x2_face_of_active m k j i -> b0_x2f s' m k j i = b0_x2f s m k j i)
  /\ (forall m k j i,
        ~ x3_face_of_active m k j i -> b0_x3f s' m k j i = b0_x3f s m k j i).

End Region.
End OrszagTangRegion.

(** ** Exact real arithmetic for the Orszag-Tang generator

    [Real] read as the real numbers and its operations as the exact ones;
    the two grid-location functions stay arbitrary. *)
From Stdlib Require Reals.

Module ExactReals.
Import OrszagTang.

Definition real_ops
    (cell_centre left_edge : Z -> Z -> Rdefinitions.R -> Rdefinitions.R -> Rdefinitions.R)
    : RealOps :=
  {| Real := Rdefinitions.R;
     lit := Rdefinitions.IZR;
     half := Rdefinitions.Rinv (Rdefinitions.IZR 2);
     M_PI := Rtrigo1.PI;
     fadd := Rdefinitions.Rplus;
     fsub := Rdefinitions.Rminus;
     fmul := Rdefinitions.Rmult;
     fdiv := Rdefinitions.Rdiv;
     fneg := Rdefinitions.Ropp;
     fsqrt := R_sqrt.sqrt;
     fsin := Rtrigo_def.sin;
     fcos := Rtrigo_def.cos;
     CellCenterX := cell_centre;
     LeftEdgeX := left_edge |}.

(** A uniform grid on the unit square, one block of 4 x 4 cells. *)
Definition uniform_edge (ith n : Z) (xmin xmax : Rdefinitions.R) : Rdefinitions.R :=
  Rdefinitions.Rplus xmin
    (Rdefinitions.Rmult (Rdefinitions.IZR ith)
       (Rdefinitions.Rdiv (Rdefinitions.Rminus xmax xmin) (Rdefinitions.IZR n))).

Definition uniform_centre (ith n : Z) (xmin xmax : Rdefinitions.R) : Rdefinitions.R :=
  Rdefinitions.Rplus (uniform_edge ith n xmin xmax)
    (Rdefinitions.Rdiv (Rdefinitions.Rminus xmax xmin) (Rdefinitions.IZR (2 * n))).

Definition ops : RealOps := real_ops uniform_centre uniform_edge.

Definition quarter : Rdefinitions.R :=
  Rdefinitions.Rdiv (Rdefinitions.IZR 1) (Rdefinitions.IZR 4).

Definition pack : @MeshBlockPack ops :=
  @Build_MeshBlockPack ops
    (Some (Rdefinitions.Rdiv (Rdefinitions.IZR 5) (Rdefinitions.IZR 3)))
    {| nx1 := 4; nx2 := 4; is_ := 2; ie := 5; js := 2; je := 5; ks := 0; ke := 0 |}
    1
    (@Build_MeshBlockSize ops
       (fun _ => Rdefinitions.IZR 0) (fun _ => Rdefinitions.IZR 1)
       (fun _ => Rdefinitions.IZR 0) (fun _ => Rdefinitions.IZR 1)
       (fun _ => quarter) (fun _ => quarter)).

Definition zeroed : @Mem ops :=
  @mkMem ops (Rdefinitions.IZR 0)
    (fun _ _ _ _ _ => Rdefinitions.IZR 0)
    (fun _ _ _ _ => Rdefinitions.IZR 0)
    (fun _ _ _ _ => Rdefinitions.IZR 0)
    (fun _ _ _ _ => Rdefinitions.IZR 0).

End ExactReals.
(** ** Cells and values the rest of part_static_turb.cpp is expected to
       visit and to store *)
Module PartStaticTurbRestSpec.
Import PartStaticTurb PartStaticTurbRest.

Section Cells.
Variable indcs : GridIndices.
Variable nmb : Z.

(** Cell [(m, k, j, i)] is one of the [nx3 * nx2 * nx1] cells, counted from
    [(ks, js, is)], of one of the [nmb] blocks. *)
Definition counted_cell (m k j i : Z) : Prop :=
  0 <= m < nmb
  /\ ks indcs <= k < ks indcs + nx3 indcs
  /\ js indcs <= j < js indcs + nx2 indcs
  /\ is_ indcs <= i < is_ indcs + nx1 indcs.

(** The position of cell [(m, k, j, i)] when the cells are numbered block
    by block, plane by plane, row by row. *)
Definition linear_index (m k j i : Z) : Z :=
  ((m * nx3 indcs + (k - ks indcs)) * nx2 indcs + (j - js indcs)) * nx1 indcs
  + (i - is_ indcs).


End Cells.

Section Values.
Context {N : Numerics} {M : MoreNumerics}.







(** The species of particle [p] when the species are laid out in blocks of
    [npart_spec] particles and the surplus joins the last species. *)
Definition in_species_block (npart_spec nspecies_ : Z) (p spec : Z) : Prop :=
  spec * npart_spec <= p < (spec + 1) * npart_spec
  \/ (spec = nspecies_ - 1 /\ nspecies_ * npart_spec <= p).

(** The label of history column [n]: the four names in turn. *)
Definition history_label (n : Z) : string :=
  match n mod 4 with
  | 0 => "Dx^2"
  | 1 => "Dy^2"
  | 2 => "Dz^2"
  | _ => "Db^2"
  end.

End Values.
End PartStaticTurbRestSpec.
(** * Facts about index ranges and folds *)

Lemma in_range (lo hi x : Z) : In x (range lo hi) <-> lo <= x <= hi.
Proof.
  unfold range. rewrite in_map_iff. split.
  - intros (n & <- & Hn). apply in_seq in Hn. lia.
  - intros Hx. exists (Z.to_nat (x - lo)). split; [lia|].
    apply in_seq. lia.
Qed.

Lemma range_empty (lo hi : Z) : hi < lo -> range lo hi = [].
Proof.
  intros H. unfold range. replace (Z.to_nat (hi - lo + 1)) with 0%nat by lia.
  reflexivity.
Qed.

Lemma range_cons (lo hi : Z) : lo <= hi -> range lo hi = lo :: range (lo + 1) hi.
Proof.
  intros H. unfold range.
  replace (Z.to_nat (hi - lo + 1)) with (S (Z.to_nat (hi - (lo + 1) + 1))) by lia.
  cbn [seq map]. f_equal; [lia|].
  rewrite <- seq_shift, map_map. apply map_ext. intros n. lia.
Qed.

Section Folds.
Context {A X B : Type}.

(** A reading [g] of the state that no step changes is unchanged by a fold. *)
Lemma fold_left_keeps (g : A -> B) (f : A -> X -> A) (l : list X) :
  (forall a x, g (f a x) = g a) ->
  forall a, g (fold_left f l a) = g a.
Proof.
  intros Hstep. induction l as [|x l IH]; intros a; cbn; [reflexivity|].
  now rewrite IH, Hstep.
Qed.

End Folds.

(** A log to which every step appends is, after a fold, the old log followed
    by what the steps appended, in order. *)
Lemma fold_left_appends {A X E : Type} (log : A -> list E) (f : A -> X -> A)
    (ev : X -> list E) (l : list X) :
  (forall a x, log (f a x) = log a ++ ev x) ->
  forall a, log (fold_left f l a) = log a ++ flat_map ev l.
Proof.
  intros Hstep. induction l as [|x l IH]; intros a; cbn.
  - now rewrite app_nil_r.
  - now rewrite IH, Hstep, <- app_assoc.
Qed.

Lemma filter_flat_map {X E : Type} (p : E -> bool) (f : X -> list E) (l : list X) :
  filter p (flat_map f l) = flat_map (fun x => filter p (f x)) l.
Proof.
  induction l as [|x l IH]; cbn; [reflexivity|].
  now rewrite filter_app, IH.
Qed.

(** The parity test of the loop counter flips from one iteration to the
    next, for negative counters too ([Z.rem] truncates towards zero). *)
Lemma rem2_succ (j : Z) : (Z.rem (j + 1) 2 =? 0) = negb (Z.rem j 2 =? 0).
Proof.
  pose proof (Z.quot_rem' j 2) as E1.
  pose proof (Z.quot_rem' (j + 1) 2) as E2.
  pose proof (Z.rem_bound_abs j 2 ltac:(lia)) as B1.
  pose proof (Z.rem_bound_abs (j + 1) 2 ltac:(lia)) as B2.
  destruct (Z.rem (j + 1) 2 =? 0) eqn:H1, (Z.rem j 2 =? 0) eqn:H2; cbn; try reflexivity; lia.
Qed.

(** The test [(j%2) == 0] holds exactly for even [j]. *)
Lemma rem2_even (j : Z) : (Z.rem j 2 =? 0) = Z.even j.
Proof.
  pose proof (Z.quot_rem' j 2) as E1.
  pose proof (Z.rem_bound_abs j 2 ltac:(lia)) as B1.
  destruct (Z.even j) eqn:He.
  - apply Z.even_spec in He. destruct He as [q Hq]. apply Z.eqb_eq. lia.
  - apply Z.eqb_neq. intros H0. rewrite H0 in E1.
    assert (Z.even j = true) by (apply Z.even_spec; exists (Z.quot j 2); lia).
    congruence.
Qed.

Lemma flat_map_all_nil {X E : Type} (f : X -> list E) (l : list X) :
  (forall x, In x l -> f x = []) -> flat_map f l = [].
Proof.
  induction l as [|x l IH]; intros H; cbn; [reflexivity|].
  rewrite (H x) by now left. apply IH. intros y Hy. apply H. now right.
Qed.

Lemma flat_map_same_in {X E : Type} (f g : X -> list E) (l : list X) :
  (forall x, In x l -> f x = g x) -> flat_map f l = flat_map g l.
Proof.
  induction l as [|x l IH]; intros H; cbn; [reflexivity|].
  rewrite (H x) by now left. f_equal. apply IH. intros y Hy. apply H. now right.
Qed.

Lemma flat_map_nested {X Y E : Type} (g : Y -> list E) (f : X -> list Y) (l : list X) :
  flat_map g (flat_map f l) = flat_map (fun x => flat_map g (f x)) l.
Proof.
  induction l as [|x l IH]; cbn; [reflexivity|].
  now rewrite flat_map_app, IH.
Qed.

Section FoldRelations.
Context {S X : Type}.
Variable R : S -> S -> Prop.
Hypothesis R_refl : forall s, R s s.
Hypothesis R_trans : forall s1 s2 s3, R s1 s2 -> R s2 s3 -> R s1 s3.

(** Steps related by a preorder compose to a related fold. *)
Lemma fold_left_rel (f : S -> X -> S) (l : list X) :
  (forall s x, In x l -> R s (f s x)) ->
  forall s, R s (fold_left f l s).
Proof.
  induction l as [|x l IH]; intros Hstep s; cbn; [apply R_refl|].
  apply R_trans with (f s x); [apply Hstep; now left|].
  apply IH. intros s' y Hy. apply Hstep. now right.
Qed.

(** What a step establishes for its own element, and later steps cannot
    undo, holds at the end for every element met. *)
Lemma fold_left_reaches (G : X -> S -> Prop) (f : S -> X -> S) (l : list X) :
  (forall s x, In x l -> R s (f s x)) ->
  (forall s x, In x l -> G x (f s x)) ->
  (forall x s s', G x s -> R s s' -> G x s') ->
  forall s x, In x l -> G x (fold_left f l s).
Proof.
  induction l as [|y l IH]; intros Hrel Hest Hstable s x Hx; [destruct Hx|].
  cbn. destruct Hx as [->|Hx].
  - apply Hstable with (f s x); [apply Hest; now left|].
    apply fold_left_rel. intros s' z Hz. apply Hrel. now right.
  - apply IH; auto.
    + intros s' z Hz. apply Hrel. now right.
    + intros s' z Hz. apply Hest. now right.
Qed.

End FoldRelations.

(** * Properties of [MHDCalcFlux] *)

Module FluxTheory.
Import Flux FluxEvents.

Section Facts.
Context {K : Kernels}.
Variable pmhd : MHD.

(** ** The trace and the arrays across the elementary operations *)

Lemma trace_emit (e : Event) (w : World) : trace (emit e w) = trace w ++ [e].
Proof. reflexivity. Qed.

Lemma arrays_emit (e : Event) (w : World) : arrays (emit e w) = arrays w.
Proof. reflexivity. Qed.

Ltac by_selectors :=
  destruct (recon_method_ pmhd); destruct (rsolver_method_ pmhd);
  cbn; rewrite <- ?app_assoc; reflexivity.

Lemma trace_recon_switch {B} (eqb : B -> B -> bool) a m k j il iu o1 o2 o3 o4
    (t : Team B) :
  trace (world (recon_switch pmhd eqb a m k j il iu o1 o2 o3 o4 t))
  = trace (world t) ++ recon_events pmhd a m k j il iu.
Proof.
  unfold recon_switch, recon_events.
  destruct (recon_method_ pmhd); cbn; rewrite <- ?app_assoc, ?app_nil_r; reflexivity.
Qed.

Lemma arrays_recon_switch {B} (eqb : B -> B -> bool) a m k j il iu o1 o2 o3 o4
    (t : Team B) :
  arrays (world (recon_switch pmhd eqb a m k j il iu o1 o2 o3 o4 t))
  = arrays (world t).
Proof. unfold recon_switch. destruct (recon_method_ pmhd); reflexivity. Qed.

Lemma trace_rsolve_switch {B} m k j il iu ivx (i1 i2 i3 i4 : B) bx out
    (t : Team B) :
  trace (world (rsolve_switch pmhd m k j il iu ivx i1 i2 i3 i4 bx out t))
  = trace (world t) ++ solve_events pmhd m k j il iu ivx.
Proof.
  unfold rsolve_switch, solve_events.
  destruct (rsolver_method_ pmhd), out; cbn; rewrite ?app_nil_r; reflexivity.
Qed.

Lemma scratch_rsolve_switch {B} m k j il iu ivx (i1 i2 i3 i4 : B) bx out
    (t : Team B) :
  scratch (rsolve_switch pmhd m k j il iu ivx i1 i2 i3 i4 bx out t) = scratch t.
Proof. unfold rsolve_switch. destruct (rsolver_method_ pmhd); reflexivity. Qed.

Lemma others_rsolve_switch {B} m k j il iu ivx (i1 i2 i3 i4 : B) bx out
    (t : Team B) :
  other_arrays out (world (rsolve_switch pmhd m k j il iu ivx i1 i2 i3 i4 bx out t))
  = other_arrays out (world t).
Proof.
  unfold rsolve_switch. destruct (rsolver_method_ pmhd), out; reflexivity.
Qed.

(** With no case for the solver selector, the solve switch is the identity. *)
Lemma rsolve_switch_default {B} m k j il iu ivx (i1 i2 i3 i4 : B) bx out
    (t : Team B) :
  selected_solver (rsolver_method_ pmhd) = None ->
  rsolve_switch pmhd m k j il iu ivx i1 i2 i3 i4 bx out t = t.
Proof.
  unfold rsolve_switch. destruct (rsolver_method_ pmhd); cbn; congruence.
Qed.

(** With no case for the reconstruction selector, so is the reconstruction
    switch. *)
Lemma recon_switch_default {B} (eqb : B -> B -> bool) a m k j il iu o1 o2 o3 o4
    (t : Team B) :
  selected_scheme (recon_method_ pmhd) = None ->
  recon_switch pmhd eqb a m k j il iu o1 o2 o3 o4 t = t.
Proof.
  unfold recon_switch. destruct (recon_method_ pmhd); cbn; congruence.
Qed.

Lemma arrays_team_barrier {B} (t : Team B) :
  arrays (world (team_barrier t)) = arrays (world t).
Proof. reflexivity. Qed.

Lemma arrays_others (a : Axis) (w w' : World) :
  arrays w' = arrays w -> other_arrays a w' = other_arrays a w.
Proof.
  unfold arrays. intros [= H1 H2 H3 H4 H5 H6].
  destruct a; cbn; congruence.
Qed.

(** ** Dispatches in general *)

Lemma trace_par_for_outer3 name sz ml mu kl ku jl ju
    (u : Z -> Z -> Z -> World -> World) (ev : Z -> Z -> Z -> list Event) w :
  (forall m k j w, trace (u m k j w) = trace w ++ ev m k j) ->
  trace (par_for_outer3 name sz ml mu kl ku jl ju u w)
  = trace w ++ EvLaunch name sz
      :: flat_map (fun m =>
           flat_map (fun k => flat_map (fun j => ev m k j) (range jl ju))
                    (range kl ku))
           (range ml mu).
Proof.
  intros Hu. unfold par_for_outer3.
  rewrite (fold_left_appends trace _
             (fun m => flat_map (fun k => flat_map (fun j => ev m k j) (range jl ju))
                                (range kl ku))).
  - rewrite trace_emit, <- app_assoc. reflexivity.
  - intros w1 m.
    apply (fold_left_appends trace _ (fun k => flat_map (fun j => ev m k j) (range jl ju))).
    intros w2 k. apply (fold_left_appends trace _ (fun j => ev m k j)).
    intros w3 j. apply Hu.
Qed.

Lemma trace_par_for_outer2 name sz ml mu kl ku
    (u : Z -> Z -> World -> World) (ev : Z -> Z -> list Event) w :
  (forall m k w, trace (u m k w) = trace w ++ ev m k) ->
  trace (par_for_outer2 name sz ml mu kl ku u w)
  = trace w ++ EvLaunch name sz
      :: flat_map (fun m => flat_map (fun k => ev m k) (range kl ku)) (range ml mu).
Proof.
  intros Hu. unfold par_for_outer2.
  rewrite (fold_left_appends trace _ (fun m => flat_map (fun k => ev m k) (range kl ku))).
  - rewrite trace_emit, <- app_assoc. reflexivity.
  - intros w1 m. apply (fold_left_appends trace _ (fun k => ev m k)).
    intros w2 k. apply Hu.
Qed.

Lemma keeps_par_for_outer3 {T} (g : World -> T) name sz ml mu kl ku jl ju
    (u : Z -> Z -> Z -> World -> World) w :
  (forall e w, g (emit e w) = g w) ->
  (forall m k j w, g (u m k j w) = g w) ->
  g (par_for_outer3 name sz ml mu kl ku jl ju u w) = g w.
Proof.
  intros He Hu. unfold par_for_outer3.
  rewrite (fold_left_keeps g); [apply He|].
  intros w1 m. apply (fold_left_keeps g).
  intros w2 k. apply (fold_left_keeps g).
  intros w3 j. apply Hu.
Qed.

Lemma keeps_par_for_outer2 {T} (g : World -> T) name sz ml mu kl ku
    (u : Z -> Z -> World -> World) w :
  (forall e w, g (emit e w) = g w) ->
  (forall m k w, g (u m k w) = g w) ->
  g (par_for_outer2 name sz ml mu kl ku u w) = g w.
Proof.
  intros He Hu. unfold par_for_outer2.
  rewrite (fold_left_keeps g); [apply He|].
  intros w1 m. apply (fold_left_keeps g).
  intros w2 k. apply Hu.
Qed.

(** ** Readings of the expected traces *)

Lemma launches_app (t1 t2 : list Event) :
  launches (t1 ++ t2) = launches t1 ++ launches t2.
Proof. apply flat_map_app. Qed.

Lemma scratch_arrays_app (t1 t2 : list Event) :
  scratch_arrays (t1 ++ t2) = scratch_arrays t1 ++ scratch_arrays t2.
Proof. apply flat_map_app. Qed.

Lemma solver_calls_app (t1 t2 : list Event) :
  solver_calls (t1 ++ t2) = solver_calls t1 ++ solver_calls t2.
Proof. apply filter_app. Qed.

Lemma recon_calls_app (t1 t2 : list Event) :
  recon_calls (t1 ++ t2) = recon_calls t1 ++ recon_calls t2.
Proof. apply filter_app. Qed.

Lemma readings_recon_events a m k j il iu :
  launches (recon_events pmhd a m k j il iu) = []
  /\ scratch_arrays (recon_events pmhd a m k j il iu) = []
  /\ solver_calls (recon_events pmhd a m k j il iu) = []
  /\ recon_calls (recon_events pmhd a m k j il iu) = recon_events pmhd a m k j il iu.
Proof.
  unfold recon_events. destruct (selected_scheme (recon_method_ pmhd)); cbn; auto.
Qed.

Lemma readings_solve_events m k j il iu ivx :
  launches (solve_events pmhd m k j il iu ivx) = []
  /\ scratch_arrays (solve_events pmhd m k j il iu ivx) = []
  /\ recon_calls (solve_events pmhd m k j il iu ivx) = []
  /\ solver_calls (solve_events pmhd m k j il iu ivx) = solve_events pmhd m k j il iu ivx.
Proof.
  unfold solve_events. destruct (selected_solver (rsolver_method_ pmhd)); cbn; auto.
Qed.

(** Rewriting a reading of a concatenation of known pieces. *)
Ltac read_events :=
  repeat first
    [ rewrite launches_app | rewrite scratch_arrays_app
    | rewrite solver_calls_app | rewrite recon_calls_app
    | rewrite (proj1 (readings_recon_events _ _ _ _ _ _))
    | rewrite (proj1 (proj2 (readings_recon_events _ _ _ _ _ _)))
    | rewrite (proj1 (proj2 (proj2 (readings_recon_events _ _ _ _ _ _))))
    | rewrite (proj2 (proj2 (proj2 (readings_recon_events _ _ _ _ _ _))))
    | rewrite (proj1 (readings_solve_events _ _ _ _ _ _))
    | rewrite (proj1 (proj2 (readings_solve_events _ _ _ _ _ _)))
    | rewrite (proj1 (proj2 (proj2 (readings_solve_events _ _ _ _ _ _))))
    | rewrite (proj2 (proj2 (proj2 (readings_solve_events _ _ _ _ _ _)))) ];
  cbn [launches scratch_arrays solver_calls recon_calls flat_map filter
       is_solve is_recon app].

(** ** Direction 1 *)

Section Sweeps.
Variables nvars ncells1 : Z.

Lemma trace_flux_x1_unit m k j w :
  trace (flux_x1_unit pmhd nvars ncells1 m k j w)
  = trace w ++ x1_unit_events pmhd nvars ncells1 m k j.
Proof.
  unfold flux_x1_unit, x1_unit_events.
  rewrite trace_rsolve_switch. unfold team_barrier, team_emit. cbn [world].
  rewrite trace_emit, trace_recon_switch. cbn [world].
  rewrite !trace_emit, <- !app_assoc. reflexivity.
Qed.

Lemma others_flux_x1_unit m k j w :
  other_arrays X1 (flux_x1_unit pmhd nvars ncells1 m k j w) = other_arrays X1 w.
Proof.
  unfold flux_x1_unit. rewrite others_rsolve_switch.
  apply arrays_others. unfold team_barrier, team_emit. cbn [world].
  rewrite arrays_emit, arrays_recon_switch. reflexivity.
Qed.

Lemma arrays_flux_x1_unit_default m k j w :
  selected_solver (rsolver_method_ pmhd) = None ->
  arrays (flux_x1_unit pmhd nvars ncells1 m k j w) = arrays w.
Proof.
  intros Hd. unfold flux_x1_unit. rewrite rsolve_switch_default by exact Hd.
  unfold team_barrier, team_emit. cbn [world].
  rewrite arrays_emit, arrays_recon_switch. reflexivity.
Qed.

(** ** Directions 2 and 3: one iteration *)

Lemma trace_flux2_step m k j (t : Team ScrBuf) :
  trace (world (flux2_step pmhd m k j t))
  = trace (world t) ++ x2_step_events pmhd m k j.
Proof.
  unfold flux2_step, flux2_solve, flux2_recon, x2_step_events.
  unfold team_barrier, team_emit.
  destruct (j >? js (mb_cells (pmy_pack pmhd)) - 1);
    rewrite ?trace_rsolve_switch; cbn [world];
    rewrite trace_emit, trace_recon_switch, <- ?app_assoc, ?app_nil_r; reflexivity.
Qed.

Lemma trace_flux3_step m j k (t : Team ScrBuf) :
  trace (world (flux3_step pmhd m j k t))
  = trace (world t) ++ x3_step_events pmhd m j k.
Proof.
  unfold flux3_step, flux3_solve, flux3_recon, x3_step_events.
  unfold team_barrier, team_emit.
  destruct (k >? ks (mb_cells (pmy_pack pmhd)) - 1); cbn [world];
    rewrite ?trace_emit, ?trace_rsolve_switch; cbn [world];
    rewrite ?trace_emit, trace_recon_switch, <- ?app_assoc, ?app_nil_r; reflexivity.
Qed.

Lemma others_flux2_step m k j (t : Team ScrBuf) :
  other_arrays X2 (world (flux2_step pmhd m k j t)) = other_arrays X2 (world t).
Proof.
  unfold flux2_step, flux2_solve, flux2_recon, team_barrier, team_emit.
  destruct (j >? js (mb_cells (pmy_pack pmhd)) - 1);
    rewrite ?others_rsolve_switch; cbn [world];
    apply arrays_others; rewrite arrays_emit, arrays_recon_switch; reflexivity.
Qed.

Lemma others_flux3_step m j k (t : Team ScrBuf) :
  other_arrays X3 (world (flux3_step pmhd m j k t)) = other_arrays X3 (world t).
Proof.
  unfold flux3_step, flux3_solve, flux3_recon.
  destruct (k >? ks (mb_cells (pmy_pack pmhd)) - 1).
  - rewrite (arrays_others X3 _ _ (arrays_team_barrier _)), others_rsolve_switch.
    apply arrays_others. now rewrite arrays_team_barrier, arrays_recon_switch.
  - apply arrays_others. now rewrite arrays_team_barrier, arrays_recon_switch.
Qed.

(** An iteration whose solve is guarded out, or whose solver selector has
    no case, writes no output array at all. *)
Lemma arrays_flux2_step_idle m k j (t : Team ScrBuf) :
  j <= js (mb_cells (pmy_pack pmhd)) - 1
  \/ selected_solver (rsolver_method_ pmhd) = None ->
  arrays (world (flux2_step pmhd m k j t)) = arrays (world t).
Proof.
  intros H. unfold flux2_step, flux2_solve, flux2_recon, team_barrier, team_emit.
  destruct (j >? js (mb_cells (pmy_pack pmhd)) - 1) eqn:G.
  - destruct H as [H|H]; [lia|]. rewrite rsolve_switch_default by exact H.
    cbn [world]. now rewrite arrays_emit, arrays_recon_switch.
  - cbn [world]. now rewrite arrays_emit, arrays_recon_switch.
Qed.

Lemma arrays_flux3_step_idle m j k (t : Team ScrBuf) :
  k <= ks (mb_cells (pmy_pack pmhd)) - 1
  \/ selected_solver (rsolver_method_ pmhd) = None ->
  arrays (world (flux3_step pmhd m j k t)) = arrays (world t).
Proof.
  intros H. unfold flux3_step, flux3_solve, flux3_recon, team_barrier, team_emit.
  destruct (k >? ks (mb_cells (pmy_pack pmhd)) - 1) eqn:G.
  - destruct H as [H|H]; [lia|]. rewrite rsolve_switch_default by exact H.
    cbn [world]. now rewrite !arrays_emit, arrays_recon_switch.
  - cbn [world]. now rewrite arrays_emit, arrays_recon_switch.
Qed.

(** ** Directions 2 and 3: loops and units *)

Lemma flux2_loop_unroll m k j (t : Team ScrBuf) :
  j <= je (mb_cells (pmy_pack pmhd)) + 1 ->
  flux2_loop pmhd m k j t = flux2_loop pmhd m k (j + 1) (flux2_step pmhd m k j t).
Proof. intros H. unfold flux2_loop. now rewrite (range_cons j) by lia. Qed.

Lemma flux3_loop_unroll m j k (t : Team ScrBuf) :
  k <= ke (mb_cells (pmy_pack pmhd)) + 1 ->
  flux3_loop pmhd m j k t = flux3_loop pmhd m j (k + 1) (flux3_step pmhd m j k t).
Proof. intros H. unfold flux3_loop. now rewrite (range_cons k) by lia. Qed.

Lemma trace_flux2_unit m k w :
  trace (flux2_unit pmhd nvars ncells1 m k w)
  = trace w ++ x2_unit_events pmhd nvars ncells1 m k.
Proof.
  unfold flux2_unit, flux2_loop, x2_unit_events.
  rewrite (fold_left_appends (fun t => trace (world t)) _ (x2_step_events pmhd m k))
    by (intros; apply trace_flux2_step).
  unfold six_scratch, six_scratch_events. cbn [world].
  rewrite !trace_emit, <- !app_assoc. reflexivity.
Qed.

Lemma trace_flux3_unit m j w :
  trace (flux3_unit pmhd nvars ncells1 m j w)
  = trace w ++ x3_unit_events pmhd nvars ncells1 m j.
Proof.
  unfold flux3_unit, flux3_loop, x3_unit_events.
  rewrite (fold_left_appends (fun t => trace (world t)) _ (x3_step_events pmhd m j))
    by (intros; apply trace_flux3_step).
  unfold six_scratch, six_scratch_events. cbn [world].
  rewrite !trace_emit, <- !app_assoc. reflexivity.
Qed.

Lemma others_flux2_unit m k w :
  other_arrays X2 (flux2_unit pmhd nvars ncells1 m k w) = other_arrays X2 w.
Proof.
  unfold flux2_unit, flux2_loop.
  rewrite (fold_left_keeps (fun t => other_arrays X2 (world t)))
    by (intros; apply others_flux2_step).
  reflexivity.
Qed.

Lemma others_flux3_unit m j w :
  other_arrays X3 (flux3_unit pmhd nvars ncells1 m j w) = other_arrays X3 w.
Proof.
  unfold flux3_unit, flux3_loop.
  rewrite (fold_left_keeps (fun t => other_arrays X3 (world t)))
    by (intros; apply others_flux3_step).
  reflexivity.
Qed.

Lemma arrays_flux2_unit_default m k w :
  selected_solver (rsolver_method_ pmhd) = None ->
  arrays (flux2_unit pmhd nvars ncells1 m k w) = arrays w.
Proof.
  intros Hd. unfold flux2_unit, flux2_loop.
  rewrite (fold_left_keeps (fun t => arrays (world t)))
    by (intros; apply arrays_flux2_step_idle; now right).
  reflexivity.
Qed.

Lemma arrays_flux3_unit_default m j w :
  selected_solver (rsolver_method_ pmhd) = None ->
  arrays (flux3_unit pmhd nvars ncells1 m j w) = arrays w.
Proof.
  intros Hd. unfold flux3_unit, flux3_loop.
  rewrite (fold_left_keeps (fun t => arrays (world t)))
    by (intros; apply arrays_flux3_step_idle; now right).
  reflexivity.
Qed.

(** ** The three dispatches *)

Lemma trace_sweep_x1 w :
  trace (sweep_x1 pmhd nvars ncells1 w)
  = trace w ++ x1_sweep_events pmhd nvars ncells1.
Proof. apply trace_par_for_outer3. intros. apply trace_flux_x1_unit. Qed.

Lemma trace_sweep_x2 w :
  trace (sweep_x2 pmhd nvars ncells1 w)
  = trace w ++ x2_sweep_events pmhd nvars ncells1.
Proof. apply trace_par_for_outer2. intros. apply trace_flux2_unit. Qed.

Lemma trace_sweep_x3 w :
  trace (sweep_x3 pmhd nvars ncells1 w)
  = trace w ++ x3_sweep_events pmhd nvars ncells1.
Proof. apply trace_par_for_outer2. intros. apply trace_flux3_unit. Qed.

Lemma others_sweep_x1 w :
  other_arrays X1 (sweep_x1 pmhd nvars ncells1 w) = other_arrays X1 w.
Proof. apply keeps_par_for_outer3; [reflexivity|]. intros. apply others_flux_x1_unit. Qed.

Lemma others_sweep_x2 w :
  other_arrays X2 (sweep_x2 pmhd nvars ncells1 w) = other_arrays X2 w.
Proof. apply keeps_par_for_outer2; [reflexivity|]. intros. apply others_flux2_unit. Qed.

Lemma others_sweep_x3 w :
  other_arrays X3 (sweep_x3 pmhd nvars ncells1 w) = other_arrays X3 w.
Proof. apply keeps_par_for_outer2; [reflexivity|]. intros. apply others_flux3_unit. Qed.

Lemma arrays_sweep_x1_default w :
  selected_solver (rsolver_method_ pmhd) = None ->
  arrays (sweep_x1 pmhd nvars ncells1 w) = arrays w.
Proof.
  intros Hd. apply keeps_par_for_outer3; [reflexivity|].
  intros. now apply arrays_flux_x1_unit_default.
Qed.

Lemma arrays_sweep_x2_default w :
  selected_solver (rsolver_method_ pmhd) = None ->
  arrays (sweep_x2 pmhd nvars ncells1 w) = arrays w.
Proof.
  intros Hd. apply keeps_par_for_outer2; [reflexivity|].
  intros. now apply arrays_flux2_unit_default.
Qed.

Lemma arrays_sweep_x3_default w :
  selected_solver (rsolver_method_ pmhd) = None ->
  arrays (sweep_x3 pmhd nvars ncells1 w) = arrays w.
Proof.
  intros Hd. apply keeps_par_for_outer2; [reflexivity|].
  intros. now apply arrays_flux3_unit_default.
Qed.

(** ** Readings of the expected unit and sweep traces *)

Lemma readings_x1_unit_events m k j :
  launches (x1_unit_events pmhd nvars ncells1 m k j) = []
  /\ scratch_arrays (x1_unit_events pmhd nvars ncells1 m k j)
     = [(nvars, ncells1); (nvars, ncells1); (3, ncells1); (3, ncells1)].
Proof. unfold x1_unit_events. split; read_events; reflexivity. Qed.

Lemma readings_x2_step_events m k j :
  launches (x2_step_events pmhd m k j) = []
  /\ scratch_arrays (x2_step_events pmhd m k j) = [].
Proof.
  unfold x2_step_events.
  destruct (j >? js (mb_cells (pmy_pack pmhd)) - 1); split; read_events; reflexivity.
Qed.

Lemma readings_x3_step_events m j k :
  launches (x3_step_events pmhd m j k) = []
  /\ scratch_arrays (x3_step_events pmhd m j k) = [].
Proof.
  unfold x3_step_events.
  destruct (k >? ks (mb_cells (pmy_pack pmhd)) - 1); split; read_events; reflexivity.
Qed.

Lemma launches_flat_map {X} (f : X -> list Event) (l : list X) :
  launches (flat_map f l) = flat_map (fun x => launches (f x)) l.
Proof. apply flat_map_nested. Qed.

Lemma scratch_arrays_flat_map {X} (f : X -> list Event) (l : list X) :
  scratch_arrays (flat_map f l) = flat_map (fun x => scratch_arrays (f x)) l.
Proof. apply flat_map_nested. Qed.

Lemma readings_x2_unit_events m k :
  launches (x2_unit_events pmhd nvars ncells1 m k) = []
  /\ scratch_arrays (x2_unit_events pmhd nvars ncells1 m k)
     = [(nvars, ncells1); (nvars, ncells1); (nvars, ncells1);
        (3, ncells1); (3, ncells1); (3, ncells1)].
Proof.
  unfold x2_unit_events, six_scratch_events. split; read_events.
  - rewrite launches_flat_map. apply flat_map_all_nil.
    intros j _. apply readings_x2_step_events.
  - rewrite scratch_arrays_flat_map, flat_map_all_nil; [reflexivity|].
    intros j _. apply readings_x2_step_events.
Qed.

Lemma readings_x3_unit_events m j :
  launches (x3_unit_events pmhd nvars ncells1 m j) = []
  /\ scratch_arrays (x3_unit_events pmhd nvars ncells1 m j)
     = [(nvars, ncells1); (nvars, ncells1); (nvars, ncells1);
        (3, ncells1); (3, ncells1); (3, ncells1)].
Proof.
  unfold x3_unit_events, six_scratch_events. split; read_events.
  - rewrite launches_flat_map. apply flat_map_all_nil.
    intros k _. apply readings_x3_step_events.
  - rewrite scratch_arrays_flat_map, flat_map_all_nil; [reflexivity|].
    intros k _. apply readings_x3_step_events.
Qed.

Lemma launches_x1_sweep_events :
  launches (x1_sweep_events pmhd nvars ncells1)
  = [("mhd_flux_x1"%string, scr_size_for nvars ncells1 2)].
Proof.
  unfold x1_sweep_events. cbn [launches flat_map app]. f_equal.
  fold (launches). rewrite launches_flat_map. apply flat_map_all_nil. intros m _.
  rewrite launches_flat_map. apply flat_map_all_nil. intros k _.
  rewrite launches_flat_map. apply flat_map_all_nil. intros j _.
  apply readings_x1_unit_events.
Qed.

Lemma launches_x2_sweep_events :
  launches (x2_sweep_events pmhd nvars ncells1)
  = [("mhd_flux2"%string, scr_size_for nvars ncells1 3)].
Proof.
  unfold x2_sweep_events. cbn [launches flat_map app]. f_equal.
  fold (launches). rewrite launches_flat_map. apply flat_map_all_nil. intros m _.
  rewrite launches_flat_map. apply flat_map_all_nil. intros k _.
  apply readings_x2_unit_events.
Qed.

Lemma launches_x3_sweep_events :
  launches (x3_sweep_events pmhd nvars ncells1)
  = [("divflux_x3"%string, scr_size_for nvars ncells1 3)].
Proof.
  unfold x3_sweep_events. cbn [launches flat_map app]. f_equal.
  fold (launches). rewrite launches_flat_map. apply flat_map_all_nil. intros m _.
  rewrite launches_flat_map. apply flat_map_all_nil. intros j _.
  apply readings_x3_unit_events.
Qed.

End Sweeps.

(** ** The whole invocation *)

Lemma MHDCalcFlux_paths nmhd_local w :
  MHDCalcFlux pmhd nmhd_local w
  = (complete,
     let nvars := nvars_of pmhd nmhd_local in
     let ncells1 := ncells1_of pmhd in
     if nx2gt1 (pmy_pack pmhd)
     then if nx3gt1 (pmy_pack pmhd)
          then sweep_x3 pmhd nvars ncells1
                 (sweep_x2 pmhd nvars ncells1 (sweep_x1 pmhd nvars ncells1 w))
          else sweep_x2 pmhd nvars ncells1 (sweep_x1 pmhd nvars ncells1 w)
     else sweep_x1 pmhd nvars ncells1 w).
Proof.
  unfold MHDCalcFlux.
  destruct (nx2gt1 (pmy_pack pmhd)), (nx3gt1 (pmy_pack pmhd)); reflexivity.
Qed.

Lemma trace_MHDCalcFlux nmhd_local w :
  trace (snd (MHDCalcFlux pmhd nmhd_local w))
  = trace w ++ MHDCalcFlux_events pmhd nmhd_local.
Proof.
  rewrite MHDCalcFlux_paths. unfold MHDCalcFlux_events. cbn [snd].
  destruct (nx2gt1 (pmy_pack pmhd)), (nx3gt1 (pmy_pack pmhd));
    rewrite ?trace_sweep_x3, ?trace_sweep_x2, ?trace_sweep_x1, <- ?app_assoc, ?app_nil_r;
    reflexivity.
Qed.

Lemma arrays_MHDCalcFlux_default nmhd_local w :
  selected_solver (rsolver_method_ pmhd) = None ->
  arrays (snd (MHDCalcFlux pmhd nmhd_local w)) = arrays w.
Proof.
  intros Hd. rewrite MHDCalcFlux_paths. cbn [snd].
  destruct (nx2gt1 (pmy_pack pmhd)), (nx3gt1 (pmy_pack pmhd));
    rewrite ?arrays_sweep_x3_default, ?arrays_sweep_x2_default,
            ?arrays_sweep_x1_default by exact Hd;
    reflexivity.
Qed.

(** ** The ping-pong buffers *)

(** No reconstruction call writes a buffer other than its two outputs, and
    the solve writes no scratch buffer. *)
Lemma scratch_call_recon {B} (eqb : B -> B -> bool) s a m k j il iu qf q ql qr
    (t : Team B) (b : B) :
  eqb b ql = false -> eqb b qr = false ->
  scratch (call_recon eqb s a m k j il iu qf q ql qr t) b = scratch t b.
Proof. intros H1 H2. unfold call_recon, write. cbn. now rewrite H1, H2. Qed.

Lemma scratch_recon_switch {B} (eqb : B -> B -> bool) a m k j il iu o1 o2 o3 o4
    (t : Team B) (b : B) :
  eqb b o1 = false -> eqb b o2 = false -> eqb b o3 = false -> eqb b o4 = false ->
  scratch (recon_switch pmhd eqb a m k j il iu o1 o2 o3 o4 t) b = scratch t b.
Proof.
  intros H1 H2 H3 H4. unfold recon_switch.
  destruct (recon_method_ pmhd); rewrite ?scratch_call_recon by assumption;
    reflexivity.
Qed.

Lemma scratch_flux2_solve m k j (t : Team ScrBuf) :
  scratch (flux2_solve pmhd m k j t) = scratch t.
Proof.
  unfold flux2_solve. destruct (j >? _); [apply scratch_rsolve_switch|reflexivity].
Qed.

Lemma scratch_flux3_solve m j k (t : Team ScrBuf) :
  scratch (flux3_solve pmhd m j k t) = scratch t.
Proof.
  unfold flux3_solve. destruct (k >? _); [|reflexivity].
  unfold team_barrier, team_emit. cbn [scratch]. apply scratch_rsolve_switch.
Qed.

Lemma permute_succ (n : Z) :
  wl (permute (n + 1)) = wl_jp1 (permute n)
  /\ bl (permute (n + 1)) = bl_jp1 (permute n).
Proof.
  unfold permute. rewrite rem2_succ. destruct (Z.rem n 2 =? 0); cbn; auto.
Qed.

(** The left inputs of an iteration are not among the outputs of its own
    reconstruction. *)
Lemma left_not_written (n : Z) :
  let p := permute n in
  ScrBuf_eqb (wl p) (wl_jp1 p) = false /\ ScrBuf_eqb (wl p) (wr p) = false
  /\ ScrBuf_eqb (wl p) (bl_jp1 p) = false /\ ScrBuf_eqb (wl p) (br p) = false
  /\ ScrBuf_eqb (bl p) (wl_jp1 p) = false /\ ScrBuf_eqb (bl p) (wr p) = false
  /\ ScrBuf_eqb (bl p) (bl_jp1 p) = false /\ ScrBuf_eqb (bl p) (br p) = false.
Proof. unfold permute. destruct (Z.rem n 2 =? 0); cbn; repeat split. Qed.

Lemma left_survives_flux2_recon m k j (t : Team ScrBuf) (b : ScrBuf) :
  b = wl (permute j) \/ b = bl (permute j) ->
  scratch (flux2_recon pmhd m k j t) b = scratch t b.
Proof.
  destruct (left_not_written j) as (W1 & W2 & W3 & W4 & B1 & B2 & B3 & B4).
  intros [-> | ->]; unfold flux2_recon, team_barrier, team_emit; cbn [scratch];
    now rewrite scratch_recon_switch.
Qed.

Lemma left_survives_flux3_recon m j k (t : Team ScrBuf) (b : ScrBuf) :
  b = wl (permute k) \/ b = bl (permute k) ->
  scratch (flux3_recon pmhd m j k t) b = scratch t b.
Proof.
  destruct (left_not_written k) as (W1 & W2 & W3 & W4 & B1 & B2 & B3 & B4).
  intros [-> | ->]; unfold flux3_recon, team_barrier, team_emit, wl_kp1, bl_kp1;
    cbn [scratch]; now rewrite scratch_recon_switch.
Qed.

(** Right after the reconstruction of an iteration, the next-arrays hold
    the first output of the selected reconstruction function. *)
Lemma next_is_reconstructed (m a n : Z) (t : Team ScrBuf) (s : Scheme) :
  selected_scheme (recon_method_ pmhd) = Some s ->
  scratch (flux2_recon pmhd m a n t) (wl_jp1 (permute n))
    = fst (reconstruct s X2 m a n (is_ (mb_cells (pmy_pack pmhd)) - 1)
             (ie (mb_cells (pmy_pack pmhd)) + 1) (w0 pmhd)
             (scratch t (wl_jp1 (permute n))) (scratch t (wr (permute n))))
  /\ scratch (flux2_recon pmhd m a n t) (bl_jp1 (permute n))
    = fst (reconstruct s X2 m a n (is_ (mb_cells (pmy_pack pmhd)) - 1)
             (ie (mb_cells (pmy_pack pmhd)) + 1) (bcc0 pmhd)
             (scratch t (bl_jp1 (permute n))) (scratch t (br (permute n))))
  /\ scratch (flux3_recon pmhd m a n t) (wl_kp1 (permute n))
    = fst (reconstruct s X3 m n a (is_ (mb_cells (pmy_pack pmhd)) - 1)
             (ie (mb_cells (pmy_pack pmhd)) + 1) (w0 pmhd)
             (scratch t (wl_kp1 (permute n))) (scratch t (wr (permute n))))
  /\ scratch (flux3_recon pmhd m a n t) (bl_kp1 (permute n))
    = fst (reconstruct s X3 m n a (is_ (mb_cells (pmy_pack pmhd)) - 1)
             (ie (mb_cells (pmy_pack pmhd)) + 1) (bcc0 pmhd)
             (scratch t (bl_kp1 (permute n))) (scratch t (br (permute n)))).
Proof.
  intros Hs. unfold flux2_recon, flux3_recon, recon_switch, wl_kp1, bl_kp1, permute.
  destruct (recon_method_ pmhd); cbn in Hs; inversion Hs; subst s;
    destruct (Z.rem n 2 =? 0); cbn; repeat split.
Qed.

(** C1.  Ping-pong buffers of the direction-2 and direction-3 loops.  For
    every loop counter [n] (so in particular for every [j] in [js-1, je+1]
    and every [k] in [ks-1, ke+1]): (1) the six locals are bound to the six
    scratch arrays according to the parity of [n] alone; (2) the array bound
    to the "next" local [wl_jp1]/[wl_kp1] (resp. [bl_jp1]/[bl_kp1]) at step
    [n] is the array bound to the "left" local [wl] (resp. [bl]) at step
    [n+1]; (3) whatever the team state [t] an iteration [n] starts in, the
    contents of the left arrays at the moment iteration [n+1] solves are
    exactly the contents the next-arrays had right after the reconstruction
    of iteration [n]: nothing in between writes them; (4) and those contents
    are the left-state output of the selected reconstruction function, called
    on W resp. Bcc at step [n]. *)
Theorem C1_ping_pong_left_is_previous_next (m a n : Z) (t : Team ScrBuf) :
  (permute n = if Z.even n
               then mkRoles scr2 scr1 scr3 scr5 scr4 scr6
               else mkRoles scr1 scr2 scr3 scr4 scr5 scr6)
  /\ (wl (permute (n + 1)) = wl_jp1 (permute n)
      /\ bl (permute (n + 1)) = bl_jp1 (permute n))
  /\ (let reconstructed := flux2_recon pmhd m a n t in
      let solving := flux2_recon pmhd m a (n + 1) (flux2_step pmhd m a n t) in
      scratch solving (wl (permute (n + 1)))
        = scratch reconstructed (wl_jp1 (permute n))
      /\ scratch solving (bl (permute (n + 1)))
        = scratch reconstructed (bl_jp1 (permute n)))
  /\ (let reconstructed := flux3_recon pmhd m a n t in
      let solving := flux3_recon pmhd m a (n + 1) (flux3_step pmhd m a n t) in
      scratch solving (wl (permute (n + 1)))
        = scratch reconstructed (wl_kp1 (permute n))
      /\ scratch solving (bl (permute (n + 1)))
        = scratch reconstructed (bl_kp1 (permute n)))
  /\ (forall s, selected_scheme (recon_method_ pmhd) = Some s ->
      let c := mb_cells (pmy_pack pmhd) in
      let p := permute n in
      scratch (flux2_recon pmhd m a n t) (wl_jp1 p)
        = fst (reconstruct s X2 m a n (is_ c - 1) (ie c + 1) (w0 pmhd)
                 (scratch t (wl_jp1 p)) (scratch t (wr p)))
      /\ scratch (flux2_recon pmhd m a n t) (bl_jp1 p)
        = fst (reconstruct s X2 m a n (is_ c - 1) (ie c + 1) (bcc0 pmhd)
                 (scratch t (bl_jp1 p)) (scratch t (br p)))
      /\ scratch (flux3_recon pmhd m a n t) (wl_kp1 p)
        = fst (reconstruct s X3 m n a (is_ c - 1) (ie c + 1) (w0 pmhd)
                 (scratch t (wl_kp1 p)) (scratch t (wr p)))
      /\ scratch (flux3_recon pmhd m a n t) (bl_kp1 p)
        = fst (reconstruct s X3 m n a (is_ c - 1) (ie c + 1) (bcc0 pmhd)
                 (scratch t (bl_kp1 p)) (scratch t (br p)))).
Proof.
  split; [unfold permute; rewrite rem2_even; destruct (Z.even n); reflexivity|].
  split; [apply permute_succ|].
  destruct (permute_succ n) as [Ew Eb].
  split; [|split]; cbv zeta.
  - rewrite (left_survives_flux2_recon m a (n + 1) _ (wl (permute (n + 1)))) by auto.
    rewrite (left_survives_flux2_recon m a (n + 1) _ (bl (permute (n + 1)))) by auto.
    unfold flux2_step.
    rewrite scratch_flux2_solve, Ew, Eb. split; reflexivity.
  - rewrite (left_survives_flux3_recon m a (n + 1) _ (wl (permute (n + 1)))) by auto.
    rewrite (left_survives_flux3_recon m a (n + 1) _ (bl (permute (n + 1)))) by auto.
    unfold flux3_step, wl_kp1, bl_kp1.
    rewrite scratch_flux3_solve, Ew, Eb. split; reflexivity.
  - intros s Hs. now apply next_is_reconstructed.
Qed.

(** ** The solve guard *)

Lemma solver_calls_x2_step m k j :
  solver_calls (x2_step_events pmhd m k j)
  = if j >? js (mb_cells (pmy_pack pmhd)) - 1
    then solve_events pmhd m k j (is_ (mb_cells (pmy_pack pmhd)) - 1)
           (ie (mb_cells (pmy_pack pmhd)) + 1) IVY
    else [].
Proof.
  unfold x2_step_events.
  destruct (j >? js (mb_cells (pmy_pack pmhd)) - 1); read_events;
    rewrite ?app_nil_r; reflexivity.
Qed.

Lemma solver_calls_x3_step m j k :
  solver_calls (x3_step_events pmhd m j k)
  = if k >? ks (mb_cells (pmy_pack pmhd)) - 1
    then solve_events pmhd m k j (is_ (mb_cells (pmy_pack pmhd)) - 1)
           (ie (mb_cells (pmy_pack pmhd)) + 1) IVZ
    else [].
Proof.
  unfold x3_step_events.
  destruct (k >? ks (mb_cells (pmy_pack pmhd)) - 1); read_events;
    rewrite ?app_nil_r; reflexivity.
Qed.

(** Over a loop from [s-1] to [e+1], steps that contribute [f n] when
    [n > s-1] and nothing otherwise contribute [f] over [s .. e+1]. *)
Lemma guarded_steps (f : Z -> list Event) (s e : Z) :
  flat_map (fun n => if n >? s - 1 then f n else []) (range (s - 1) (e + 1))
  = flat_map f (range s (e + 1)).
Proof.
  destruct (Z_lt_le_dec (e + 1) (s - 1)) as [Hlt|Hle].
  - rewrite (range_empty (s - 1)), (range_empty s) by lia. reflexivity.
  - rewrite (range_cons (s - 1)) by lia. cbn [flat_map].
    replace (s - 1 >? s - 1) with false by lia.
    replace (s - 1 + 1) with s by lia. cbn [app].
    apply flat_map_same_in. intros n Hn. apply in_range in Hn.
    now replace (n >? s - 1) with true by lia.
Qed.

(** C2.  In the direction-2 sweep (and likewise in the direction-3 sweep,
    with [k] and [ks] for [j] and [js]): the first iteration, [j = js-1],
    consists of the reconstruction calls and the barrier only, calls no
    Riemann solver and writes no flux or EMF array; every later iteration
    [j > js-1] runs the solve switch after reconstruction and barrier, that
    is, it calls the selected solver once with this [j] (a selector with no
    case selects no solver, see C4); and over the whole loop of a unit the
    solver calls are exactly those of [j = js, ..., je+1], in this order. *)
Theorem C2_first_iteration_primes_only (nvars ncells1 m a : Z)
    (t : Team ScrBuf) (w : World) :
  let c := mb_cells (pmy_pack pmhd) in
  (* direction 2 *)
  (trace (world (flux2_step pmhd m a (js c - 1) t))
     = trace (world t) ++ recon_events pmhd X2 m a (js c - 1) (is_ c - 1) (ie c + 1)
                       ++ [EvBarrier]
   /\ arrays (world (flux2_step pmhd m a (js c - 1) t)) = arrays (world t)
   /\ (forall j, js c - 1 < j ->
         flux2_step pmhd m a j t
           = rsolve_switch pmhd m a j (is_ c - 1) (ie c + 1) IVY
               (wl (permute j)) (wr (permute j)) (bl (permute j)) (br (permute j))
               (x2f (b0 pmhd)) X2 (flux2_recon pmhd m a j t)
         /\ trace (world (flux2_step pmhd m a j t))
             = trace (world t) ++ recon_events pmhd X2 m a j (is_ c - 1) (ie c + 1)
                               ++ [EvBarrier]
                               ++ solve_events pmhd m a j (is_ c - 1) (ie c + 1) IVY)
   /\ solver_calls (trace (flux2_unit pmhd nvars ncells1 m a w))
       = solver_calls (trace w)
         ++ flat_map (fun j => solve_events pmhd m a j (is_ c - 1) (ie c + 1) IVY)
                     (range (js c) (je c + 1)))
  (* direction 3 *)
  /\ (trace (world (flux3_step pmhd m a (ks c - 1) t))
       = trace (world t) ++ recon_events pmhd X3 m (ks c - 1) a (is_ c - 1) (ie c + 1)
                         ++ [EvBarrier]
     /\ arrays (world (flux3_step pmhd m a (ks c - 1) t)) = arrays (world t)
     /\ (forall k, ks c - 1 < k ->
           flux3_step pmhd m a k t
             = team_barrier
                 (rsolve_switch pmhd m k a (is_ c - 1) (ie c + 1) IVZ
                    (wl (permute k)) (wr (permute k)) (bl (permute k)) (br (permute k))
                    (x3f (b0 pmhd)) X3 (flux3_recon pmhd m a k t))
           /\ trace (world (flux3_step pmhd m a k t))
               = trace (world t) ++ recon_events pmhd X3 m k a (is_ c - 1) (ie c + 1)
                                 ++ [EvBarrier]
                                 ++ solve_events pmhd m k a (is_ c - 1) (ie c + 1) IVZ
                                 ++ [EvBarrier])
     /\ solver_calls (trace (flux3_unit pmhd nvars ncells1 m a w))
         = solver_calls (trace w)
           ++ flat_map (fun k => solve_events pmhd m k a (is_ c - 1) (ie c + 1) IVZ)
                       (range (ks c) (ke c + 1))).
Proof.
  cbv zeta. split; repeat apply conj.
  - rewrite trace_flux2_step. unfold x2_step_events.
    replace (_ >? _) with false by lia. now rewrite app_nil_r.
  - apply arrays_flux2_step_idle. left. lia.
  - intros j Hj. split.
    + unfold flux2_step, flux2_solve. now replace (_ >? _) with true by lia.
    + rewrite trace_flux2_step. unfold x2_step_events.
      now replace (_ >? _) with true by lia.
  - rewrite trace_flux2_unit. unfold x2_unit_events, six_scratch_events.
    rewrite !solver_calls_app. cbn [solver_calls filter is_solve app].
    f_equal. unfold solver_calls. rewrite filter_flat_map.
    rewrite <- (guarded_steps _ (js (mb_cells (pmy_pack pmhd)))).
    apply flat_map_same_in. intros j _. apply solver_calls_x2_step.
  - rewrite trace_flux3_step. unfold x3_step_events.
    replace (_ >? _) with false by lia. now rewrite app_nil_r.
  - apply arrays_flux3_step_idle. left. lia.
  - intros k Hk. split.
    + unfold flux3_step, flux3_solve. now replace (_ >? _) with true by lia.
    + rewrite trace_flux3_step. unfold x3_step_events.
      now replace (_ >? _) with true by lia.
  - rewrite trace_flux3_unit. unfold x3_unit_events, six_scratch_events.
    rewrite !solver_calls_app. cbn [solver_calls filter is_solve app].
    f_equal. unfold solver_calls. rewrite filter_flat_map.
    rewrite <- (guarded_steps _ (ks (mb_cells (pmy_pack pmhd)))).
    apply flat_map_same_in. intros k _. apply solver_calls_x3_step.
Qed.

(** ** Early returns *)

Lemma launches_MHDCalcFlux_events nmhd_local :
  launches (MHDCalcFlux_events pmhd nmhd_local)
  = let nvars := nvars_of pmhd nmhd_local in
    let ncells1 := ncells1_of pmhd in
    ("mhd_flux_x1"%string, scr_size_for nvars ncells1 2)
    :: (if nx2gt1 (pmy_pack pmhd)
        then ("mhd_flux2"%string, scr_size_for nvars ncells1 3)
             :: (if nx3gt1 (pmy_pack pmhd)
                 then [("divflux_x3"%string, scr_size_for nvars ncells1 3)]
                 else [])
        else []).
Proof.
  unfold MHDCalcFlux_events. cbv zeta.
  destruct (nx2gt1 (pmy_pack pmhd)), (nx3gt1 (pmy_pack pmhd));
    rewrite ?launches_app, ?launches_x1_sweep_events, ?launches_x2_sweep_events,
            ?launches_x3_sweep_events;
    reflexivity.
Qed.

(** C3.  On a mesh without extent in the second dimension ([nx2gt1] false)
    [MHDCalcFlux] returns right after the direction-1 dispatch: its result is
    that of the direction-1 sweep alone, the only kernel dispatched is
    ["mhd_flux_x1"], the events of the invocation are those of that sweep (so
    no scratch array of a direction-2 or direction-3 unit is constructed),
    and [flux2], [emf_x2], [flux3], [emf_x3] are as they were.  On a mesh
    with extent in the second but not in the third dimension it returns
    right after the direction-2 dispatch: only ["mhd_flux_x1"] and
    ["mhd_flux2"] are dispatched, and [flux3], [emf_x3] are as they were. *)
Theorem C3_unmeshed_directions_are_skipped (nmhd_local : Z) (w : World) :
  let r := MHDCalcFlux pmhd nmhd_local w in
  let nvars := nvars_of pmhd nmhd_local in
  let ncells1 := ncells1_of pmhd in
  (nx2gt1 (pmy_pack pmhd) = false ->
     r = (complete, sweep_x1 pmhd nvars ncells1 w)
     /\ trace (snd r) = trace w ++ x1_sweep_events pmhd nvars ncells1
     /\ launches (trace (snd r))
        = launches (trace w) ++ [("mhd_flux_x1"%string, scr_size_for nvars ncells1 2)]
     /\ flux2 (snd r) = flux2 w /\ emf_x2 (snd r) = emf_x2 w
     /\ flux3 (snd r) = flux3 w /\ emf_x3 (snd r) = emf_x3 w)
  /\ (nx2gt1 (pmy_pack pmhd) = true -> nx3gt1 (pmy_pack pmhd) = false ->
     r = (complete, sweep_x2 pmhd nvars ncells1 (sweep_x1 pmhd nvars ncells1 w))
     /\ trace (snd r) = trace w ++ x1_sweep_events pmhd nvars ncells1
                                ++ x2_sweep_events pmhd nvars ncells1
     /\ launches (trace (snd r))
        = launches (trace w) ++ [("mhd_flux_x1"%string, scr_size_for nvars ncells1 2);
                                 ("mhd_flux2"%string, scr_size_for nvars ncells1 3)]
     /\ flux3 (snd r) = flux3 w /\ emf_x3 (snd r) = emf_x3 w).
Proof.
  cbv zeta. split.
  - intros H2.
    assert (E : MHDCalcFlux pmhd nmhd_local w
                = (complete, sweep_x1 pmhd (nvars_of pmhd nmhd_local) (ncells1_of pmhd) w))
      by (rewrite MHDCalcFlux_paths, H2; reflexivity).
    split; [exact E|].
    split; [rewrite trace_MHDCalcFlux; unfold MHDCalcFlux_events; rewrite H2;
            now rewrite app_nil_r|].
    split; [rewrite trace_MHDCalcFlux, launches_app, launches_MHDCalcFlux_events, H2;
            reflexivity|].
    rewrite E. cbn [snd].
    pose proof (others_sweep_x1 (nvars_of pmhd nmhd_local) (ncells1_of pmhd) w) as Ho.
    cbn [other_arrays] in Ho. injection Ho as -> -> -> ->. auto.
  - intros H2 H3.
    assert (E : MHDCalcFlux pmhd nmhd_local w
                = (complete, sweep_x2 pmhd (nvars_of pmhd nmhd_local) (ncells1_of pmhd)
                               (sweep_x1 pmhd (nvars_of pmhd nmhd_local)
                                         (ncells1_of pmhd) w)))
      by (rewrite MHDCalcFlux_paths, H2, H3; reflexivity).
    split; [exact E|].
    split; [rewrite trace_MHDCalcFlux; unfold MHDCalcFlux_events; rewrite H2, H3;
            now rewrite app_nil_r|].
    split; [rewrite trace_MHDCalcFlux, launches_app, launches_MHDCalcFlux_events, H2, H3;
            reflexivity|].
    rewrite E. cbn [snd].
    pose proof (others_sweep_x1 (nvars_of pmhd nmhd_local) (ncells1_of pmhd) w) as Ho1.
    pose proof (others_sweep_x2 (nvars_of pmhd nmhd_local) (ncells1_of pmhd)
                  (sweep_x1 pmhd (nvars_of pmhd nmhd_local) (ncells1_of pmhd) w)) as Ho2.
    cbn [other_arrays] in Ho1, Ho2.
    injection Ho1 as _ _ E3 E4. injection Ho2 as _ _ -> ->. auto.
Qed.

(** C9.  [MHDCalcFlux] returns [TaskStatus::complete] on each of its three
    paths, whatever the selectors (recognised or not): after the direction-1
    sweep when the mesh has no extent in the second dimension, after the
    direction-2 sweep when it has none in the third, after the direction-3
    sweep otherwise.  The status is never [fail] (nor [incomplete]). *)
Theorem C9_status_is_always_complete (nmhd_local : Z) (w : World) :
  let r := MHDCalcFlux pmhd nmhd_local w in
  let nvars := nvars_of pmhd nmhd_local in
  let ncells1 := ncells1_of pmhd in
  fst r = complete
  /\ fst r <> fail /\ fst r <> incomplete
  /\ snd r
     = (if nx2gt1 (pmy_pack pmhd)
        then if nx3gt1 (pmy_pack pmhd)
             then sweep_x3 pmhd nvars ncells1
                    (sweep_x2 pmhd nvars ncells1 (sweep_x1 pmhd nvars ncells1 w))
             else sweep_x2 pmhd nvars ncells1 (sweep_x1 pmhd nvars ncells1 w)
        else sweep_x1 pmhd nvars ncells1 w).
Proof.
  cbv zeta. rewrite MHDCalcFlux_paths. cbn [fst snd].
  repeat split; discriminate.
Qed.

(** C6.  The scratch size of each dispatch is computed once, before the
    dispatch, from [nvars], the fixed field width 3 and the line length
    [ncells1] only: it is the size of one buffer-set,
    [shmem_size(nvars, ncells1) + shmem_size(3, ncells1)], times 2 for
    direction 1 and times 3 for directions 2 and 3 (in [size_t] arithmetic).
    Accordingly a direction-1 unit constructs two buffer-sets (four scratch
    arrays) and a direction-2 or direction-3 unit three (six scratch arrays),
    once per unit and not once per loop iteration. *)
Theorem C6_scratch_sizing (nmhd_local : Z) (m a b : Z) (w : World) :
  let nvars := nvars_of pmhd nmhd_local in
  let ncells1 := ncells1_of pmhd in
  let buffer_set := shmem_size nvars ncells1 + shmem_size 3 ncells1 in
  launches (trace (snd (MHDCalcFlux pmhd nmhd_local w)))
  = launches (trace w)
    ++ ("mhd_flux_x1"%string, size_t (size_t buffer_set * 2))
       :: (if nx2gt1 (pmy_pack pmhd)
           then ("mhd_flux2"%string, size_t (size_t buffer_set * 3))
                :: (if nx3gt1 (pmy_pack pmhd)
                    then [("divflux_x3"%string, size_t (size_t buffer_set * 3))]
                    else [])
           else [])
  /\ scratch_arrays (trace (flux_x1_unit pmhd nvars ncells1 m a b w))
     = scratch_arrays (trace w)
       ++ [(nvars, ncells1); (nvars, ncells1); (3, ncells1); (3, ncells1)]
  /\ scratch_arrays (trace (flux2_unit pmhd nvars ncells1 m a w))
     = scratch_arrays (trace w)
       ++ [(nvars, ncells1); (nvars, ncells1); (nvars, ncells1);
           (3, ncells1); (3, ncells1); (3, ncells1)]
  /\ scratch_arrays (trace (flux3_unit pmhd nvars ncells1 m a w))
     = scratch_arrays (trace w)
       ++ [(nvars, ncells1); (nvars, ncells1); (nvars, ncells1);
           (3, ncells1); (3, ncells1); (3, ncells1)].
Proof.
  cbv zeta. repeat apply conj.
  - rewrite trace_MHDCalcFlux, launches_app, launches_MHDCalcFlux_events. reflexivity.
  - rewrite trace_flux_x1_unit, scratch_arrays_app.
    now rewrite (proj2 (readings_x1_unit_events _ _ _ _ _)).
  - rewrite trace_flux2_unit, scratch_arrays_app.
    now rewrite (proj2 (readings_x2_unit_events _ _ _ _)).
  - rewrite trace_flux3_unit, scratch_arrays_app.
    now rewrite (proj2 (readings_x3_unit_events _ _ _ _)).
Qed.

(** ** Selectors without a case *)

Section Silent.
(** A kind of event [p] that neither the reconstruction nor the solve
    switch produces does not occur in an invocation at all. *)
Variable p : Event -> bool.
Hypothesis p_launch : forall n s, p (EvLaunch n s) = false.
Hypothesis p_scratch : forall r c, p (EvScratch r c) = false.
Hypothesis p_barrier : p EvBarrier = false.
Hypothesis p_recon : forall a m k j il iu, filter p (recon_events pmhd a m k j il iu) = [].
Hypothesis p_solve : forall m k j il iu ivx, filter p (solve_events pmhd m k j il iu ivx) = [].

Ltac silence :=
  repeat first
    [ rewrite filter_app | rewrite p_recon | rewrite p_solve
    | rewrite filter_flat_map | rewrite p_launch | rewrite p_scratch
    | rewrite p_barrier | progress cbn [filter app] ].

Lemma silent_x1_sweep nvars ncells1 :
  filter p (x1_sweep_events pmhd nvars ncells1) = [].
Proof.
  unfold x1_sweep_events. silence.
  apply flat_map_all_nil. intros m _. silence.
  apply flat_map_all_nil. intros k _. silence.
  apply flat_map_all_nil. intros j _. unfold x1_unit_events. silence. reflexivity.
Qed.

Lemma silent_x2_sweep nvars ncells1 :
  filter p (x2_sweep_events pmhd nvars ncells1) = [].
Proof.
  unfold x2_sweep_events. silence.
  apply flat_map_all_nil. intros m _. silence.
  apply flat_map_all_nil. intros k _. unfold x2_unit_events, six_scratch_events.
  silence. apply flat_map_all_nil. intros j _. unfold x2_step_events.
  destruct (j >? _); silence; reflexivity.
Qed.

Lemma silent_x3_sweep nvars ncells1 :
  filter p (x3_sweep_events pmhd nvars ncells1) = [].
Proof.
  unfold x3_sweep_events. silence.
  apply flat_map_all_nil. intros m _. silence.
  apply flat_map_all_nil. intros j _. unfold x3_unit_events, six_scratch_events.
  silence. apply flat_map_all_nil. intros k _. unfold x3_step_events.
  destruct (k >? _); silence; reflexivity.
Qed.

Lemma silent_invocation nmhd_local :
  filter p (MHDCalcFlux_events pmhd nmhd_local) = [].
Proof.
  unfold MHDCalcFlux_events. cbv zeta.
  destruct (nx2gt1 (pmy_pack pmhd)), (nx3gt1 (pmy_pack pmhd));
    rewrite ?filter_app, ?silent_x1_sweep, ?silent_x2_sweep, ?silent_x3_sweep;
    reflexivity.
Qed.

End Silent.

Lemma no_recon_calls_default nmhd_local :
  selected_scheme (recon_method_ pmhd) = None ->
  recon_calls (MHDCalcFlux_events pmhd nmhd_local) = [].
Proof.
  intros Hd. apply silent_invocation; try reflexivity.
  - intros. unfold recon_events. now rewrite Hd.
  - intros. apply readings_solve_events.
Qed.

Lemma no_solver_calls_default nmhd_local :
  selected_solver (rsolver_method_ pmhd) = None ->
  solver_calls (MHDCalcFlux_events pmhd nmhd_local) = [].
Proof.
  intros Hd. apply silent_invocation; try reflexivity.
  - intros. apply readings_recon_events.
  - intros. unfold solve_events. now rewrite Hd.
Qed.

(** C4, as amended.  A Riemann-solver selector without a case makes the
    solve switch do nothing: no solver is called, every flux and EMF array
    is left exactly as it was, and [complete] is returned, with no error.  A
    reconstruction selector without a case makes the reconstruction switch
    do nothing: no reconstruction function is called and [complete] is
    returned, with no error; but the output arrays are not left alone in that
    case, for the selected solver still runs, on scratch arrays that hold
    whatever the team scratch held: in a direction-1 unit the new [flux1] and
    [emf_x1] are the solver's results on four freshly constructed arrays. *)
Theorem C4_default_cases_do_nothing_themselves (nmhd_local : Z) (w : World) :
  let r := MHDCalcFlux pmhd nmhd_local w in
  (selected_solver (rsolver_method_ pmhd) = None ->
     arrays (snd r) = arrays w
     /\ solver_calls (trace (snd r)) = solver_calls (trace w)
     /\ fst r = complete)
  /\ (selected_scheme (recon_method_ pmhd) = None ->
     recon_calls (trace (snd r)) = recon_calls (trace w)
     /\ fst r = complete
     /\ forall s nvars ncells1 m k j w',
          selected_solver (rsolver_method_ pmhd) = Some s ->
          let c := mb_cells (pmy_pack pmhd) in
          (flux1 (flux_x1_unit pmhd nvars ncells1 m k j w'),
           emf_x1 (flux_x1_unit pmhd nvars ncells1 m k j w'))
          = rsolve s (eos_data pmhd) m k j (is_ c) (ie c + 1) IVX
              (team_scratch nvars ncells1) (team_scratch nvars ncells1)
              (team_scratch 3 ncells1) (team_scratch 3 ncells1)
              (x1f (b0 pmhd)) (flux1 w') (emf_x1 w')).
Proof.
  cbv zeta. split.
  - intros Hd. split; [now apply arrays_MHDCalcFlux_default|].
    split; [|now rewrite MHDCalcFlux_paths].
    rewrite trace_MHDCalcFlux, solver_calls_app, no_solver_calls_default by exact Hd.
    apply app_nil_r.
  - intros Hd. split; [|split; [now rewrite MHDCalcFlux_paths|]].
    + rewrite trace_MHDCalcFlux, recon_calls_app, no_recon_calls_default by exact Hd.
      apply app_nil_r.
    + intros s nvars ncells1 m k j w' Hs.
      unfold flux_x1_unit. rewrite recon_switch_default by exact Hd.
      unfold rsolve_switch.
      destruct (rsolver_method_ pmhd); cbn in Hs; inversion Hs; subst s; cbn;
        now destruct (rsolve _ _ _ _ _ _ _ _ _ _ _ _ _ _ _).
Qed.

(** C7, as amended.  In the direction-1 sweep there is one unit per
    [(m, k, j)] with [0 <= m <= nmb-1], [ks <= k <= ke], [js <= j <= je]; each
    unit constructs its four scratch arrays, calls the selected
    reconstruction function once on W and once on Bcc over the cells
    [is-1 .. ie+1], passes the barrier, and calls the selected Riemann solver
    once, over the faces [is .. ie+1]. *)
Theorem C7_one_unit_per_line_solve_from_is (nvars ncells1 : Z) (w : World)
    (s : Scheme) (slv : Solver) :
  selected_scheme (recon_method_ pmhd) = Some s ->
  selected_solver (rsolver_method_ pmhd) = Some slv ->
  let c := mb_cells (pmy_pack pmhd) in
  trace (sweep_x1 pmhd nvars ncells1 w)
  = trace w
    ++ EvLaunch "mhd_flux_x1" (scr_size_for nvars ncells1 2)
       :: flat_map (fun m =>
            flat_map (fun k =>
              flat_map (fun j =>
                [EvScratch nvars ncells1; EvScratch nvars ncells1;
                 EvScratch 3 ncells1; EvScratch 3 ncells1;
                 EvRecon s X1 W0 m k j (is_ c - 1) (ie c + 1);
                 EvRecon s X1 Bcc0 m k j (is_ c - 1) (ie c + 1);
                 EvBarrier;
                 EvSolve slv m k j (is_ c) (ie c + 1) IVX])
                (range (js c) (je c)))
              (range (ks c) (ke c)))
            (range 0 (nmb_thispack (pmy_pack pmhd) - 1)).
Proof.
  intros Hs Hslv. cbv zeta. rewrite trace_sweep_x1.
  unfold x1_sweep_events, x1_unit_events, recon_events, solve_events.
  rewrite Hs, Hslv. reflexivity.
Qed.

(** ** Further properties of the sweeps *)

(** X1.  Each direction owns its flux and EMF arrays: the direction-1 sweep
    leaves [flux2], [emf_x2], [flux3], [emf_x3] as they were, the
    direction-2 sweep leaves [flux1], [emf_x1], [flux3], [emf_x3], and the
    direction-3 sweep leaves [flux1], [emf_x1], [flux2], [emf_x2]. *)
Theorem X1_each_sweep_writes_its_own_arrays (nvars ncells1 : Z) (w : World) :
  (flux2 (sweep_x1 pmhd nvars ncells1 w) = flux2 w
   /\ emf_x2 (sweep_x1 pmhd nvars ncells1 w) = emf_x2 w
   /\ flux3 (sweep_x1 pmhd nvars ncells1 w) = flux3 w
   /\ emf_x3 (sweep_x1 pmhd nvars ncells1 w) = emf_x3 w)
  /\ (flux1 (sweep_x2 pmhd nvars ncells1 w) = flux1 w
      /\ emf_x1 (sweep_x2 pmhd nvars ncells1 w) = emf_x1 w
      /\ flux3 (sweep_x2 pmhd nvars ncells1 w) = flux3 w
      /\ emf_x3 (sweep_x2 pmhd nvars ncells1 w) = emf_x3 w)
  /\ (flux1 (sweep_x3 pmhd nvars ncells1 w) = flux1 w
      /\ emf_x1 (sweep_x3 pmhd nvars ncells1 w) = emf_x1 w
      /\ flux2 (sweep_x3 pmhd nvars ncells1 w) = flux2 w
      /\ emf_x2 (sweep_x3 pmhd nvars ncells1 w) = emf_x2 w).
Proof.
  pose proof (others_sweep_x1 nvars ncells1 w) as H1.
  pose proof (others_sweep_x2 nvars ncells1 w) as H2.
  pose proof (others_sweep_x3 nvars ncells1 w) as H3.
  cbn [other_arrays] in H1, H2, H3.
  injection H1 as A1 A2 A3 A4. injection H2 as B1 B2 B3 B4.
  injection H3 as C1 C2 C3 C4. repeat split; assumption.
Qed.

(** X2.  In every unit the team barrier stands between the reconstruction
    calls and the solver call: a direction-1 unit constructs its scratch
    arrays, reconstructs, passes the barrier and only then solves; an
    iteration of the direction-2 loop reconstructs, passes the barrier and
    then solves (when the guard lets it); an iteration of the direction-3
    loop does the same and passes a second barrier after the solve. *)
Theorem X2_barrier_between_reconstruction_and_solve (nvars ncells1 m a b : Z)
    (w : World) (t : Team ScrBuf) :
  let c := mb_cells (pmy_pack pmhd) in
  trace (flux_x1_unit pmhd nvars ncells1 m a b w)
  = trace w
    ++ [EvScratch nvars ncells1; EvScratch nvars ncells1;
        EvScratch 3 ncells1; EvScratch 3 ncells1]
    ++ recon_events pmhd X1 m a b (is_ c - 1) (ie c + 1)
    ++ [EvBarrier]
    ++ solve_events pmhd m a b (is_ c) (ie c + 1) IVX
  /\ trace (world (flux2_step pmhd m a b t))
     = trace (world t)
       ++ recon_events pmhd X2 m a b (is_ c - 1) (ie c + 1)
       ++ [EvBarrier]
       ++ (if b >? js c - 1
           then solve_events pmhd m a b (is_ c - 1) (ie c + 1) IVY
           else [])
  /\ trace (world (flux3_step pmhd m a b t))
     = trace (world t)
       ++ recon_events pmhd X3 m b a (is_ c - 1) (ie c + 1)
       ++ [EvBarrier]
       ++ (if b >? ks c - 1
           then solve_events pmhd m b a (is_ c - 1) (ie c + 1) IVZ ++ [EvBarrier]
           else []).
Proof.
  cbv zeta. split; [apply trace_flux_x1_unit|].
  split; [apply trace_flux2_step | apply trace_flux3_step].
Qed.

(** [nvars] is the value of the uninitialised local plus [nscalars]; the
    member [nmhd] does not enter it. *)
Lemma nvars_of_eq (x : Z) : nvars_of pmhd x = x + nscalars pmhd.
Proof. reflexivity. Qed.

End Facts.

(** ** Closed instances, on the recording kernels *)

Import Recording.

(** C1 at a concrete unit of the direction-2 sweep: at [j = 3] the solver
    is handed, as left state, what the reconstruction of [j = 2] produced
    as next state. *)
Lemma C1_witness :
  scratch (flux2_recon (mhd true false plm llf) 0 0 3
             (flux2_step (mhd true false plm llf) 0 0 2
                (six_scratch 8 6 blank)))
          (wl (permute 3))
  = LeftState X2 W0 0 0 2.
Proof.
  exact (proj1 (proj1 (proj2 (proj2
    (C1_ping_pong_left_is_previous_next (mhd true false plm llf) 0 0 2
       (six_scratch 8 6 blank)))))).
Defined.

(** C2 on a block with [js = 2], [je = 3]: the loop runs [j = 1 .. 4] and
    the solver is called for [j = 2, 3, 4]. *)
Lemma C2_witness :
  solver_calls (trace (flux2_unit (mhd true false plm llf) 8 6 0 0 blank))
  = [EvSolve LLF_fn 0 0 2 1 4 IVY; EvSolve LLF_fn 0 0 3 1 4 IVY;
     EvSolve LLF_fn 0 0 4 1 4 IVY].
Proof.
  exact (proj2 (proj2 (proj2 (proj1
    (C2_first_iteration_primes_only (mhd true false plm llf) 8 6 0 0
       (six_scratch 8 6 blank) blank))))).
Defined.

(** C3 on a one-dimensional mesh. *)
Lemma C3_witness :
  launches (trace (snd (MHDCalcFlux (mhd false false plm llf) 8 blank)))
  = [("mhd_flux_x1"%string, 1056)]
  /\ flux2 (snd (MHDCalcFlux (mhd false false plm llf) 8 blank)) = [].
Proof.
  pose proof (proj1 (C3_unmeshed_directions_are_skipped
                       (mhd false false plm llf) 8 blank) eq_refl)
    as (_ & _ & Hl & H2 & _).
  exact (conj Hl H2).
Defined.

(** C4, as the specification states it, fails: with a reconstruction selector the
    switch has no case for and the LLF solver, on a one-dimensional mesh,
    [flux1] and [emf_x1] are written all the same, from scratch arrays no
    reconstruction has filled. *)
Lemma C4_unrecognized_reconstruction_still_writes :
  selected_scheme (recon_method_ (mhd false false (recon_other 7) llf)) = None
  /\ flux1 blank = []
  /\ flux1 (snd (MHDCalcFlux (mhd false false (recon_other 7) llf) 8 blank))
     = [(LLF_fn, (0, 0, 0), (2, 4), (Uninit 8 6, Uninit 8 6))]
  /\ emf_x1 (snd (MHDCalcFlux (mhd false false (recon_other 7) llf) 8 blank))
     = [(LLF_fn, (0, 0, 0), (2, 4), (Uninit 3 6, Uninit 3 6))]
  /\ arrays (snd (MHDCalcFlux (mhd false false (recon_other 7) llf) 8 blank))
     <> arrays blank.
Proof. repeat split. cbv. discriminate. Qed.

(** C4 as amended, on a three-dimensional mesh with a solver selector the
    switch has no case for. *)
Lemma C4_witness :
  arrays (snd (MHDCalcFlux (mhd true true plm (rsolver_other 9)) 8 blank))
  = arrays blank.
Proof.
  exact (proj1 (proj1 (C4_default_cases_do_nothing_themselves
                         (mhd true true plm (rsolver_other 9)) 8 blank) eq_refl)).
Defined.

(** C5 at a failing input: the object has [nmhd = 8] and [nscalars = 0],
    and the uninitialised local holds 0; [nvars] is then 0, not 8. *)
Theorem C5_nvars_reads_the_uninitialised_local :
  nmhd (mhd true true plm llf) + nscalars (mhd true true plm llf) = 8
  /\ nvars_of (mhd true true plm llf) 0 = 0
  /\ scratch_arrays (trace (flux_x1_unit (mhd true true plm llf)
                              (nvars_of (mhd true true plm llf) 0) 6 0 2 2 blank))
     = [(0, 6); (0, 6); (3, 6); (3, 6)].
Proof. repeat split. Qed.

(** C7, as the specification states it, fails: on a block with [is = 2], [ie = 3] the
    direction-1 solver is called over the faces [2 .. 4], that is
    [is .. ie+1], and not over [1 .. 4], that is [is-1 .. ie+1]. *)
Lemma C7_solve_range_starts_at_is :
  is_ (mb_cells (pmy_pack (mhd false false plm llf))) = 2
  /\ ie (mb_cells (pmy_pack (mhd false false plm llf))) = 3
  /\ solver_calls (trace (snd (MHDCalcFlux (mhd false false plm llf) 8 blank)))
     = [EvSolve LLF_fn 0 0 0 2 4 IVX]
  /\ ~ In (EvSolve LLF_fn 0 0 0 1 4 IVX)
          (trace (snd (MHDCalcFlux (mhd false false plm llf) 8 blank))).
Proof.
  repeat split. cbv. intros H.
  repeat (destruct H as [H|H]; [discriminate H|]). exact H.
Qed.

(** C7 as amended, on that block. *)
Lemma C7_witness :
  trace (sweep_x1 (mhd false false plm llf) 8 6 blank)
  = [EvLaunch "mhd_flux_x1" 1056;
     EvScratch 8 6; EvScratch 8 6; EvScratch 3 6; EvScratch 3 6;
     EvRecon PiecewiseLinear X1 W0 0 0 0 1 4;
     EvRecon PiecewiseLinear X1 Bcc0 0 0 0 1 4;
     EvBarrier;
     EvSolve LLF_fn 0 0 0 2 4 IVX].
Proof.
  exact (C7_one_unit_per_line_solve_from_is (mhd false false plm llf) 8 6 blank
           PiecewiseLinear LLF_fn eq_refl eq_refl).
Defined.

End FluxTheory.

(** * Properties of the Orszag-Tang generator *)

Module OrszagTangTheory.
Import OrszagTang OrszagTangSpec.

Section Facts.
Context {R : RealOps}.

(** ** Element assignment *)

(** Decide every index comparison in the goal. *)
Ltac index_cases :=
  repeat match goal with
         | |- context [Z.eqb ?a ?b] =>
             destruct (Z.eqb_spec a b); try (exfalso; lia); subst; cbn [andb]
         end.

(** ** Four-fold dispatches *)

Section ParFor.
Context {S : Type}.
Variable Rel : S -> S -> Prop.
Hypothesis Rel_refl : forall s, Rel s s.
Hypothesis Rel_trans : forall s1 s2 s3, Rel s1 s2 -> Rel s2 s3 -> Rel s1 s3.
Variables ml mu kl ku jl ju il iu : Z.
Variable body : Z -> Z -> Z -> Z -> S -> S.
Hypothesis body_rel : forall m k j i s, Rel s (body m k j i s).

Lemma par_for4_rel (s : S) : Rel s (par_for4 ml mu kl ku jl ju il iu body s).
Proof.
  unfold par_for4.
  apply fold_left_rel; auto. intros s1 m _.
  apply fold_left_rel; auto. intros s2 k _.
  apply fold_left_rel; auto. intros s3 j _.
  apply fold_left_rel; auto.
Qed.

Variable G : Z -> Z -> Z -> Z -> S -> Prop.
Hypothesis body_sets : forall m k j i s, G m k j i (body m k j i s).
Hypothesis G_stable : forall m k j i s s', G m k j i s -> Rel s s' -> G m k j i s'.

Lemma par_for4_reaches (s : S) (m k j i : Z) :
  ml <= m <= mu -> kl <= k <= ku -> jl <= j <= ju -> il <= i <= iu ->
  G m k j i (par_for4 ml mu kl ku jl ju il iu body s).
Proof.
  intros Hm Hk Hj Hi. unfold par_for4.
  apply (fold_left_reaches Rel Rel_refl Rel_trans (fun m s => G m k j i s));
    [ | | intros; eapply G_stable; eauto | now apply in_range ].
  { intros s1 m1 _. repeat (apply fold_left_rel; auto; intros). }
  intros s1 m1 _.
  apply (fold_left_reaches Rel Rel_refl Rel_trans (fun k s => G m1 k j i s));
    [ | | intros; eapply G_stable; eauto | now apply in_range ].
  { intros s2 k1 _. repeat (apply fold_left_rel; auto; intros). }
  intros s2 k1 _.
  apply (fold_left_reaches Rel Rel_refl Rel_trans (fun j s => G m1 k1 j i s));
    [ | | intros; eapply G_stable; eauto | now apply in_range ].
  { intros s3 j1 _. repeat (apply fold_left_rel; auto; intros). }
  intros s3 j1 _.
  apply (fold_left_reaches Rel Rel_refl Rel_trans (fun i s => G m1 k1 j1 i s));
    [ | | intros; eapply G_stable; eauto | now apply in_range ].
  - intros; apply body_rel.
  - intros; apply body_sets.
Qed.

End ParFor.

(** ** The two kernels *)

Section Kernels.
Variable pmbp : MeshBlockPack.

Lemma fills_refl (s : Mem) : fills pmbp s s.
Proof. unfold fills. repeat split; auto. Qed.

Lemma fills_trans (s1 s2 s3 : Mem) :
  fills pmbp s1 s2 -> fills pmbp s2 s3 -> fills pmbp s1 s3.
Proof.
  intros (B12 & U12 & X12 & Y12 & Z12) (B23 & U23 & X23 & Y23 & Z23).
  unfold fills. rewrite B12 in *. repeat split.
  - congruence.
  - intros m n k j i. destruct (U23 m n k j i) as [ -> | H ]; auto.
  - intros m k j i. destruct (X23 m k j i) as [ -> | H ]; auto.
  - intros m k j i. destruct (Y23 m k j i) as [ -> | H ]; auto.
  - intros m k j i. destruct (Z23 m k j i) as [ -> | H ]; auto.
Qed.

Lemma filled_stable m k j i (s s' : Mem) :
  filled pmbp m k j i s -> fills pmbp s s' -> filled pmbp m k j i s'.
Proof.
  intros (U & X & Xe & Y & Ye & Z & Ze) (B & U' & X' & Y' & Z').
  unfold filled. rewrite B. repeat split.
  - intros n Hn. destruct (U' m n k j i) as [ -> | [_ -> ] ]; auto.
  - destruct (X' m k j i) as [ -> | -> ]; auto.
  - intros Hi. destruct (X' m k j (i + 1)) as [ -> | -> ]; auto.
  - destruct (Y' m k j i) as [ -> | -> ]; auto.
  - intros Hj. destruct (Y' m k (j + 1) i) as [ -> | -> ]; auto.
  - destruct (Z' m k j i) as [ -> | -> ]; auto.
  - intros Hk. destruct (Z' m (k + 1) j i) as [ -> | -> ]; auto.
Qed.

Lemma pgen_ot1_fills m k j i (s : Mem) : fills pmbp s (pgen_ot1 pmbp m k j i s).
Proof.
  unfold fills, pgen_ot1. cbn [B0 u0 b0_x1f b0_x2f b0_x3f]. repeat split.
  - intros m' n' k' j' i'. unfold set5, conserved, IDN, IM1, IM2, IM3.
    index_cases; cbn; auto; right; (split; [lia|reflexivity]).
  - intros m' k' j' i'. unfold set4, curl_x1, x1_face, x2_face.
    index_cases; auto.
  - intros m' k' j' i'. unfold set4, curl_x2, x1_face, x2_face.
    index_cases; auto.
  - intros m' k' j' i'. unfold set4. index_cases; auto.
Qed.

Lemma pgen_ot1_filled m k j i (s : Mem) : filled pmbp m k j i (pgen_ot1 pmbp m k j i s).
Proof.
  unfold filled, pgen_ot1. cbn [B0 u0 b0_x1f b0_x2f b0_x3f]. repeat split.
  - intros n Hn. unfold set5, conserved, IDN, IM1, IM2, IM3 in *.
    assert (n = 0 \/ n = 1 \/ n = 2 \/ n = 3) as [ -> | [ -> | [ -> | -> ] ] ] by lia;
      index_cases; try lia; reflexivity.
  - unfold set4, curl_x1, x1_face, x2_face. index_cases; try lia; reflexivity.
  - intros ->. unfold set4, curl_x1, x1_face, x2_face.
    index_cases; try lia; reflexivity.
  - unfold set4, curl_x2, x1_face, x2_face. index_cases; try lia; reflexivity.
  - intros ->. unfold set4, curl_x2, x1_face, x2_face.
    index_cases; try lia; reflexivity.
  - unfold set4. index_cases; try lia; reflexivity.
  - intros ->. unfold set4. index_cases; try lia; reflexivity.
Qed.

Lemma same_but_energy_refl (s : Mem) : same_but_energy s s.
Proof. unfold same_but_energy. repeat split; auto. Qed.

Lemma same_but_energy_trans (s1 s2 s3 : Mem) :
  same_but_energy s1 s2 -> same_but_energy s2 s3 -> same_but_energy s1 s3.
Proof.
  intros (B12 & U12 & X12 & Y12 & Z12) (B23 & U23 & X23 & Y23 & Z23).
  unfold same_but_energy. repeat split; intros.
  - congruence.
  - rewrite U23, U12; auto.
  - rewrite X23, X12; auto.
  - rewrite Y23, Y12; auto.
  - rewrite Z23, Z12; auto.
Qed.

Lemma pgen_ot2_same_but_energy gm1 m k j i (s : Mem) :
  same_but_energy s (pgen_ot2 gm1 m k j i s).
Proof.
  unfold same_but_energy, pgen_ot2. cbn [B0 u0 b0_x1f b0_x2f b0_x3f].
  repeat split; auto.
  intros m' n' k' j' i' Hn. unfold set5. index_cases; try reflexivity.
  all: try contradiction.
Qed.

End Kernels.

(** ** The generator *)

(** C8.  When the pack has an MHD object, [OrszagTang_] returns, with [B0]
    set to [1/sqrt(4 pi)], and at every active cell [(m, k, j, i)] of every
    block of the pack: the density is [25/(36 pi)]; the momentum is
    [(d0 v0 sin(2 pi x2v), - d0 v0 sin(2 pi x1v), 0)] with [v0 = 1] and
    [x1v], [x2v] the cell-centre coordinates; both x1-faces of the cell hold
    the x2-difference of [A3] divided by [dx2], both x2-faces minus the
    x1-difference of [A3] divided by [dx1], where
    [A3(x1, x2) = (B0/(4 pi)) (cos(4 pi x1) - 2 cos(2 pi x2))]; and both
    x3-faces hold zero.  The values are the expressions the source
    evaluates, over uninterpreted arithmetic. *)
Theorem C8_orszag_tang_initial_state (pmbp : MeshBlockPack) (gamma : Real)
    (s0 : Mem) :
  pmhd_gamma pmbp = Some gamma ->
  exists s : Mem,
    OrszagTang_ pmbp s0 = Returned s
    /\ B0 s = (lit 1 / fsqrt (lit 4 * M_PI))%real
    /\ (forall b x1 x2,
          A3 b x1 x2
          = ((b / (lit 4 * M_PI))
             * (fcos (lit 4 * M_PI * x1) - lit 2 * fcos (lit 2 * M_PI * x2)))%real)
    /\ forall m k j i,
         0 <= m <= nmb_thispack pmbp - 1 ->
         ks (mb_cells pmbp) <= k <= ke (mb_cells pmbp) ->
         js (mb_cells pmbp) <= j <= je (mb_cells pmbp) ->
         is_ (mb_cells pmbp) <= i <= ie (mb_cells pmbp) ->
         u0 s m IDN k j i = (lit 25 / (lit 36 * M_PI))%real
         /\ u0 s m IM1 k j i
            = (lit 25 / (lit 36 * M_PI) * lit 1
               * fsin (lit 2 * M_PI * x2_centre pmbp m j))%real
         /\ u0 s m IM2 k j i
            = (- (lit 25 / (lit 36 * M_PI)) * lit 1
               * fsin (lit 2 * M_PI * x1_centre pmbp m i))%real
         /\ u0 s m IM3 k j i = lit 0
         /\ b0_x1f s m k j i = curl_x1 pmbp (B0 s) m j i
         /\ b0_x1f s m k j (i + 1) = curl_x1 pmbp (B0 s) m j (i + 1)
         /\ b0_x2f s m k j i = curl_x2 pmbp (B0 s) m j i
         /\ b0_x2f s m k (j + 1) i = curl_x2 pmbp (B0 s) m (j + 1) i
         /\ b0_x3f s m k j i = lit 0
         /\ b0_x3f s m (k + 1) j i = lit 0.
Proof.
  intros Hg. unfold OrszagTang_. rewrite Hg.
  set (s1 := mkMem _ (u0 s0) (b0_x1f s0) (b0_x2f s0) (b0_x3f s0)).
  set (s2 := par_for4 _ _ _ _ _ _ _ _ (pgen_ot1 pmbp) s1).
  set (s3 := par_for4 _ _ _ _ _ _ _ _ (pgen_ot2 _) s2).
  assert (F12 : fills pmbp s1 s2)
    by (unfold s2; apply (par_for4_rel (fills pmbp));
        [apply fills_refl | apply fills_trans | apply pgen_ot1_fills]).
  assert (E23 : same_but_energy s2 s3)
    by (unfold s3; apply (par_for4_rel same_but_energy);
        [apply same_but_energy_refl | apply same_but_energy_trans
        | intros; apply pgen_ot2_same_but_energy]).
  destruct E23 as (B23 & U23 & X23 & Y23 & Z23).
  assert (B3 : B0 s3 = (lit 1 / fsqrt (lit 4 * M_PI))%real)
    by (rewrite B23, (proj1 F12); reflexivity).
  exists s3. split; [reflexivity|]. split; [exact B3|]. split; [reflexivity|].
  intros m k j i Hm Hk Hj Hi.
  assert (Hall : forall k' j' i',
             ks (mb_cells pmbp) <= k' <= ke (mb_cells pmbp) ->
             js (mb_cells pmbp) <= j' <= je (mb_cells pmbp) ->
             is_ (mb_cells pmbp) <= i' <= ie (mb_cells pmbp) ->
             filled pmbp m k' j' i' s2).
  { intros k' j' i' Hk' Hj' Hi'.
    unfold s2.
    apply (par_for4_reaches (fills pmbp) (fills_refl pmbp) (fills_trans pmbp)); auto.
    - apply pgen_ot1_fills.
    - apply pgen_ot1_filled.
    - apply filled_stable. }
  destruct (Hall k j i Hk Hj Hi) as (U & X & Xe & Y & Ye & Z & Ze).
  rewrite !U23 by (unfold IDN, IM1, IM2, IM3, IEN; lia).
  rewrite !X23, !Y23, !Z23, B23.
  rewrite (U IDN), (U IM1), (U IM2), (U IM3) by (unfold IDN, IM1, IM2, IM3; lia).
  repeat split; auto.
  - destruct (Z.eq_dec i (ie (mb_cells pmbp))) as [Ei|Ni]; [now apply Xe|].
    apply (Hall k j (i + 1)); auto; lia.
  - destruct (Z.eq_dec j (je (mb_cells pmbp))) as [Ej|Nj]; [now apply Ye|].
    apply (Hall k (j + 1) i); auto; lia.
  - destruct (Z.eq_dec k (ke (mb_cells pmbp))) as [Ek|Nk]; [now apply Ze|].
    apply (Hall (k + 1) j i); auto; lia.
Qed.

(** ** The energy kernel *)

Lemma total_energy_same gm1 (s s' : Mem) m k j i :
  same_but_energy s s' -> total_energy gm1 s' m k j i = total_energy gm1 s m k j i.
Proof.
  intros (_ & U & X & Y & Z). unfold total_energy.
  rewrite !U by (unfold IDN, IM1, IM2, IM3, IEN; lia).
  now rewrite !X, !Y, !Z.
Qed.

Lemma pgen_ot2_has_energy gm1 m k j i (s : Mem) :
  has_energy gm1 m k j i (pgen_ot2 gm1 m k j i s).
Proof.
  unfold has_energy.
  rewrite (total_energy_same gm1 s) by apply pgen_ot2_same_but_energy.
  unfold pgen_ot2, total_energy, p0, SQR, set5. cbn [u0].
  now rewrite !Z.eqb_refl.
Qed.

Lemma pgen_ot2_keeps_energy gm1 m k j i (s : Mem) :
  keeps_energy gm1 s (pgen_ot2 gm1 m k j i s).
Proof.
  intros m' k' j' i' H.
  destruct (Z.eq_dec m' m) as [->|Hm]; [destruct (Z.eq_dec k' k) as [->|Hk];
    [destruct (Z.eq_dec j' j) as [->|Hj];
      [destruct (Z.eq_dec i' i) as [->|Hi]; [apply pgen_ot2_has_energy|]|]|]|];
    unfold has_energy in *;
    rewrite (total_energy_same gm1 s) by apply pgen_ot2_same_but_energy;
    rewrite <- H; unfold pgen_ot2, set5; cbn [u0]; index_cases; reflexivity.
Qed.

(** X3.  When the pack has an MHD object, the generator leaves in every
    active cell a total energy consistent with the other variables it has
    set: [p0/(gamma-1)] with [p0 = 5/(12 pi)], plus the kinetic energy of
    the momenta over the density, plus the magnetic energy of the face
    fields averaged to the cell centre. *)
Theorem X3_orszag_tang_total_energy (pmbp : MeshBlockPack) (gamma : Real)
    (s0 : Mem) :
  pmhd_gamma pmbp = Some gamma ->
  exists s : Mem,
    OrszagTang_ pmbp s0 = Returned s
    /\ forall m k j i,
         0 <= m <= nmb_thispack pmbp - 1 ->
         ks (mb_cells pmbp) <= k <= ke (mb_cells pmbp) ->
         js (mb_cells pmbp) <= j <= je (mb_cells pmbp) ->
         is_ (mb_cells pmbp) <= i <= ie (mb_cells pmbp) ->
         u0 s m IEN k j i = total_energy (gamma - lit 1)%real s m k j i.
Proof.
  intros Hg. unfold OrszagTang_. rewrite Hg.
  eexists. split; [reflexivity|]. intros m k j i Hm Hk Hj Hi.
  apply (par_for4_reaches (keeps_energy (gamma - lit 1)%real))
    with (G := has_energy (gamma - lit 1)%real);
    [ intros s1 m' k' j' i' H; exact H
    | intros s1 s2 s3 H12 H23 m' k' j' i' H; apply H23, H12, H
    | intros; apply pgen_ot2_keeps_energy
    | intros; apply pgen_ot2_has_energy
    | intros m' k' j' i' s1 s2 H H12; apply H12, H
    | assumption .. ].
Qed.

End Facts.

(** C8 on the symbolic reals: cell [(j, i) = (3, 4)] of block 1. *)
Lemma C8_witness :
  exists s : Mem,
    OrszagTang_ Symbolic.pack Symbolic.unset = Returned s
    /\ u0 s 1 IDN 0 3 4
       = Symbolic.Div (Symbolic.Lit 25) (Symbolic.Mul (Symbolic.Lit 36) Symbolic.Pi)
    /\ b0_x3f s 1 0 3 4 = Symbolic.Lit 0.
Proof.
  destruct (C8_orszag_tang_initial_state Symbolic.pack
              (Symbolic.Div (Symbolic.Lit 5) (Symbolic.Lit 3)) Symbolic.unset eq_refl)
    as (s & Hret & _ & _ & Hcells).
  exists s. split; [exact Hret|].
  destruct (Hcells 1 0 3 4) as (Hd & _ & _ & _ & _ & _ & _ & _ & Hz & _);
    cbn; try lia.
  exact (conj Hd Hz).
Defined.

(** X3 on the symbolic reals: cell [(j, i) = (2, 2)] of block 0. *)
Lemma X3_witness :
  exists s : @Mem Symbolic.real_ops,
    OrszagTang_ Symbolic.pack Symbolic.unset = Returned s
    /\ u0 s 0 IEN 0 2 2
       = @total_energy Symbolic.real_ops (Symbolic.Sub (Symbolic.Div (Symbolic.Lit 5) (Symbolic.Lit 3))
                                    (Symbolic.Lit 1)) s 0 0 2 2.
Proof.
  destruct (X3_orszag_tang_total_energy Symbolic.pack
              (Symbolic.Div (Symbolic.Lit 5) (Symbolic.Lit 3)) Symbolic.unset eq_refl)
    as (s & Hret & Hcells).
  exists s. split; [exact Hret|].
  apply Hcells; cbn; lia.
Defined.

End OrszagTangTheory.

(** * Properties of the particle initialisation *)

Module PartStaticTurbTheory.
Import PartStaticTurb PartStaticTurbSpec.

(** ** Order on [Real] *)

Lemma SFcompare_swap (x y : Real) :
  SFcompare y x = option_map CompOpp (SFcompare x y).
Proof.
  destruct x as [sx|sx| |sx mx ex], y as [sy|sy| |sy my ey]; cbn;
    try reflexivity;
    try (destruct sx; reflexivity); try (destruct sy; reflexivity);
    try (destruct sx, sy; reflexivity).
  change (Pos.compare_cont Eq) with Pos.compare.
  destruct sx, sy; cbn; try reflexivity;
    rewrite (Z.compare_antisym ex ey);
    destruct (ex ?= ey); cbn; try reflexivity;
    rewrite (Pos.compare_antisym mx my);
    now destruct (Pos.compare mx my).
Qed.

Lemma SFcompare_none (x y : Real) :
  SFcompare x y = None -> x = S754_nan \/ y = S754_nan.
Proof.
  destruct x as [sx|sx| |sx mx ex], y as [sy|sy| |sy my ey]; cbn; auto;
    discriminate.
Qed.

Lemma SFcompare_self (x : Real) : x <> S754_nan -> SFcompare x x = Some Eq.
Proof.
  destruct x as [sx|sx| |sx mx ex]; cbn; intros H;
    try reflexivity; try contradiction.
  - now destruct sx.
  - destruct sx; rewrite Z.compare_refl, Pos.compare_cont_refl; reflexivity.
Qed.

Lemma Rle_numbers (x y : Real) : Rle x y -> x <> S754_nan /\ y <> S754_nan.
Proof.
  unfold Rle, SFleb. intros H. split; intros ->; [discriminate H|].
  destruct x; discriminate H.
Qed.

Lemma Rle_refl (x : Real) : x <> S754_nan -> Rle x x.
Proof. intros H. unfold Rle, SFleb. now rewrite SFcompare_self. Qed.

(** ** [fmin], [fmax] and the clamp they make *)

Lemma fmin_upper (v hi : Real) :
  hi <> S754_nan -> Rle (fmin v hi) hi /\ fmin v hi <> S754_nan.
Proof.
  intros Hhi. unfold fmin. destruct (SFcompare v hi) as [[| |]|] eqn:C.
  - split; [now apply Rle_refl|assumption].
  - split; [unfold Rle, SFleb; now rewrite C|].
    intros ->. discriminate C.
  - split; [now apply Rle_refl|assumption].
  - destruct (SFcompare_none _ _ C) as [->|E]; [|contradiction].
    cbn. split; [now apply Rle_refl|assumption].
Qed.

Lemma fmax_lower (t lo hi : Real) :
  t <> S754_nan -> Rle t hi -> Rle lo hi ->
  Rle lo (fmax t lo) /\ Rle (fmax t lo) hi.
Proof.
  intros Ht Hthi Hlohi. destruct (Rle_numbers _ _ Hlohi) as [Hlo _].
  unfold fmax. destruct (SFcompare t lo) as [[| |]|] eqn:C.
  - split; [now apply Rle_refl|assumption].
  - split; [now apply Rle_refl|assumption].
  - split; [|assumption].
    unfold Rle, SFleb. now rewrite SFcompare_swap, C.
  - destruct (SFcompare_none _ _ C); contradiction.
Qed.

(** Whatever [v] is, NaN included, [fmax (fmin v hi) lo] lies in
    [[lo, hi]] as soon as [lo <= hi]. *)
Lemma clamp_in_bounds (v lo hi : Real) :
  Rle lo hi -> Rle lo (fmax (fmin v hi) lo) /\ Rle (fmax (fmin v hi) lo) hi.
Proof.
  intros H. destruct (Rle_numbers _ _ H) as [_ Hhi].
  destruct (fmin_upper v hi Hhi) as [Hle Hnum].
  now apply fmax_lower.
Qed.

(** ** The kernel *)

Section Kernel.
Context {N : Numerics}.
Variable pmbp : MeshBlockPack.
Variables min_mass mass_log_spacing : Real.
Variables npart_spec nspecies_ : Z.

Hypothesis blocks : 1 <= nmb_thispack pmbp.
Hypothesis species : 1 <= nspecies_.
Hypothesis blocks_ordered :
  forall m, 0 <= m <= nmb_thispack pmbp - 1 -> ordered (mb_size pmbp m).

(** Name the results of the generator calls of the kernel. *)
Ltac name_draws :=
  repeat match goal with
         | |- context [get_state ?pool] => destruct (get_state pool)
         | |- context [frand ?g] => destruct (frand g)
         end.

(** Evaluate reads of the arrays after the kernel's assignments. *)
Ltac read_arrays :=
  unfold set_pr, set_pi;
  cbn [RealIndex_eqb IntIndex_eqb andb pr pi];
  rewrite ?Z.eqb_refl; cbn [andb].

(** The kernel puts its own particle in bounds. *)
Lemma part_update_in_bounds (p : Z) (s : KState) :
  let s' := part_update pmbp min_mass mass_log_spacing npart_spec nspecies_ p s in
  in_bounds pmbp nspecies_ (pr s') (pi s') p.
Proof.
  cbv zeta. unfold part_update. name_draws. unfold in_bounds.
  read_arrays.
  match goal with
  | |- context [Z.min (Z.max ?x 0) (nmb_thispack pmbp - 1)] =>
      set (m := Z.min (Z.max x 0) (nmb_thispack pmbp - 1))
  end.
  assert (Hm : 0 <= m <= nmb_thispack pmbp - 1) by (unfold m; lia).
  replace (gids pmbp + m - gids pmbp) with m by lia.
  destruct (blocks_ordered m Hm) as (O1 & O2 & O3).
  split; [lia|]. split; [lia|].
  repeat split; now apply clamp_in_bounds.
Qed.

(** The kernel for particle [q] leaves the other particles as they are. *)
Lemma part_update_keeps_others (q p : Z) (s : KState) :
  p <> q ->
  let s' := part_update pmbp min_mass mass_log_spacing npart_spec nspecies_ q s in
  (forall n, pi s' n p = pi s n p) /\ (forall n, pr s' n p = pr s n p).
Proof.
  intros Hpq. cbv zeta. unfold part_update. name_draws.
  unfold set_pr, set_pi. cbn [pr pi].
  replace (p =? q) with false by lia.
  split; intros n; now rewrite ?Bool.andb_false_r.
Qed.

Lemma part_update_keeps_bounds (q : Z) (s : KState) :
  keeps_bounds pmbp nspecies_ s
    (part_update pmbp min_mass mass_log_spacing npart_spec nspecies_ q s).
Proof.
  intros p Hp. destruct (Z.eq_dec p q) as [->|Hpq].
  - apply part_update_in_bounds.
  - destruct (part_update_keeps_others q p s Hpq) as (Ei & Er).
    unfold in_bounds in *. cbv zeta in *. now rewrite !Ei, !Er.
Qed.

Lemma par_for_part_update_in_bounds (npart p : Z) (s : KState) :
  0 <= p <= npart - 1 ->
  let s' := par_for1 0 (npart - 1)
              (part_update pmbp min_mass mass_log_spacing npart_spec nspecies_) s in
  in_bounds pmbp nspecies_ (pr s') (pi s') p.
Proof.
  intros Hp. cbv zeta. unfold par_for1.
  apply (fold_left_reaches (keeps_bounds pmbp nspecies_))
    with (G := fun p s => in_bounds pmbp nspecies_ (pr s) (pi s) p).
  - intros s1 q Hq. exact Hq.
  - intros s1 s2 s3 H12 H23 q Hq. apply H23, H12, Hq.
  - intros s1 q _. apply part_update_keeps_bounds.
  - intros s1 q _. apply part_update_in_bounds.
  - intros q s1 s2 Hq H12. apply H12, Hq.
  - now apply in_range.
Qed.




End Kernel.

(** C10.  After the particle initialisation of [UserProblem], on a pack
    with at least one block whose blocks all have lower bounds not above
    their upper bounds, and with at least one species (and a non-zero
    number of particles per species, as the integer division requires):
    every particle [p] in [0, npart-1] has its parent-block id [PGID] in
    [gids, gids + nmb - 1], its species [PSP] in [0, nspecies - 1], and each
    of [IPX], [IPY], [IPZ] within the bounds of its parent block; for every
    random-number generator, conversion and arithmetic (NaN results
    included). *)
Theorem C10_particles_initialised_in_bounds {N : Numerics}
    (pmbp : MeshBlockPack) (pp : Particles) (min_mass mass_log_spacing : Real) :
  ppart pmbp = Some pp ->
  1 <= nmb_thispack pmbp ->
  1 <= nspecies pp ->
  nprtcl_perspec_thispack pp <> 0 ->
  (forall m, 0 <= m <= nmb_thispack pmbp - 1 -> ordered (mb_size pmbp m)) ->
  exists pp' : Particles,
    UserProblem pmbp min_mass mass_log_spacing = Initialized pp'
    /\ nprtcl_thispack pp' = nprtcl_thispack pp
    /\ nspecies pp' = nspecies pp
    /\ forall p, 0 <= p <= nprtcl_thispack pp - 1 ->
         let pr := prtcl_rdata pp' in
         let pi := prtcl_idata pp' in
         gids pmbp <= pi PGID p <= gids pmbp + nmb_thispack pmbp - 1
         /\ 0 <= pi PSP p <= nspecies pp - 1
         /\ (let parent := mb_size pmbp (pi PGID p - gids pmbp) in
             Rle (x1min parent) (pr IPX p) /\ Rle (pr IPX p) (x1max parent)
             /\ Rle (x2min parent) (pr IPY p) /\ Rle (pr IPY p) (x2max parent)
             /\ Rle (x3min parent) (pr IPZ p) /\ Rle (pr IPZ p) (x3max parent)).
Proof.
  intros Hpp Hnmb Hnsp _ Hord. unfold UserProblem. rewrite Hpp.
  eexists. split; [reflexivity|]. cbn [nprtcl_thispack nspecies prtcl_rdata prtcl_idata].
  split; [reflexivity|]. split; [reflexivity|].
  intros p Hp.
  exact (par_for_part_update_in_bounds pmbp min_mass mass_log_spacing
           (nprtcl_perspec_thispack pp) (nspecies pp) Hnmb Hnsp Hord
           (nprtcl_thispack pp) p _ Hp).
Qed.



(** C10 on the binary64 numerics: particle 4 of the two-block pack. *)
Lemma C10_witness :
  exists pp' : Particles,
    @UserProblem Binary64.numerics Binary64.pack (Binary64.b64_lit 1 0) (Binary64.b64_lit 2 0)
    = Initialized pp'
    /\ 4 <= prtcl_idata pp' PGID 4 <= 5
    /\ 0 <= prtcl_idata pp' PSP 4 <= 1.
Proof.
  assert (Hord : forall m, 0 <= m <= nmb_thispack Binary64.pack - 1 ->
                 ordered (mb_size Binary64.pack m)).
  { cbn. intros m Hm. assert (m = 0 \/ m = 1) as [->| ->] by lia;
      repeat split. }
  destruct (@C10_particles_initialised_in_bounds Binary64.numerics Binary64.pack Binary64.particles
              (Binary64.b64_lit 1 0) (Binary64.b64_lit 2 0) eq_refl
              ltac:(cbn; lia) ltac:(cbn; lia) ltac:(cbn; lia) Hord)
    as (pp' & Hret & _ & _ & Hall).
  exists pp'. split; [exact Hret|].
  destruct (Hall 4 ltac:(cbn; lia)) as (Hg & Hs & _).
  exact (conj Hg Hs).
Defined.

End PartStaticTurbTheory.

(** * Further properties of [MHDCalcFlux]: data flow, work done, empty packs *)

Module FluxMore.
Import Flux FluxEvents.

Section Facts.
Context {K : Kernels}.
Variable pmhd : MHD.

(** ** What the solver is handed *)

(** Right after the reconstruction of an iteration, the right-arrays hold
    the second output of the selected reconstruction function. *)
Lemma right_is_reconstructed (m a n : Z) (t : Team ScrBuf) (s : Scheme) :
  selected_scheme (recon_method_ pmhd) = Some s ->
  scratch (flux2_recon pmhd m a n t) (wr (permute n))
    = snd (reconstruct s X2 m a n (is_ (mb_cells (pmy_pack pmhd)) - 1)
             (ie (mb_cells (pmy_pack pmhd)) + 1) (w0 pmhd)
             (scratch t (wl_jp1 (permute n))) (scratch t (wr (permute n))))
  /\ scratch (flux2_recon pmhd m a n t) (br (permute n))
    = snd (reconstruct s X2 m a n (is_ (mb_cells (pmy_pack pmhd)) - 1)
             (ie (mb_cells (pmy_pack pmhd)) + 1) (bcc0 pmhd)
             (scratch t (bl_jp1 (permute n))) (scratch t (br (permute n))))
  /\ scratch (flux3_recon pmhd m a n t) (wr (permute n))
    = snd (reconstruct s X3 m n a (is_ (mb_cells (pmy_pack pmhd)) - 1)
             (ie (mb_cells (pmy_pack pmhd)) + 1) (w0 pmhd)
             (scratch t (wl_kp1 (permute n))) (scratch t (wr (permute n))))
  /\ scratch (flux3_recon pmhd m a n t) (br (permute n))
    = snd (reconstruct s X3 m n a (is_ (mb_cells (pmy_pack pmhd)) - 1)
             (ie (mb_cells (pmy_pack pmhd)) + 1) (bcc0 pmhd)
             (scratch t (bl_kp1 (permute n))) (scratch t (br (permute n)))).
Proof.
  intros Hs. unfold flux2_recon, flux3_recon, recon_switch, wl_kp1, bl_kp1, permute.
  destruct (recon_method_ pmhd); cbn in Hs; inversion Hs; subst s;
    destruct (Z.rem n 2 =? 0); cbn; repeat split.
Qed.

(** The arrays a guarded solve leaves, when the guard holds and a solver
    is selected: the solver's results on the four arrays bound to [wl],
    [wr], [bl], [br]. *)
Lemma flux2_solve_result (m a n : Z) (t : Team ScrBuf) (slv : Solver) :
  selected_solver (rsolver_method_ pmhd) = Some slv ->
  js (mb_cells (pmy_pack pmhd)) - 1 < n ->
  (flux2 (world (flux2_solve pmhd m a n t)), emf_x2 (world (flux2_solve pmhd m a n t)))
  = rsolve slv (eos_data pmhd) m a n (is_ (mb_cells (pmy_pack pmhd)) - 1)
      (ie (mb_cells (pmy_pack pmhd)) + 1) IVY
      (scratch t (wl (permute n))) (scratch t (wr (permute n)))
      (scratch t (bl (permute n))) (scratch t (br (permute n)))
      (x2f (b0 pmhd)) (flux2 (world t)) (emf_x2 (world t)).
Proof.
  intros Hslv Hn. unfold flux2_solve, rsolve_switch.
  replace (n >? _) with true by lia.
  destruct (rsolver_method_ pmhd); cbn in Hslv; inversion Hslv; subst slv; cbn;
    now destruct (rsolve _ _ _ _ _ _ _ _ _ _ _ _ _ _ _).
Qed.

Lemma flux3_solve_result (m a n : Z) (t : Team ScrBuf) (slv : Solver) :
  selected_solver (rsolver_method_ pmhd) = Some slv ->
  ks (mb_cells (pmy_pack pmhd)) - 1 < n ->
  (flux3 (world (flux3_solve pmhd m a n t)), emf_x3 (world (flux3_solve pmhd m a n t)))
  = rsolve slv (eos_data pmhd) m n a (is_ (mb_cells (pmy_pack pmhd)) - 1)
      (ie (mb_cells (pmy_pack pmhd)) + 1) IVZ
      (scratch t (wl (permute n))) (scratch t (wr (permute n)))
      (scratch t (bl (permute n))) (scratch t (br (permute n)))
      (x3f (b0 pmhd)) (flux3 (world t)) (emf_x3 (world t)).
Proof.
  intros Hslv Hn. unfold flux3_solve, rsolve_switch.
  replace (n >? _) with true by lia.
  destruct (rsolver_method_ pmhd); cbn in Hslv; inversion Hslv; subst slv; cbn;
    now destruct (rsolve _ _ _ _ _ _ _ _ _ _ _ _ _ _ _).
Qed.

Lemma arrays_fields (w w' : World) :
  arrays w = arrays w' ->
  flux1 w = flux1 w' /\ flux2 w = flux2 w' /\ flux3 w = flux3 w'
  /\ emf_x1 w = emf_x1 w' /\ emf_x2 w = emf_x2 w' /\ emf_x3 w = emf_x3 w'.
Proof. unfold arrays. intros [= H1 H2 H3 H4 H5 H6]. auto 7. Qed.

Lemma arrays_flux2_recon (m a n : Z) (t : Team ScrBuf) :
  arrays (world (flux2_recon pmhd m a n t)) = arrays (world t).
Proof.
  unfold flux2_recon.
  now rewrite FluxTheory.arrays_team_barrier, FluxTheory.arrays_recon_switch.
Qed.

Lemma arrays_flux3_recon (m a n : Z) (t : Team ScrBuf) :
  arrays (world (flux3_recon pmhd m a n t)) = arrays (world t).
Proof.
  unfold flux3_recon.
  now rewrite FluxTheory.arrays_team_barrier, FluxTheory.arrays_recon_switch.
Qed.

Lemma scratch_flux2_step (m a n : Z) (t : Team ScrBuf) :
  scratch (flux2_step pmhd m a n t) = scratch (flux2_recon pmhd m a n t).
Proof. apply FluxTheory.scratch_flux2_solve. Qed.

Lemma scratch_flux3_step (m a n : Z) (t : Team ScrBuf) :
  scratch (flux3_step pmhd m a n t) = scratch (flux3_recon pmhd m a n t).
Proof. apply FluxTheory.scratch_flux3_solve. Qed.

(** The arrays a solving iteration leaves: the solver's results on the
    arrays as they stand after the iteration's reconstruction. *)
Lemma flux2_step_result (m a n : Z) (t : Team ScrBuf) (slv : Solver) :
  selected_solver (rsolver_method_ pmhd) = Some slv ->
  js (mb_cells (pmy_pack pmhd)) - 1 < n ->
  (flux2 (world (flux2_step pmhd m a n t)), emf_x2 (world (flux2_step pmhd m a n t)))
  = rsolve slv (eos_data pmhd) m a n (is_ (mb_cells (pmy_pack pmhd)) - 1)
      (ie (mb_cells (pmy_pack pmhd)) + 1) IVY
      (scratch (flux2_recon pmhd m a n t) (wl (permute n)))
      (scratch (flux2_recon pmhd m a n t) (wr (permute n)))
      (scratch (flux2_recon pmhd m a n t) (bl (permute n)))
      (scratch (flux2_recon pmhd m a n t) (br (permute n)))
      (x2f (b0 pmhd)) (flux2 (world t)) (emf_x2 (world t)).
Proof.
  intros Hslv Hn. unfold flux2_step.
  rewrite (flux2_solve_result m a n _ slv Hslv Hn).
  destruct (arrays_fields _ _ (arrays_flux2_recon m a n t)) as (_ & A2 & _ & _ & A5 & _).
  now rewrite A2, A5.
Qed.

Lemma flux3_step_result (m a n : Z) (t : Team ScrBuf) (slv : Solver) :
  selected_solver (rsolver_method_ pmhd) = Some slv ->
  ks (mb_cells (pmy_pack pmhd)) - 1 < n ->
  (flux3 (world (flux3_step pmhd m a n t)), emf_x3 (world (flux3_step pmhd m a n t)))
  = rsolve slv (eos_data pmhd) m n a (is_ (mb_cells (pmy_pack pmhd)) - 1)
      (ie (mb_cells (pmy_pack pmhd)) + 1) IVZ
      (scratch (flux3_recon pmhd m a n t) (wl (permute n)))
      (scratch (flux3_recon pmhd m a n t) (wr (permute n)))
      (scratch (flux3_recon pmhd m a n t) (bl (permute n)))
      (scratch (flux3_recon pmhd m a n t) (br (permute n)))
      (x3f (b0 pmhd)) (flux3 (world t)) (emf_x3 (world t)).
Proof.
  intros Hslv Hn. unfold flux3_step.
  rewrite (flux3_solve_result m a n _ slv Hslv Hn).
  destruct (arrays_fields _ _ (arrays_flux3_recon m a n t)) as (_ & _ & A3 & _ & _ & A6).
  now rewrite A3, A6.
Qed.

(** X5.  Data flow of the ping-pong sweeps.  With a reconstruction scheme
    and a solver selected, take any iteration [n] of the direction-2 loop
    that is followed by a solving iteration [n+1].  The solver call of
    iteration [n+1] is handed, as left states, the left outputs of the
    reconstruction calls of iteration [n] (on W and on Bcc), and, as right
    states, the right outputs of the reconstruction calls of iteration [n+1];
    its results become [flux2] and [emf_x2].  Likewise for the direction-3
    loop with [flux3] and [emf_x3]. *)
Theorem X5_solver_gets_left_of_previous_and_right_of_current
    (m a n : Z) (t : Team ScrBuf) (s : Scheme) (slv : Solver) :
  selected_scheme (recon_method_ pmhd) = Some s ->
  selected_solver (rsolver_method_ pmhd) = Some slv ->
  let c := mb_cells (pmy_pack pmhd) in
  let p := permute n in
  let p' := permute (n + 1) in
  (js c - 1 <= n ->
   let t1 := flux2_step pmhd m a n t in
   let left_w := fst (reconstruct s X2 m a n (is_ c - 1) (ie c + 1) (w0 pmhd)
                        (scratch t (wl_jp1 p)) (scratch t (wr p))) in
   let left_b := fst (reconstruct s X2 m a n (is_ c - 1) (ie c + 1) (bcc0 pmhd)
                        (scratch t (bl_jp1 p)) (scratch t (br p))) in
   let right_w := snd (reconstruct s X2 m a (n + 1) (is_ c - 1) (ie c + 1) (w0 pmhd)
                         (scratch t1 (wl_jp1 p')) (scratch t1 (wr p'))) in
   let right_b := snd (reconstruct s X2 m a (n + 1) (is_ c - 1) (ie c + 1) (bcc0 pmhd)
                         (scratch t1 (bl_jp1 p')) (scratch t1 (br p'))) in
   (flux2 (world (flux2_step pmhd m a (n + 1) t1)),
    emf_x2 (world (flux2_step pmhd m a (n + 1) t1)))
   = rsolve slv (eos_data pmhd) m a (n + 1) (is_ c - 1) (ie c + 1) IVY
       left_w right_w left_b right_b
       (x2f (b0 pmhd)) (flux2 (world t1)) (emf_x2 (world t1)))
  /\ (ks c - 1 <= n ->
      let t1 := flux3_step pmhd m a n t in
      let left_w := fst (reconstruct s X3 m n a (is_ c - 1) (ie c + 1) (w0 pmhd)
                           (scratch t (wl_kp1 p)) (scratch t (wr p))) in
      let left_b := fst (reconstruct s X3 m n a (is_ c - 1) (ie c + 1) (bcc0 pmhd)
                           (scratch t (bl_kp1 p)) (scratch t (br p))) in
      let right_w := snd (reconstruct s X3 m (n + 1) a (is_ c - 1) (ie c + 1) (w0 pmhd)
                            (scratch t1 (wl_kp1 p')) (scratch t1 (wr p'))) in
      let right_b := snd (reconstruct s X3 m (n + 1) a (is_ c - 1) (ie c + 1) (bcc0 pmhd)
                            (scratch t1 (bl_kp1 p')) (scratch t1 (br p'))) in
      (flux3 (world (flux3_step pmhd m a (n + 1) t1)),
       emf_x3 (world (flux3_step pmhd m a (n + 1) t1)))
      = rsolve slv (eos_data pmhd) m (n + 1) a (is_ c - 1) (ie c + 1) IVZ
          left_w right_w left_b right_b
          (x3f (b0 pmhd)) (flux3 (world t1)) (emf_x3 (world t1))).
Proof.
  intros Hs Hslv. cbv zeta.
  destruct (FluxTheory.permute_succ n) as [Ew Eb].
  split; intros Hn.
  - destruct (FluxTheory.next_is_reconstructed pmhd m a n t s Hs) as (Lw & Lb & _ & _).
    destruct (right_is_reconstructed m a (n + 1) (flux2_step pmhd m a n t) s Hs)
      as (Rw & Rb & _ & _).
    rewrite (flux2_step_result m a (n + 1) _ slv Hslv) by lia.
    rewrite Rw, Rb.
    rewrite (FluxTheory.left_survives_flux2_recon pmhd m a (n + 1) _ (wl (permute (n + 1))))
      by auto.
    rewrite (FluxTheory.left_survives_flux2_recon pmhd m a (n + 1) _ (bl (permute (n + 1))))
      by auto.
    rewrite !scratch_flux2_step, Ew, Eb, Lw, Lb. reflexivity.
  - destruct (FluxTheory.next_is_reconstructed pmhd m a n t s Hs) as (_ & _ & Lw & Lb).
    destruct (right_is_reconstructed m a (n + 1) (flux3_step pmhd m a n t) s Hs)
      as (_ & _ & Rw & Rb).
    rewrite (flux3_step_result m a (n + 1) _ slv Hslv) by lia.
    rewrite Rw, Rb.
    rewrite (FluxTheory.left_survives_flux3_recon pmhd m a (n + 1) _ (wl (permute (n + 1))))
      by auto.
    rewrite (FluxTheory.left_survives_flux3_recon pmhd m a (n + 1) _ (bl (permute (n + 1))))
      by auto.
    unfold wl_kp1, bl_kp1 in *.
    rewrite !scratch_flux3_step, Ew, Eb, Lw, Lb. reflexivity.
Qed.

(** ** Reconstruction work *)

Lemma recon_calls_x2_step m k j :
  recon_calls (x2_step_events pmhd m k j)
  = recon_events pmhd X2 m k j (is_ (mb_cells (pmy_pack pmhd)) - 1)
      (ie (mb_cells (pmy_pack pmhd)) + 1).
Proof.
  unfold x2_step_events. rewrite !FluxTheory.recon_calls_app.
  rewrite (proj2 (proj2 (proj2 (FluxTheory.readings_recon_events pmhd _ _ _ _ _ _)))).
  destruct (j >? _); cbn [recon_calls filter is_recon];
    rewrite ?(proj1 (proj2 (proj2 (FluxTheory.readings_solve_events pmhd _ _ _ _ _ _))));
    now rewrite ?app_nil_r.
Qed.

Lemma recon_calls_x3_step m j k :
  recon_calls (x3_step_events pmhd m j k)
  = recon_events pmhd X3 m k j (is_ (mb_cells (pmy_pack pmhd)) - 1)
      (ie (mb_cells (pmy_pack pmhd)) + 1).
Proof.
  unfold x3_step_events. rewrite !FluxTheory.recon_calls_app.
  rewrite (proj2 (proj2 (proj2 (FluxTheory.readings_recon_events pmhd _ _ _ _ _ _)))).
  destruct (k >? _); cbn [recon_calls filter is_recon];
    rewrite ?FluxTheory.recon_calls_app,
            ?(proj1 (proj2 (proj2 (FluxTheory.readings_solve_events pmhd _ _ _ _ _ _))));
    cbn [recon_calls filter is_recon app]; now rewrite ?app_nil_r.
Qed.

(** X6.  With a reconstruction scheme selected, a unit of the direction-2
    sweep calls the reconstruction function exactly once on W and once on
    Bcc for each [j] of [js-1 .. je+1], in increasing [j], each call over
    the cells [is-1 .. ie+1]; no line is reconstructed twice.  A unit of the
    direction-3 sweep does the same for each [k] of [ks-1 .. ke+1]. *)
Theorem X6_each_line_is_reconstructed_once (nvars ncells1 m a : Z) (w : World)
    (s : Scheme) :
  selected_scheme (recon_method_ pmhd) = Some s ->
  let c := mb_cells (pmy_pack pmhd) in
  recon_calls (trace (flux2_unit pmhd nvars ncells1 m a w))
  = recon_calls (trace w)
    ++ flat_map (fun j => [EvRecon s X2 W0 m a j (is_ c - 1) (ie c + 1);
                           EvRecon s X2 Bcc0 m a j (is_ c - 1) (ie c + 1)])
                (range (js c - 1) (je c + 1))
  /\ recon_calls (trace (flux3_unit pmhd nvars ncells1 m a w))
     = recon_calls (trace w)
       ++ flat_map (fun k => [EvRecon s X3 W0 m k a (is_ c - 1) (ie c + 1);
                              EvRecon s X3 Bcc0 m k a (is_ c - 1) (ie c + 1)])
                   (range (ks c - 1) (ke c + 1)).
Proof.
  intros Hs. cbv zeta. split.
  - rewrite FluxTheory.trace_flux2_unit. unfold x2_unit_events, six_scratch_events.
    unfold recon_calls. rewrite !filter_app. cbn [filter is_recon app].
    f_equal. rewrite filter_flat_map. apply flat_map_same_in. intros j _.
    etransitivity; [apply recon_calls_x2_step|].
    unfold recon_events. now rewrite Hs.
  - rewrite FluxTheory.trace_flux3_unit. unfold x3_unit_events, six_scratch_events.
    unfold recon_calls. rewrite !filter_app. cbn [filter is_recon app].
    f_equal. rewrite filter_flat_map. apply flat_map_same_in. intros k _.
    etransitivity; [apply recon_calls_x3_step|].
    unfold recon_events. now rewrite Hs.
Qed.

(** ** A pack without blocks *)

(** X7.  On a pack with no mesh block ([nmb_thispack <= 0]) [MHDCalcFlux]
    still dispatches the kernels of the meshed directions, but no unit runs:
    no scratch array is constructed, no reconstruction function or solver is
    called, no flux or EMF array is written, and [complete] is returned. *)
Theorem X7_no_blocks_no_work (nmhd_local : Z) (w : World) :
  nmb_thispack (pmy_pack pmhd) <= 0 ->
  let r := MHDCalcFlux pmhd nmhd_local w in
  let nvars := nvars_of pmhd nmhd_local in
  let ncells1 := ncells1_of pmhd in
  fst r = complete
  /\ arrays (snd r) = arrays w
  /\ trace (snd r)
     = trace w
       ++ EvLaunch "mhd_flux_x1" (scr_size_for nvars ncells1 2)
          :: (if nx2gt1 (pmy_pack pmhd)
              then EvLaunch "mhd_flux2" (scr_size_for nvars ncells1 3)
                   :: (if nx3gt1 (pmy_pack pmhd)
                       then [EvLaunch "divflux_x3" (scr_size_for nvars ncells1 3)]
                       else [])
              else []).
Proof.
  intros Hn. cbv zeta. rewrite FluxTheory.MHDCalcFlux_paths. cbn [fst snd].
  unfold sweep_x1, sweep_x2, sweep_x3, par_for_outer3, par_for_outer2.
  rewrite (range_empty 0) by lia. cbn [fold_left].
  destruct (nx2gt1 (pmy_pack pmhd)), (nx3gt1 (pmy_pack pmhd));
    cbn; rewrite <- ?app_assoc; auto.
Qed.

End Facts.

Import Recording.

(** X5 on the recording kernels, iterations [n = 1] and [n + 1 = 2] of the
    direction-2 loop: the solve of [j = 2] gets the left states
    reconstructed at [j = 1] and the right states reconstructed at [j = 2]. *)
Lemma X5_witness :
  (flux2 (world (flux2_step (mhd true false plm llf) 0 0 (1 + 1)
                   (flux2_step (mhd true false plm llf) 0 0 1
                      (six_scratch 8 6 blank)))),
   emf_x2 (world (flux2_step (mhd true false plm llf) 0 0 (1 + 1)
                    (flux2_step (mhd true false plm llf) 0 0 1
                       (six_scratch 8 6 blank)))))
  = ([(LLF_fn, (0, 0, 2), (1, 4), (LeftState X2 W0 0 0 1, RightState X2 W0 0 0 2))],
     [(LLF_fn, (0, 0, 2), (1, 4), (LeftState X2 Bcc0 0 0 1, RightState X2 Bcc0 0 0 2))]).
Proof.
  pose proof (proj1 (X5_solver_gets_left_of_previous_and_right_of_current
                       (mhd true false plm llf) 0 0 1 (six_scratch 8 6 blank)
                       PiecewiseLinear LLF_fn eq_refl eq_refl)) as H.
  cbv zeta in H. specialize (H ltac:(cbn; lia)).
  exact (eq_trans H eq_refl).
Defined.

(** X6 on a block with [js = 2], [je = 3]: lines [j = 1 .. 4]. *)
Lemma X6_witness :
  recon_calls (trace (flux2_unit (mhd true false plm llf) 8 6 0 0 blank))
  = [EvRecon PiecewiseLinear X2 W0 0 0 1 1 4; EvRecon PiecewiseLinear X2 Bcc0 0 0 1 1 4;
     EvRecon PiecewiseLinear X2 W0 0 0 2 1 4; EvRecon PiecewiseLinear X2 Bcc0 0 0 2 1 4;
     EvRecon PiecewiseLinear X2 W0 0 0 3 1 4; EvRecon PiecewiseLinear X2 Bcc0 0 0 3 1 4;
     EvRecon PiecewiseLinear X2 W0 0 0 4 1 4; EvRecon PiecewiseLinear X2 Bcc0 0 0 4 1 4].
Proof.
  exact (eq_trans
           (proj1 (X6_each_line_is_reconstructed_once (mhd true false plm llf)
                     8 6 0 0 blank PiecewiseLinear eq_refl))
           eq_refl).
Defined.

(** X7 on a three-dimensional mesh whose pack has no block. *)
Lemma X7_witness :
  arrays (snd (MHDCalcFlux NoBlocks.mhd 8 blank)) = arrays blank
  /\ trace (snd (MHDCalcFlux NoBlocks.mhd 8 blank))
     = [EvLaunch "mhd_flux_x1" 1056; EvLaunch "mhd_flux2" 1584;
        EvLaunch "divflux_x3" 1584].
Proof.
  pose proof (X7_no_blocks_no_work NoBlocks.mhd 8 blank ltac:(cbn; lia)) as H.
  cbv zeta in H. destruct H as (_ & Ha & Ht).
  exact (conj Ha (eq_trans Ht eq_refl)).
Defined.

End FluxMore.

(** * Further properties of the Orszag-Tang generator *)

Module OrszagTangMore.
Import OrszagTang OrszagTangSpec OrszagTangRegion.

Section Facts.
Context {R : RealOps}.

Ltac index_cases :=
  repeat match goal with
         | |- context [Z.eqb ?a ?b] =>
             destruct (Z.eqb_spec a b); try (exfalso; lia); subst; cbn [andb]
         end.

(** A dispatch whose body is related to the identity on the indices of
    its ranges is itself related to the identity. *)
Lemma par_for4_rel_in {S : Type} (Rel : S -> S -> Prop)
    (ml mu kl ku jl ju il iu : Z) (body : Z -> Z -> Z -> Z -> S -> S) :
  (forall s, Rel s s) ->
  (forall s1 s2 s3, Rel s1 s2 -> Rel s2 s3 -> Rel s1 s3) ->
  (forall m k j i s,
      ml <= m <= mu -> kl <= k <= ku -> jl <= j <= ju -> il <= i <= iu ->
      Rel s (body m k j i s)) ->
  forall s, Rel s (par_for4 ml mu kl ku jl ju il iu body s).
Proof.
  intros Hrefl Htrans Hbody s. unfold par_for4.
  apply fold_left_rel; auto. intros s1 m Hm.
  apply fold_left_rel; auto. intros s2 k Hk.
  apply fold_left_rel; auto. intros s3 j Hj.
  apply fold_left_rel; auto. intros s4 i Hi.
  apply Hbody; now apply in_range.
Qed.

Section Kernels.
Variable pmbp : MeshBlockPack.

Lemma same_outside_refl (s : Mem) : same_outside pmbp s s.
Proof. unfold same_outside. repeat split; auto. Qed.

Lemma same_outside_trans (s1 s2 s3 : Mem) :
  same_outside pmbp s1 s2 -> same_outside pmbp s2 s3 -> same_outside pmbp s1 s3.
Proof.
  intros (U12 & X12 & Y12 & Z12) (U23 & X23 & Y23 & Z23).
  unfold same_outside. repeat split; intros.
  - rewrite U23, U12; auto.
  - rewrite X23, X12; auto.
  - rewrite Y23, Y12; auto.
  - rewrite Z23, Z12; auto.
Qed.

Lemma pgen_ot1_same_outside m k j i (s : Mem) :
  active pmbp m k j i -> same_outside pmbp s (pgen_ot1 pmbp m k j i s).
Proof.
  intros (Hm & Hk & Hj & Hi).
  unfold same_outside, pgen_ot1. cbn [u0 b0_x1f b0_x2f b0_x3f]. repeat split.
  - intros m' n' k' j' i' Hout. unfold set5, IDN, IM1, IM2, IM3, IEN in *.
    index_cases; try reflexivity; exfalso; apply Hout; unfold active; lia.
  - intros m' k' j' i' Hout. unfold set4.
    index_cases; try reflexivity; exfalso; apply Hout;
      unfold x1_face_of_active; lia.
  - intros m' k' j' i' Hout. unfold set4.
    index_cases; try reflexivity; exfalso; apply Hout;
      unfold x2_face_of_active; lia.
  - intros m' k' j' i' Hout. unfold set4.
    index_cases; try reflexivity; exfalso; apply Hout;
      unfold x3_face_of_active; lia.
Qed.

Lemma pgen_ot2_same_outside gm1 m k j i (s : Mem) :
  active pmbp m k j i -> same_outside pmbp s (pgen_ot2 gm1 m k j i s).
Proof.
  intros Ha. unfold same_outside, pgen_ot2. cbn [u0 b0_x1f b0_x2f b0_x3f].
  repeat split; auto.
  intros m' n' k' j' i' Hout. unfold set5, IDN, IEN in *.
  index_cases; try reflexivity. exfalso. apply Hout. split; [exact Ha|lia].
Qed.

End Kernels.

(** X8.  The generator writes the active cells of the blocks of the pack
    and their faces, and nothing else: every element of [u0] outside the
    active cells (or outside the rows [IDN .. IEN]) and every element of
    [b0.x1f], [b0.x2f], [b0.x3f] that is not a face of an active cell -
    ghost zones in particular - is left as it was. *)
Theorem X8_orszag_tang_leaves_ghost_zones (pmbp : MeshBlockPack) (gamma : Real)
    (s0 : Mem) :
  pmhd_gamma pmbp = Some gamma ->
  exists s : Mem,
    OrszagTang_ pmbp s0 = Returned s
    /\ (forall m n k j i,
          ~ (active pmbp m k j i /\ IDN <= n <= IEN) ->
          u0 s m n k j i = u0 s0 m n k j i)
    /\ (forall m k j i,
          ~ x1_face_of_active pmbp m k j i -> b0_x1f s m k j i = b0_x1f s0 m k j i)
    /\ (forall m k j i,
          ~ x2_face_of_active pmbp m k j i -> b0_x2f s m k j i = b0_x2f s0 m k j i)
    /\ (forall m k j i,
          ~ x3_face_of_active pmbp m k j i -> b0_x3f s m k j i = b0_x3f s0 m k j i).
Proof.
  intros Hg. unfold OrszagTang_. rewrite Hg.
  eexists. split; [reflexivity|].
  set (s1 := mkMem _ (u0 s0) (b0_x1f s0) (b0_x2f s0) (b0_x3f s0)).
  change (same_outside pmbp s1
            (par_for4 0 (nmb_thispack pmbp - 1) (ks (mb_cells pmbp)) (ke (mb_cells pmbp))
               (js (mb_cells pmbp)) (je (mb_cells pmbp))
               (is_ (mb_cells pmbp)) (ie (mb_cells pmbp))
               (pgen_ot2 (gamma - lit 1)%real)
               (par_for4 0 (nmb_thispack pmbp - 1) (ks (mb_cells pmbp)) (ke (mb_cells pmbp))
                  (js (mb_cells pmbp)) (je (mb_cells pmbp))
                  (is_ (mb_cells pmbp)) (ie (mb_cells pmbp)) (pgen_ot1 pmbp) s1))).
  apply same_outside_trans with
    (par_for4 0 (nmb_thispack pmbp - 1) (ks (mb_cells pmbp)) (ke (mb_cells pmbp))
       (js (mb_cells pmbp)) (je (mb_cells pmbp))
       (is_ (mb_cells pmbp)) (ie (mb_cells pmbp)) (pgen_ot1 pmbp) s1).
  - apply (par_for4_rel_in (same_outside pmbp));
      [apply same_outside_refl | apply same_outside_trans|].
    intros. apply pgen_ot1_same_outside. unfold active. auto.
  - apply (par_for4_rel_in (same_outside pmbp));
      [apply same_outside_refl | apply same_outside_trans|].
    intros. apply pgen_ot2_same_outside. unfold active. auto.
Qed.

(** ** What the two kernels leave in an active cell *)

Section AfterKernels.
Variable pmbp : MeshBlockPack.
Variable gm1 : Real.
Variable s1 : Mem.

Let s2 : Mem :=
  par_for4 0 (nmb_thispack pmbp - 1) (ks (mb_cells pmbp)) (ke (mb_cells pmbp))
    (js (mb_cells pmbp)) (je (mb_cells pmbp))
    (is_ (mb_cells pmbp)) (ie (mb_cells pmbp)) (pgen_ot1 pmbp) s1.

Let s3 : Mem :=
  par_for4 0 (nmb_thispack pmbp - 1) (ks (mb_cells pmbp)) (ke (mb_cells pmbp))
    (js (mb_cells pmbp)) (je (mb_cells pmbp))
    (is_ (mb_cells pmbp)) (ie (mb_cells pmbp)) (pgen_ot2 gm1) s2.

Lemma first_kernel_filled m k j i : active pmbp m k j i -> filled pmbp m k j i s2.
Proof.
  intros (Hm & Hk & Hj & Hi). unfold s2.
  apply (OrszagTangTheory.par_for4_reaches (fills pmbp)
           (OrszagTangTheory.fills_refl pmbp) (OrszagTangTheory.fills_trans pmbp));
    auto.
  - apply OrszagTangTheory.pgen_ot1_fills.
  - apply OrszagTangTheory.pgen_ot1_filled.
  - apply OrszagTangTheory.filled_stable.
Qed.

Lemma first_kernel_B0 : B0 s2 = B0 s1.
Proof.
  unfold s2.
  apply (OrszagTangTheory.par_for4_rel (fun s s' => B0 s' = B0 s)); auto.
  intros; congruence.
Qed.

Lemma second_kernel_same : same_but_energy s2 s3.
Proof.
  unfold s3.
  apply (OrszagTangTheory.par_for4_rel same_but_energy);
    [ apply OrszagTangTheory.same_but_energy_refl
    | apply OrszagTangTheory.same_but_energy_trans
    | intros; apply OrszagTangTheory.pgen_ot2_same_but_energy ].
Qed.

Lemma second_kernel_energy m k j i :
  active pmbp m k j i -> has_energy gm1 m k j i s3.
Proof.
  intros (Hm & Hk & Hj & Hi). unfold s3.
  apply (OrszagTangTheory.par_for4_reaches (keeps_energy gm1))
    with (G := has_energy gm1);
    [ intros s m' k' j' i' H; exact H
    | intros sa sb sc H12 H23 m' k' j' i' H; apply H23, H12, H
    | intros; apply OrszagTangTheory.pgen_ot2_keeps_energy
    | intros; apply OrszagTangTheory.pgen_ot2_has_energy
    | intros m' k' j' i' sa sb H H12; apply H12, H
    | assumption .. ].
Qed.

(** The variables other than the energy, and the six faces, of an active
    cell after both kernels. *)
Lemma active_cell_values m k j i :
  active pmbp m k j i ->
  (forall n, IDN <= n <= IM3 -> u0 s3 m n k j i = conserved pmbp n m j i)
  /\ b0_x1f s3 m k j i = curl_x1 pmbp (B0 s1) m j i
  /\ b0_x1f s3 m k j (i + 1) = curl_x1 pmbp (B0 s1) m j (i + 1)
  /\ b0_x2f s3 m k j i = curl_x2 pmbp (B0 s1) m j i
  /\ b0_x2f s3 m k (j + 1) i = curl_x2 pmbp (B0 s1) m (j + 1) i
  /\ b0_x3f s3 m k j i = lit 0
  /\ b0_x3f s3 m (k + 1) j i = lit 0.
Proof.
  intros Ha. destruct second_kernel_same as (_ & U23 & X23 & Y23 & Z23).
  assert (F : forall k' j' i', active pmbp m k' j' i' ->
            (forall n, IDN <= n <= IM3 -> u0 s2 m n k' j' i' = conserved pmbp n m j' i')
            /\ b0_x1f s2 m k' j' i' = curl_x1 pmbp (B0 s1) m j' i'
            /\ (i' = ie (mb_cells pmbp) ->
                b0_x1f s2 m k' j' (i' + 1) = curl_x1 pmbp (B0 s1) m j' (i' + 1))
            /\ b0_x2f s2 m k' j' i' = curl_x2 pmbp (B0 s1) m j' i'
            /\ (j' = je (mb_cells pmbp) ->
                b0_x2f s2 m k' (j' + 1) i' = curl_x2 pmbp (B0 s1) m (j' + 1) i')
            /\ b0_x3f s2 m k' j' i' = lit 0
            /\ (k' = ke (mb_cells pmbp) -> b0_x3f s2 m (k' + 1) j' i' = lit 0)).
  { intros k' j' i' H. pose proof (first_kernel_filled m k' j' i' H) as H'.
    unfold filled in H'. rewrite first_kernel_B0 in H'. exact H'. }
  destruct (F k j i Ha) as (U & X & Xe & Y & Ye & Z & Ze).
  destruct Ha as (Hm & Hk & Hj & Hi).
  rewrite !X23, !Y23, !Z23.
  repeat split; auto.
  - intros n Hn. rewrite U23 by (unfold IDN, IM3, IEN in *; lia). now apply U.
  - destruct (Z.eq_dec i (ie (mb_cells pmbp))) as [Ei|Ni]; [now apply Xe|].
    apply (F k j (i + 1)). unfold active. lia.
  - destruct (Z.eq_dec j (je (mb_cells pmbp))) as [Ej|Nj]; [now apply Ye|].
    apply (F k (j + 1) i). unfold active. lia.
  - destruct (Z.eq_dec k (ke (mb_cells pmbp))) as [Ek|Nk]; [now apply Ze|].
    apply (F (k + 1) j i). unfold active. lia.
Qed.

End AfterKernels.

(** X9.  What the generator leaves in the active cells does not depend on
    what the memory held before: started on any two memories, it leaves the
    same [B0], the same five conserved variables in every active cell, and
    the same field on the six faces of every active cell. *)
Theorem X9_orszag_tang_overwrites_prior_memory (pmbp : MeshBlockPack)
    (gamma : Real) (s0 s0' : Mem) :
  pmhd_gamma pmbp = Some gamma ->
  exists s s' : Mem,
    OrszagTang_ pmbp s0 = Returned s
    /\ OrszagTang_ pmbp s0' = Returned s'
    /\ B0 s = B0 s'
    /\ forall m k j i,
         active pmbp m k j i ->
         (forall n, IDN <= n <= IEN -> u0 s m n k j i = u0 s' m n k j i)
         /\ b0_x1f s m k j i = b0_x1f s' m k j i
         /\ b0_x1f s m k j (i + 1) = b0_x1f s' m k j (i + 1)
         /\ b0_x2f s m k j i = b0_x2f s' m k j i
         /\ b0_x2f s m k (j + 1) i = b0_x2f s' m k (j + 1) i
         /\ b0_x3f s m k j i = b0_x3f s' m k j i
         /\ b0_x3f s m (k + 1) j i = b0_x3f s' m (k + 1) j i.
Proof.
  intros Hg. unfold OrszagTang_. rewrite Hg.
  do 2 eexists. split; [reflexivity|]. split; [reflexivity|].
  set (a := mkMem _ (u0 s0) (b0_x1f s0) (b0_x2f s0) (b0_x3f s0)).
  set (b := mkMem _ (u0 s0') (b0_x1f s0') (b0_x2f s0') (b0_x3f s0')).
  split.
  { rewrite (proj1 (second_kernel_same pmbp _ a)), (proj1 (second_kernel_same pmbp _ b)).
    now rewrite !first_kernel_B0. }
  intros m k j i Ha.
  destruct (active_cell_values pmbp (gamma - lit 1)%real a m k j i Ha)
    as (U & X & Xp & Y & Yp & Z & Zp).
  destruct (active_cell_values pmbp (gamma - lit 1)%real b m k j i Ha)
    as (U' & X' & Xp' & Y' & Yp' & Z' & Zp').
  pose proof (second_kernel_energy pmbp (gamma - lit 1)%real a m k j i Ha) as E.
  pose proof (second_kernel_energy pmbp (gamma - lit 1)%real b m k j i Ha) as E'.
  split; [|rewrite X, X', Xp, Xp', Y, Y', Yp, Yp', Z, Z', Zp, Zp'; repeat split].
  intros n Hn. destruct (Z.eq_dec n IEN) as [->|Hne].
  - unfold has_energy in E, E'. rewrite E, E'. unfold total_energy.
    rewrite X, X', Xp, Xp', Y, Y', Yp, Yp', Z, Z', Zp, Zp'.
    rewrite (U IDN), (U IM1), (U IM2), (U IM3), (U' IDN), (U' IM1), (U' IM2), (U' IM3)
      by (unfold IDN, IM1, IM2, IM3; lia).
    reflexivity.
  - rewrite U, U' by (unfold IDN, IM3, IEN in *; lia). reflexivity.
Qed.

End Facts.

(** X8 on the symbolic reals: a cell of the ghost row [j = 1] and the
    x1-face [i = 7], one past the last face of the block, keep the unknowns
    they held. *)
Lemma X8_witness :
  exists s : @Mem Symbolic.real_ops,
    OrszagTang_ Symbolic.pack Symbolic.unset = Returned s
    /\ u0 s 0 IDN 0 1 3 = Symbolic.Param "u0" 0
    /\ b0_x1f s 1 0 3 7 = Symbolic.Param "b0.x1f" 0.
Proof.
  destruct (X8_orszag_tang_leaves_ghost_zones Symbolic.pack
              (Symbolic.Div (Symbolic.Lit 5) (Symbolic.Lit 3)) Symbolic.unset eq_refl)
    as (s & Hret & Hu & Hx & _).
  exists s. split; [exact Hret|]. split.
  - apply (Hu 0 IDN 0 1 3). unfold active. cbn. lia.
  - apply (Hx 1 0 3 7). unfold x1_face_of_active. cbn. lia.
Defined.

(** X9 on the symbolic reals: started on unknowns or on zeros, the energy of
    cell [(j, i) = (2, 2)] of block 0 is the same. *)
Lemma X9_witness :
  exists s s' : @Mem Symbolic.real_ops,
    OrszagTang_ Symbolic.pack Symbolic.unset = Returned s
    /\ OrszagTang_ Symbolic.pack Cleared.mem = Returned s'
    /\ u0 s 0 IEN 0 2 2 = u0 s' 0 IEN 0 2 2.
Proof.
  destruct (X9_orszag_tang_overwrites_prior_memory Symbolic.pack
              (Symbolic.Div (Symbolic.Lit 5) (Symbolic.Lit 3))
              Symbolic.unset Cleared.mem eq_refl)
    as (s & s' & Hret & Hret' & _ & Hcells).
  exists s, s'. split; [exact Hret|]. split; [exact Hret'|].
  destruct (Hcells 0 0 2 2) as (Hu & _).
  - unfold active. cbn. lia.
  - apply Hu. unfold IDN, IEN. lia.
Defined.

End OrszagTangMore.
(** * The Orszag-Tang field in exact arithmetic

    The generator builds the face-centred field as the discrete curl of the
    vector potential [A3].  Read over the real numbers, that makes the
    discrete divergence of the field of every active cell vanish, whatever
    the grid-location functions return. *)
Module OrszagTangExact.
Import OrszagTang OrszagTangSpec OrszagTangRegion.
Import Reals.

Section Facts.
Variables cell_centre left_edge : Z -> Z -> R -> R -> R.

Let ops : RealOps := ExactReals.real_ops cell_centre left_edge.

(** The curl of any potential has no divergence, cell by cell. *)
Lemma curl_is_divergence_free (pmbp : @MeshBlockPack ops) (B : R) (m j i : Z) :
  dx1 (mbsize pmbp) m <> 0%R ->
  dx2 (mbsize pmbp) m <> 0%R ->
  ((@curl_x1 ops pmbp B m j (i + 1)%Z - @curl_x1 ops pmbp B m j i) / dx1 (mbsize pmbp) m
   + (@curl_x2 ops pmbp B m (j + 1)%Z i - @curl_x2 ops pmbp B m j i) / dx2 (mbsize pmbp) m
   = 0)%R.
Proof.
  intros H1 H2. unfold curl_x1, curl_x2.
  cbn [fadd fsub fdiv fneg ops ExactReals.real_ops].
  generalize (@A3 ops B (@x1_face ops pmbp m i) (@x2_face ops pmbp m j)).
  generalize (@A3 ops B (@x1_face ops pmbp m (i + 1)) (@x2_face ops pmbp m j)).
  generalize (@A3 ops B (@x1_face ops pmbp m i) (@x2_face ops pmbp m (j + 1))).
  generalize (@A3 ops B (@x1_face ops pmbp m (i + 1)) (@x2_face ops pmbp m (j + 1))).
  intros a11 a01 a10 a00. cbn in H1, H2 |- *. field. split; assumption.
Qed.

(** X10.  Over the real numbers the generated field is divergence-free in
    every active cell of a block with non-zero cell widths: the differences
    of the x1-faces over [dx1] and of the x2-faces over [dx2] cancel, and
    the two x3-faces of the cell hold the same value. *)
Theorem X10_orszag_tang_field_is_divergence_free (pmbp : @MeshBlockPack ops)
    (gamma : R) (s0 : @Mem ops) :
  pmhd_gamma pmbp = Some gamma ->
  exists s : @Mem ops,
    OrszagTang_ pmbp s0 = Returned s
    /\ forall m k j i,
         active pmbp m k j i ->
         dx1 (mbsize pmbp) m <> 0%R ->
         dx2 (mbsize pmbp) m <> 0%R ->
         ((b0_x1f s m k j (i + 1)%Z - b0_x1f s m k j i) / dx1 (mbsize pmbp) m
          + (b0_x2f s m k (j + 1)%Z i - b0_x2f s m k j i) / dx2 (mbsize pmbp) m
          = 0)%R
         /\ b0_x3f s m (k + 1) j i = b0_x3f s m k j i.
Proof.
  intros Hg. unfold OrszagTang_. rewrite Hg. eexists. split; [reflexivity|].
  intros m k j i Ha H1 H2.
  match goal with
  | |- context [par_for4 _ _ _ _ _ _ _ _ (pgen_ot2 ?g) (par_for4 _ _ _ _ _ _ _ _ _ ?a)] =>
      destruct (OrszagTangMore.active_cell_values pmbp g a m k j i Ha)
        as (_ & X & Xp & Y & Yp & Z & Zp)
  end.
  rewrite X, Xp, Y, Yp, Z, Zp. split; [|reflexivity].
  now apply curl_is_divergence_free.
Qed.

(** X19.  Over the real numbers the vector potential [A3] is even in each
    coordinate, so that the initial state is symmetric across [x1 = 0] and
    [x2 = 0], and periodic with period [1/2] in [x1] and [1] in [x2]. *)
Theorem X19_vector_potential_is_even_and_periodic (B x1 x2 : R) :
  @A3 ops B (- x1)%R x2 = @A3 ops B x1 x2
  /\ @A3 ops B x1 (- x2)%R = @A3 ops B x1 x2
  /\ @A3 ops B (x1 + / 2)%R x2 = @A3 ops B x1 x2
  /\ @A3 ops B x1 (x2 + 1)%R = @A3 ops B x1 x2.
Proof.
  unfold A3. cbn [fadd fsub fmul fdiv fcos lit M_PI ops ExactReals.real_ops].
  repeat split.
  - replace (4 * PI * - x1)%R with (- (4 * PI * x1))%R by ring.
    now rewrite cos_neg.
  - replace (2 * PI * - x2)%R with (- (2 * PI * x2))%R by ring.
    now rewrite cos_neg.
  - replace (4 * PI * (x1 + / 2))%R with (4 * PI * x1 + 2 * PI)%R by field.
    rewrite cos_plus, cos_2PI, sin_2PI. f_equal. ring.
  - replace (2 * PI * (x2 + 1))%R with (2 * PI * x2 + 2 * PI)%R by ring.
    rewrite cos_plus, cos_2PI, sin_2PI. f_equal. ring.
Qed.

End Facts.

(** X10 on a uniform grid of cell width 1/4: cell [(j, i) = (3, 4)]. *)
Lemma X10_witness :
  exists s : @Mem ExactReals.ops,
    OrszagTang_ ExactReals.pack ExactReals.zeroed = Returned s
    /\ ((b0_x1f s 0%Z 0%Z 3%Z 5%Z - b0_x1f s 0%Z 0%Z 3%Z 4%Z) / ExactReals.quarter
        + (b0_x2f s 0%Z 0%Z 4%Z 4%Z - b0_x2f s 0%Z 0%Z 3%Z 4%Z) / ExactReals.quarter
        = 0)%R.
Proof.
  assert (Hq : ExactReals.quarter <> 0%R).
  { unfold ExactReals.quarter. apply Rmult_integral_contrapositive_currified.
    - apply R1_neq_R0.
    - apply Rinv_neq_0_compat. apply not_0_IZR. discriminate. }
  destruct (X10_orszag_tang_field_is_divergence_free
              ExactReals.uniform_centre ExactReals.uniform_edge
              ExactReals.pack (5 / 3)%R ExactReals.zeroed eq_refl)
    as (s & Hret & Hcells).
  exists s. split; [exact Hret|].
  destruct (Hcells 0 0 3 4) as (Hdiv & _).
  - unfold active. cbn. lia.
  - exact Hq.
  - exact Hq.
  - exact Hdiv.
Defined.

End OrszagTangExact.
(** * Properties of the rest of part_static_turb.cpp *)

Module PartStaticTurbMore.
Import PartStaticTurb PartStaticTurbSpec PartStaticTurbRest PartStaticTurbRestSpec.

(** ** The threads of the restart reduction *)

Lemma quot_of_split (q d r : Z) : 0 <= q -> 0 <= r < d -> Z.quot (q * d + r) d = q.
Proof.
  intros Hq Hr. rewrite Z.quot_div_nonneg by nia.
  symmetry. apply (Z.div_unique_pos _ _ q r); lia.
Qed.

Lemma quot_bounds (a d : Z) :
  0 <= a -> 0 < d -> 0 <= Z.quot a d /\ 0 <= a - Z.quot a d * d < d.
Proof.
  intros Ha Hd. rewrite Z.quot_div_nonneg by lia.
  pose proof (Z.div_pos a d Ha Hd).
  pose proof (Z.mod_pos_bound a d Hd).
  pose proof (Z.div_mod a d ltac:(lia)).
  nia.
Qed.

Lemma digit_bound (q r d n : Z) :
  0 <= q < n -> 0 <= r < d -> 0 <= q * d + r < n * d.
Proof. nia. Qed.

Section Threads.
Variable indcs : GridIndices.
Variable nmb : Z.

Hypothesis cells1 : 0 < nx1 indcs.
Hypothesis cells2 : 0 < nx2 indcs.
Hypothesis cells3 : 0 < nx3 indcs.

Let nkji := nx3 indcs * nx2 indcs * nx1 indcs.
Let nji := nx2 indcs * nx1 indcs.
Let nmkji := nmb * nx3 indcs * nx2 indcs * nx1 indcs.

Lemma thread_cell_counted (idx : Z) :
  0 <= idx < nmkji ->
  let '(m, k, j, i) := thread_cell indcs nkji nji idx in
  counted_cell indcs nmb m k j i /\ linear_index indcs m k j i = idx.
Proof.
  intros Hidx. unfold thread_cell, counted_cell, linear_index.
  assert (Hnji : 0 < nji) by (unfold nji; nia).
  assert (Hnkji : 0 < nkji) by (unfold nkji; nia).
  destruct (quot_bounds idx nkji ltac:(lia) Hnkji) as [Hm Hr1].
  set (m := Z.quot idx nkji) in *.
  destruct (quot_bounds (idx - m * nkji) nji ltac:(lia) Hnji) as [Hk Hr2].
  set (k := Z.quot (idx - m * nkji) nji) in *.
  destruct (quot_bounds (idx - m * nkji - k * nji) (nx1 indcs) ltac:(lia) cells1)
    as [Hj Hr3].
  set (j := Z.quot (idx - m * nkji - k * nji) (nx1 indcs)) in *.
  assert (Hmb : m < nmb) by (unfold nmkji, nkji in *; nia).
  assert (Hkb : k < nx3 indcs) by (unfold nkji, nji in *; nia).
  assert (Hjb : j < nx2 indcs) by (unfold nji in *; nia).
  repeat split; lia.
Qed.

Lemma counted_cell_thread (m k j i : Z) :
  counted_cell indcs nmb m k j i ->
  0 <= linear_index indcs m k j i < nmkji
  /\ thread_cell indcs nkji nji (linear_index indcs m k j i) = (m, k, j, i).
Proof.
  intros (Hm & Hk & Hj & Hi). unfold linear_index.
  set (k' := k - ks indcs). set (j' := j - js indcs). set (i' := i - is_ indcs).
  assert (Hk' : 0 <= k' < nx3 indcs) by (unfold k'; lia).
  assert (Hj' : 0 <= j' < nx2 indcs) by (unfold j'; lia).
  assert (Hi' : 0 <= i' < nx1 indcs) by (unfold i'; lia).
  pose proof (digit_bound k' j' (nx2 indcs) (nx3 indcs) Hk' Hj') as Hkj.
  pose proof (digit_bound _ i' (nx1 indcs) _ Hkj Hi') as Hkji.
  pose proof (digit_bound j' i' (nx1 indcs) (nx2 indcs) Hj' Hi') as Hji.
  split.
  { pose proof (digit_bound m k' (nx3 indcs) nmb Hm Hk') as H1.
    pose proof (digit_bound _ j' (nx2 indcs) _ H1 Hj') as H2.
    pose proof (digit_bound _ i' (nx1 indcs) _ H2 Hi') as H3.
    unfold nmkji. exact H3. }
  unfold thread_cell.
  assert (E1 : Z.quot (((m * nx3 indcs + k') * nx2 indcs + j') * nx1 indcs + i') nkji = m).
  { replace (((m * nx3 indcs + k') * nx2 indcs + j') * nx1 indcs + i')
      with (m * nkji + ((k' * nx2 indcs + j') * nx1 indcs + i'))
      by (unfold nkji; ring).
    apply quot_of_split; [lia|]. unfold nkji. exact Hkji. }
  rewrite E1.
  assert (E2 : Z.quot (((m * nx3 indcs + k') * nx2 indcs + j') * nx1 indcs + i'
                       - m * nkji) nji = k').
  { replace (((m * nx3 indcs + k') * nx2 indcs + j') * nx1 indcs + i' - m * nkji)
      with (k' * nji + (j' * nx1 indcs + i'))
      by (unfold nkji, nji; ring).
    apply quot_of_split; [lia|]. unfold nji. exact Hji. }
  rewrite E2.
  assert (E3 : Z.quot (((m * nx3 indcs + k') * nx2 indcs + j') * nx1 indcs + i'
                       - m * nkji - k' * nji) (nx1 indcs) = j').
  { replace (((m * nx3 indcs + k') * nx2 indcs + j') * nx1 indcs + i'
             - m * nkji - k' * nji)
      with (j' * nx1 indcs + i')
      by (unfold nkji, nji; ring).
    apply quot_of_split; lia. }
  rewrite E3.
  f_equal; [f_equal; [f_equal|]|]; unfold k', j', i', nkji, nji; try ring.
Qed.

(** X11.  The index arithmetic of the restart reduction numbers the cells
    without gap or repetition: with positive cell counts, every thread
    [idx] of [0 .. nmb*nx3*nx2*nx1 - 1] works on a cell of a block of the
    pack inside [ks .. ks+nx3-1], [js .. js+nx2-1], [is .. is+nx1-1], whose
    position in block-plane-row order is [idx]; and every such cell is the
    cell of the thread at its position. *)
Theorem X11_restart_threads_number_the_cells :
  (forall idx,
      0 <= idx < nmb * nx3 indcs * nx2 indcs * nx1 indcs ->
      exists m k j i,
        thread_cell indcs (nx3 indcs * nx2 indcs * nx1 indcs)
          (nx2 indcs * nx1 indcs) idx = (m, k, j, i)
        /\ counted_cell indcs nmb m k j i
        /\ linear_index indcs m k j i = idx)
  /\ (forall m k j i,
        counted_cell indcs nmb m k j i ->
        0 <= linear_index indcs m k j i < nmb * nx3 indcs * nx2 indcs * nx1 indcs
        /\ thread_cell indcs (nx3 indcs * nx2 indcs * nx1 indcs)
             (nx2 indcs * nx1 indcs) (linear_index indcs m k j i) = (m, k, j, i)).
Proof.
  split.
  - intros idx Hidx. pose proof (thread_cell_counted idx Hidx) as H.
    fold nkji nji. destruct (thread_cell indcs nkji nji idx) as [[[m k] j] i].
    exists m, k, j, i. tauto.
  - intros m k j i H. exact (counted_cell_thread m k j i H).
Qed.

End Threads.

(** ** Order on [Real], continued *)








(** ** The time step on restart *)

Section Restart.
Context {N : Numerics} {M : MoreNumerics}.


End Restart.

(** ** The MHD initialisation *)

Section Rest.
Context {N : Numerics} {M : MoreNumerics}.

Ltac index_cases :=
  repeat match goal with
         | |- context [Z.eqb ?a ?b] =>
             destruct (Z.eqb_spec a b); try (exfalso; lia); subst; cbn [andb]
         end.

Section Kernel.
Variable indcs : GridIndices.
Variables B0z p0 gm1 : Real.
Variable ideal : bool.









End Kernel.


End Rest.

(** ** The history function *)

Lemma fold_left_ext_in {A X : Type} (f g : A -> X -> A) (l : list X) :
  (forall a x, In x l -> f a x = g a x) ->
  forall a, fold_left f l a = fold_left g l a.
Proof.
  induction l as [|x l IH]; intros H a; cbn; [reflexivity|].
  rewrite (H a x) by now left. apply IH. intros a' y Hy. apply H. now right.
Qed.

(** A loop that assigns [v x] to element [x], for the [x] of a list. *)
Lemma fold_left_assign {V : Type} (v : Z -> V) (l : list Z) (h : Z -> V) (n : Z) :
  fold_left (fun h x => fun n' => if n' =? x then v x else h n') l h n
  = if existsb (fun x => n =? x) l then v n else h n.
Proof.
  revert h. induction l as [|x l IH]; intros h; cbn [fold_left existsb];
    [reflexivity|].
  rewrite IH. destruct (existsb _ l); [now rewrite Bool.orb_true_r|].
  rewrite Bool.orb_false_r. destruct (Z.eqb_spec n x) as [->|Hne]; reflexivity.
Qed.

Lemma history_label_of (i c : Z) :
  0 <= c < 4 -> history_label (4 * i + c) = history_label c.
Proof.
  intros Hc. unfold history_label.
  replace ((4 * i + c) mod 4) with (c mod 4); [reflexivity|].
  rewrite Z.add_comm, Z.mul_comm. now rewrite Z_mod_plus_full.
Qed.

Section History.
Context {N : Numerics} {M : MoreNumerics}.

(** The four assignments of one pass of the label loop. *)
Lemma label_pass (label : Z -> string) (i n : Z) :
  (if n =? 4 * i + 3 then "Db^2"%string
   else if n =? 4 * i + 2 then "Dz^2"%string
   else if n =? 4 * i + 1 then "Dy^2"%string
   else if n =? 4 * i + 0 then "Dx^2"%string
   else label n)
  = if (4 * i <=? n) && (n <=? 4 * i + 3) then history_label n else label n.
Proof.
  destruct (Z.eqb_spec n (4 * i + 3)) as [->|H3].
  { replace ((4 * i <=? 4 * i + 3) && (4 * i + 3 <=? 4 * i + 3)) with true by lia.
    now rewrite history_label_of by lia. }
  destruct (Z.eqb_spec n (4 * i + 2)) as [->|H2].
  { replace ((4 * i <=? 4 * i + 2) && (4 * i + 2 <=? 4 * i + 3)) with true by lia.
    now rewrite history_label_of by lia. }
  destruct (Z.eqb_spec n (4 * i + 1)) as [->|H1].
  { replace ((4 * i <=? 4 * i + 1) && (4 * i + 1 <=? 4 * i + 3)) with true by lia.
    now rewrite history_label_of by lia. }
  destruct (Z.eqb_spec n (4 * i + 0)) as [->|H0].
  { replace ((4 * i <=? 4 * i + 0) && (4 * i + 0 <=? 4 * i + 3)) with true by lia.
    now rewrite history_label_of by lia. }
  replace ((4 * i <=? n) && (n <=? 4 * i + 3)) with false by lia. reflexivity.
Qed.

Lemma write_labels_on (l : list Z) (label : Z -> string) (n : Z) :
  fold_left (fun label i =>
    let label := fun n => if n =? 4 * i + 0 then "Dx^2"%string else label n in
    let label := fun n => if n =? 4 * i + 1 then "Dy^2"%string else label n in
    let label := fun n => if n =? 4 * i + 2 then "Dz^2"%string else label n in
    let label := fun n => if n =? 4 * i + 3 then "Db^2"%string else label n in
    label) l label n
  = if existsb (fun i => (4 * i <=? n) && (n <=? 4 * i + 3)) l
    then history_label n else label n.
Proof.
  revert label. induction l as [|i l IH]; intros label; cbn [fold_left existsb];
    [reflexivity|].
  rewrite IH. cbv zeta. rewrite label_pass.
  destruct (existsb _ l); [now rewrite Bool.orb_true_r|].
  rewrite Bool.orb_false_r. reflexivity.
Qed.

Lemma species_of_column (nspecies_ n : Z) :
  existsb (fun i => (4 * i <=? n) && (n <=? 4 * i + 3)) (range 0 (nspecies_ - 1))
  = (0 <=? n) && (n <? 4 * nspecies_).
Proof.
  destruct ((0 <=? n) && (n <? 4 * nspecies_)) eqn:E.
  - apply existsb_exists. exists (n / 4). 
    pose proof (Z.div_mod n 4 ltac:(lia)). pose proof (Z.mod_pos_bound n 4 ltac:(lia)).
    split; [apply in_range; lia|lia].
  - destruct (existsb _ _) eqn:E'; [|reflexivity].
    apply existsb_exists in E'. destruct E' as (i & Hi & Hn).
    apply in_range in Hi. lia.
Qed.

(** X15.  The columns of the history: there are four per species; column
    [n] of [0 .. 4*nspecies - 1] is labelled with the [n mod 4]-th of
    [Dx^2], [Dy^2], [Dz^2], [Db^2] and holds element [n] of the sum over
    the particles [0 .. npart-2]; labels and data outside these columns are
    left as they were. *)
Theorem X15_history_has_four_columns_per_species
    (pdata : HistoryData) (pp : Particles) (nprtcl_total : Z) :
  let h := ParticleHistory pdata pp nprtcl_total in
  nhist h = 4 * nspecies pp
  /\ (forall n, 0 <= n < 4 * nspecies pp ->
        label h n = history_label n
        /\ hdata h n
           = parallel_reduce_sum 0 (nprtcl_thispack pp - 1)
               (HistSums (prtcl_rdata pp) (prtcl_idata pp) 4 (nspecies pp)
                  nprtcl_total) n)
  /\ (forall n, ~ 0 <= n < 4 * nspecies pp ->
        label h n = label pdata n /\ hdata h n = hdata pdata n).
Proof.
  cbv zeta. unfold ParticleHistory. cbn [nhist label hdata].
  split; [reflexivity|].
  assert (L : forall n,
             write_labels 4 (nspecies pp) (label pdata) n
             = if (0 <=? n) && (n <? 4 * nspecies pp)
               then history_label n else label pdata n).
  { intros n. unfold write_labels. rewrite write_labels_on.
    now rewrite species_of_column. }
  assert (D : forall sum n,
             store_sums (4 * nspecies pp) sum (hdata pdata) n
             = if (0 <=? n) && (n <? 4 * nspecies pp) then sum n else hdata pdata n).
  { intros sum n. unfold store_sums. rewrite fold_left_assign.
    replace (existsb (fun x => n =? x) (range 0 (4 * nspecies pp - 1)))
      with ((0 <=? n) && (n <? 4 * nspecies pp)); [reflexivity|].
    destruct ((0 <=? n) && (n <? 4 * nspecies pp)) eqn:E; symmetry.
    - apply existsb_exists. exists n. split; [apply in_range; lia|lia].
    - destruct (existsb _ _) eqn:E'; [|reflexivity].
      apply existsb_exists in E'. destruct E' as (x & Hx & Hnx).
      apply in_range in Hx. lia. }
  split; intros n Hn; rewrite L, D.
  - replace ((0 <=? n) && (n <? 4 * nspecies pp)) with true by lia. now split.
  - replace ((0 <=? n) && (n <? 4 * nspecies pp)) with false by lia. now split.
Qed.

(** X14.  The history sums stop one particle short: the reduction runs over
    the half-open range [0, npart-1), so the history is the same for any
    two particle sets with the same counts that agree on the species and
    the four displacements of the particles [0 .. npart-2]; what particle
    [npart-1] holds does not enter. *)
Theorem X14_history_leaves_out_the_last_particle
    (pdata : HistoryData) (pp pp' : Particles) (nprtcl_total : Z) :
  nprtcl_thispack pp' = nprtcl_thispack pp ->
  nspecies pp' = nspecies pp ->
  (forall p, 0 <= p <= nprtcl_thispack pp - 2 ->
     prtcl_idata pp' PSP p = prtcl_idata pp PSP p
     /\ prtcl_rdata pp' IPDX p = prtcl_rdata pp IPDX p
     /\ prtcl_rdata pp' IPDY p = prtcl_rdata pp IPDY p
     /\ prtcl_rdata pp' IPDZ p = prtcl_rdata pp IPDZ p
     /\ prtcl_rdata pp' IPDB p = prtcl_rdata pp IPDB p) ->
  ParticleHistory pdata pp' nprtcl_total = ParticleHistory pdata pp nprtcl_total.
Proof.
  intros Hn Hs Hsame. unfold ParticleHistory. rewrite Hn, Hs.
  f_equal. f_equal. unfold parallel_reduce_sum.
  apply fold_left_ext_in. intros a p Hp. apply in_range in Hp.
  destruct (Hsame p ltac:(lia)) as (E0 & E1 & E2 & E3 & E4).
  unfold HistSums. now rewrite E0, E1, E2, E3, E4.
Qed.

End History.

(** ** The species of the particles *)

Lemma clamped_quotient (npart_spec nspecies_ p spec : Z) :
  0 < npart_spec -> 0 <= p -> 0 <= spec <= nspecies_ - 1 ->
  Z.min (Z.max (Z.quot p npart_spec) 0) (nspecies_ - 1) = spec
  <-> in_species_block npart_spec nspecies_ p spec.
Proof.
  intros Hn Hp Hs. unfold in_species_block.
  rewrite Z.quot_div_nonneg by lia.
  pose proof (Z.div_pos p npart_spec Hp Hn) as Hq.
  pose proof (Z.div_mod p npart_spec ltac:(lia)) as Hdm.
  pose proof (Z.mod_pos_bound p npart_spec Hn) as Hr.
  set (q := p / npart_spec) in *.
  split.
  - intros H. destruct (Z_le_gt_dec q (nspecies_ - 1)) as [Hle|Hgt].
    + left. assert (spec = q) as -> by lia. nia.
    + right. split; [lia|]. nia.
  - intros [Hb|[-> Hb]].
    + assert (q = spec) as -> by nia. lia.
    + assert (nspecies_ <= q) by nia. lia.
Qed.

Section Species.
Context {N : Numerics}.
Variable pmbp : MeshBlockPack.
Variables min_mass mass_log_spacing : Real.
Variables npart_spec nspecies_ : Z.

Ltac name_draws :=
  repeat match goal with
         | |- context [get_state ?pool] => destruct (get_state pool)
         | |- context [frand ?g] => destruct (frand g)
         end.

(** The kernel stores the clamped quotient as the species of its particle. *)
Lemma part_update_species (p : Z) (s : KState) :
  pi (part_update pmbp min_mass mass_log_spacing npart_spec nspecies_ p s) PSP p
  = Z.min (Z.max (Z.quot p npart_spec) 0) (nspecies_ - 1).
Proof.
  unfold part_update. name_draws. unfold set_pi. cbn [pi IntIndex_eqb andb].
  now rewrite Z.eqb_refl.
Qed.

Lemma par_for_part_update_species (npart p : Z) (s : KState) :
  0 <= p <= npart - 1 ->
  pi (par_for1 0 (npart - 1)
        (part_update pmbp min_mass mass_log_spacing npart_spec nspecies_) s) PSP p
  = Z.min (Z.max (Z.quot p npart_spec) 0) (nspecies_ - 1).
Proof.
  intros Hp. unfold par_for1.
  set (f := fun q => Z.min (Z.max (Z.quot q npart_spec) 0) (nspecies_ - 1)).
  apply (fold_left_reaches
           (fun s s' : KState => forall q, pi s PSP q = f q -> pi s' PSP q = f q))
    with (G := fun p s => pi s PSP p = f p).
  - intros s1 q Hq. exact Hq.
  - intros s1 s2 s3 H12 H23 q Hq. apply H23, H12, Hq.
  - intros s1 q _ q' Hq'. destruct (Z.eq_dec q' q) as [->|Hne].
    + apply part_update_species.
    + destruct (PartStaticTurbTheory.part_update_keeps_others pmbp min_mass
                  mass_log_spacing npart_spec nspecies_ q q' s1 Hne) as [Ei _].
      now rewrite Ei.
  - intros s1 q _. apply part_update_species.
  - intros q s1 s2 Hq H12. apply H12, Hq.
  - now apply in_range.
Qed.

End Species.

(** X16.  The particle kernel lays the species out in blocks: with
    [npart_spec > 0] particles per species, particle [p] of [0 .. npart-1] is of species [spec] exactly when [p]
    lies in the [spec]-th block of [npart_spec] particles, or beyond the
    last block when [spec] is the last species. *)
Theorem X16_species_are_blocks_of_particles {N : Numerics}
    (pmbp : MeshBlockPack) (pp : Particles) (min_mass mass_log_spacing : Real) :
  ppart pmbp = Some pp ->
  0 < nprtcl_perspec_thispack pp ->
  exists pp' : Particles,
    UserProblem pmbp min_mass mass_log_spacing = Initialized pp'
    /\ forall p spec,
         0 <= p <= nprtcl_thispack pp - 1 ->
         0 <= spec <= nspecies pp - 1 ->
         (prtcl_idata pp' PSP p = spec
          <-> in_species_block (nprtcl_perspec_thispack pp) (nspecies pp) p spec).
Proof.
  intros Hpp Hnps. unfold UserProblem. rewrite Hpp.
  eexists. split; [reflexivity|]. cbn [prtcl_idata].
  intros p spec Hp Hs.
  rewrite par_for_part_update_species by exact Hp.
  apply clamped_quotient; lia.
Qed.

(** ** The ways out of [UserProblem] *)


(** ** On the binary64 numerics *)

(** X11 on blocks of 2 x 2 x 2 cells: thread 13 of a pack of two blocks. *)
Lemma X11_witness :
  exists m k j i,
    thread_cell Binary64Rest.indcs
      (nx3 Binary64Rest.indcs * nx2 Binary64Rest.indcs * nx1 Binary64Rest.indcs)
      (nx2 Binary64Rest.indcs * nx1 Binary64Rest.indcs) 13 = (m, k, j, i)
    /\ counted_cell Binary64Rest.indcs 2 m k j i
    /\ linear_index Binary64Rest.indcs m k j i = 13.
Proof.
  exact (proj1 (X11_restart_threads_number_the_cells Binary64Rest.indcs 2
                  ltac:(cbn; lia) ltac:(cbn; lia) ltac:(cbn; lia))
           13 ltac:(cbn; lia)).
Defined.



(** X14 on the binary64 numerics: displacing particle 5 of 6 leaves the
    history as it is. *)
Lemma X14_witness :
  @ParticleHistory Binary64.numerics Binary64Rest.more_numerics
    Binary64Rest.no_history Binary64Rest.last_displaced 6
  = @ParticleHistory Binary64.numerics Binary64Rest.more_numerics
      Binary64Rest.no_history Binary64.particles 6.
Proof.
  apply (@X14_history_leaves_out_the_last_particle
           Binary64.numerics Binary64Rest.more_numerics).
  - reflexivity.
  - reflexivity.
  - intros p Hp. cbn in Hp |- *. replace (p =? 5) with false by lia.
    repeat split.
Defined.

(** X16 on the binary64 numerics: particle 4 of 6, three per species, is of
    species 1. *)
Lemma X16_witness :
  exists pp' : Particles,
    @UserProblem Binary64.numerics Binary64.pack
      (Binary64.b64_lit 1 0) (Binary64.b64_lit 1 0) = Initialized pp'
    /\ (prtcl_idata pp' PSP 4 = 1 <-> in_species_block 3 2 4 1).
Proof.
  destruct (@X16_species_are_blocks_of_particles Binary64.numerics Binary64.pack
              Binary64.particles (Binary64.b64_lit 1 0) (Binary64.b64_lit 1 0)
              eq_refl ltac:(cbn; lia))
    as (pp' & Hret & Hall).
  exists pp'. split; [exact Hret|].
  apply (Hall 4 1); cbn; lia.
Defined.


End PartStaticTurbMore.
(** * How much work one invocation of MHDCalcFlux dispatches *)

Module FluxCount.
Import Flux FluxEvents.

Lemma length_range (lo hi : Z) :
  0 <= hi - lo + 1 -> Z.of_nat (length (range lo hi)) = hi - lo + 1.
Proof. intros H. unfold range. rewrite length_map, length_seq. lia. Qed.

(** Counting the elements a filter keeps of a concatenation of pieces that
    all hold the same number of them. *)
Lemma count_flat_map {X E : Type} (p : E -> bool) (f : X -> list E) (l : list X)
    (c : Z) :
  (forall x, In x l -> Z.of_nat (length (filter p (f x))) = c) ->
  Z.of_nat (length (filter p (flat_map f l))) = Z.of_nat (length l) * c.
Proof.
  induction l as [|x l IH]; intros H; cbn [flat_map length]; [reflexivity|].
  rewrite filter_app, length_app, Nat2Z.inj_add, IH, (H x).
  - lia.
  - now left.
  - intros y Hy. apply H. now right.
Qed.

Section Counts.
Context {K : Kernels}.
Variable pmhd : MHD.
Variables (s : Scheme) (slv : Solver).

Hypothesis scheme : selected_scheme (recon_method_ pmhd) = Some s.
Hypothesis solver : selected_solver (rsolver_method_ pmhd) = Some slv.

Let c := mb_cells (pmy_pack pmhd).

Lemma count_recon_events (p : Event -> bool) a m k j il iu :
  p (EvRecon s a W0 m k j il iu) = p (EvRecon s a Bcc0 m k j il iu) ->
  Z.of_nat (length (filter p (recon_events pmhd a m k j il iu)))
  = if p (EvRecon s a W0 m k j il iu) then 2 else 0.
Proof.
  intros E. unfold recon_events. rewrite scheme. cbn [filter]. rewrite <- E.
  destruct (p _); reflexivity.
Qed.

Lemma count_solve_events (p : Event -> bool) m k j il iu ivx :
  Z.of_nat (length (filter p (solve_events pmhd m k j il iu ivx)))
  = if p (EvSolve slv m k j il iu ivx) then 1 else 0.
Proof.
  unfold solve_events. rewrite solver. cbn [filter]. destruct (p _); reflexivity.
Qed.

(** Solver and reconstruction calls of one unit of each sweep. *)
Lemma work_of_x1_unit nvars ncells1 m k j :
  Z.of_nat (length (solver_calls (x1_unit_events pmhd nvars ncells1 m k j))) = 1
  /\ Z.of_nat (length (recon_calls (x1_unit_events pmhd nvars ncells1 m k j))) = 2.
Proof.
  unfold x1_unit_events, solver_calls, recon_calls.
  rewrite !filter_app, !length_app, !Nat2Z.inj_add.
  rewrite !count_recon_events, !count_solve_events by reflexivity.
  cbn. split; reflexivity.
Qed.

Lemma work_of_x2_step m k j :
  Z.of_nat (length (solver_calls (x2_step_events pmhd m k j)))
  = (if j >? js c - 1 then 1 else 0)
  /\ Z.of_nat (length (recon_calls (x2_step_events pmhd m k j))) = 2.
Proof.
  unfold x2_step_events, solver_calls, recon_calls. fold c.
  rewrite !filter_app, !length_app, !Nat2Z.inj_add.
  rewrite !count_recon_events by reflexivity.
  destruct (j >? js c - 1);
    rewrite ?count_solve_events; cbn; split; reflexivity.
Qed.

Lemma work_of_x3_step m j k :
  Z.of_nat (length (solver_calls (x3_step_events pmhd m j k)))
  = (if k >? ks c - 1 then 1 else 0)
  /\ Z.of_nat (length (recon_calls (x3_step_events pmhd m j k))) = 2.
Proof.
  unfold x3_step_events, solver_calls, recon_calls. fold c.
  rewrite !filter_app, !length_app, !Nat2Z.inj_add.
  rewrite !count_recon_events by reflexivity.
  destruct (k >? ks c - 1);
    rewrite ?filter_app, ?length_app, ?Nat2Z.inj_add, ?count_solve_events;
    cbn; split; reflexivity.
Qed.

(** A loop from [lo-1] to [hi+1] whose steps count one from [lo] on. *)
Lemma count_guarded {E : Type} (p : E -> bool) (f : Z -> list E) (lo hi : Z) :
  0 <= hi - lo + 1 ->
  (forall n, Z.of_nat (length (filter p (f n))) = if n >? lo - 1 then 1 else 0) ->
  Z.of_nat (length (filter p (flat_map f (range (lo - 1) (hi + 1))))) = hi - lo + 2.
Proof.
  intros Hn Hf. rewrite (range_cons (lo - 1)) by lia. cbn [flat_map].
  rewrite filter_app, length_app, Nat2Z.inj_add, Hf.
  replace (lo - 1 >? lo - 1) with false by lia.
  replace (lo - 1 + 1) with lo by lia.
  rewrite (count_flat_map p f _ 1).
  - rewrite length_range by lia. lia.
  - intros n Hin. apply in_range in Hin. rewrite Hf.
    now replace (n >? lo - 1) with true by lia.
Qed.

Lemma work_of_x2_unit nvars ncells1 m k :
  0 <= je c - js c + 1 ->
  Z.of_nat (length (solver_calls (x2_unit_events pmhd nvars ncells1 m k)))
  = je c - js c + 2
  /\ Z.of_nat (length (recon_calls (x2_unit_events pmhd nvars ncells1 m k)))
     = 2 * (je c - js c + 3).
Proof.
  intros Hn. unfold x2_unit_events, six_scratch_events, solver_calls, recon_calls.
  fold c. rewrite !filter_app, !length_app, !Nat2Z.inj_add.
  cbn [filter is_solve is_recon length]. split.
  - rewrite (count_guarded is_solve (x2_step_events pmhd m k)) by
      (auto; intros n; apply (proj1 (work_of_x2_step m k n))).
    lia.
  - rewrite (count_flat_map is_recon (x2_step_events pmhd m k) _ 2) by
      (intros n _; apply (proj2 (work_of_x2_step m k n))).
    rewrite length_range by lia. lia.
Qed.

Lemma work_of_x3_unit nvars ncells1 m j :
  0 <= ke c - ks c + 1 ->
  Z.of_nat (length (solver_calls (x3_unit_events pmhd nvars ncells1 m j)))
  = ke c - ks c + 2
  /\ Z.of_nat (length (recon_calls (x3_unit_events pmhd nvars ncells1 m j)))
     = 2 * (ke c - ks c + 3).
Proof.
  intros Hn. unfold x3_unit_events, six_scratch_events, solver_calls, recon_calls.
  fold c. rewrite !filter_app, !length_app, !Nat2Z.inj_add.
  cbn [filter is_solve is_recon length]. split.
  - rewrite (count_guarded is_solve (x3_step_events pmhd m j)) by
      (auto; intros n; apply (proj1 (work_of_x3_step m j n))).
    lia.
  - rewrite (count_flat_map is_recon (x3_step_events pmhd m j) _ 2) by
      (intros n _; apply (proj2 (work_of_x3_step m j n))).
    rewrite length_range by lia. lia.
Qed.

(** X17.  The work of one invocation on a three-dimensional mesh, with a
    reconstruction scheme and a solver selected, for [nmb >= 0] blocks of
    [nk = ke-ks+1 >= 0] by [nj = je-js+1 >= 0] lines: the Riemann solver is
    called [nmb * (nk*nj + nk*(nj+1) + nj*(nk+1))] times, once per line in
    direction 1, once per line and x2-face in direction 2 and once per line
    and x3-face in direction 3; a reconstruction function is called
    [2 * nmb * (nk*nj + nk*(nj+2) + nj*(nk+2))] times. *)
Theorem X17_work_of_a_three_dimensional_invocation (nmhd_local : Z) (w : World) :
  nx2gt1 (pmy_pack pmhd) = true ->
  nx3gt1 (pmy_pack pmhd) = true ->
  0 <= nmb_thispack (pmy_pack pmhd) ->
  0 <= ke (mb_cells (pmy_pack pmhd)) - ks (mb_cells (pmy_pack pmhd)) + 1 ->
  0 <= je (mb_cells (pmy_pack pmhd)) - js (mb_cells (pmy_pack pmhd)) + 1 ->
  let nmb := nmb_thispack (pmy_pack pmhd) in
  let nk := ke (mb_cells (pmy_pack pmhd)) - ks (mb_cells (pmy_pack pmhd)) + 1 in
  let nj := je (mb_cells (pmy_pack pmhd)) - js (mb_cells (pmy_pack pmhd)) + 1 in
  let t := trace (snd (MHDCalcFlux pmhd nmhd_local w)) in
  Z.of_nat (length (solver_calls t))
  = Z.of_nat (length (solver_calls (trace w)))
    + nmb * (nk * nj + nk * (nj + 1) + nj * (nk + 1))
  /\ Z.of_nat (length (recon_calls t))
     = Z.of_nat (length (recon_calls (trace w)))
       + 2 * nmb * (nk * nj + nk * (nj + 2) + nj * (nk + 2)).
Proof.
  intros H2 H3 Hnmb Hnk Hnj. cbv zeta. fold c in Hnk, Hnj |- *.
  rewrite FluxTheory.trace_MHDCalcFlux. unfold MHDCalcFlux_events.
  rewrite H2, H3. unfold x1_sweep_events, x2_sweep_events, x3_sweep_events.
  fold c. unfold solver_calls, recon_calls.
  rewrite !filter_app, !length_app, !Nat2Z.inj_add.
  cbn [filter is_solve is_recon].
  set (nv := nvars_of pmhd nmhd_local). set (nc := ncells1_of pmhd).
  split.
  - rewrite (count_flat_map is_solve _ _ ((ke c - ks c + 1) * (je c - js c + 1))).
    2:{ intros m _.
        rewrite (count_flat_map is_solve _ _ (je c - js c + 1)).
        - rewrite length_range by lia. lia.
        - intros k _. rewrite (count_flat_map is_solve _ _ 1).
          + rewrite length_range by lia. lia.
          + intros j _. apply (proj1 (work_of_x1_unit nv nc m k j)). }
    rewrite (count_flat_map is_solve _ _ ((ke c - ks c + 1) * (je c - js c + 2))).
    2:{ intros m _. rewrite (count_flat_map is_solve _ _ (je c - js c + 2)).
        - rewrite length_range by lia. lia.
        - intros k _. apply (proj1 (work_of_x2_unit nv nc m k Hnj)). }
    rewrite (count_flat_map is_solve _ _ ((je c - js c + 1) * (ke c - ks c + 2))).
    2:{ intros m _. rewrite (count_flat_map is_solve _ _ (ke c - ks c + 2)).
        - rewrite length_range by lia. lia.
        - intros j _. apply (proj1 (work_of_x3_unit nv nc m j Hnk)). }
    rewrite length_range by lia. ring.
  - rewrite (count_flat_map is_recon _ _ ((ke c - ks c + 1) * ((je c - js c + 1) * 2))).
    2:{ intros m _.
        rewrite (count_flat_map is_recon _ _ ((je c - js c + 1) * 2)).
        - rewrite length_range by lia. lia.
        - intros k _. rewrite (count_flat_map is_recon _ _ 2).
          + rewrite length_range by lia. lia.
          + intros j _. apply (proj2 (work_of_x1_unit nv nc m k j)). }
    rewrite (count_flat_map is_recon _ _
               ((ke c - ks c + 1) * (2 * (je c - js c + 3)))).
    2:{ intros m _. rewrite (count_flat_map is_recon _ _ (2 * (je c - js c + 3))).
        - rewrite length_range by lia. lia.
        - intros k _. apply (proj2 (work_of_x2_unit nv nc m k Hnj)). }
    rewrite (count_flat_map is_recon _ _
               ((je c - js c + 1) * (2 * (ke c - ks c + 3)))).
    2:{ intros m _. rewrite (count_flat_map is_recon _ _ (2 * (ke c - ks c + 3))).
        - rewrite length_range by lia. lia.
        - intros j _. apply (proj2 (work_of_x3_unit nv nc m j Hnk)). }
    rewrite length_range by lia. ring.
Qed.

End Counts.

Import Recording.

(** X17 on one block of 2 x 2 x 2 cells: 16 solver calls and 40
    reconstruction calls. *)
Lemma X17_witness :
  Z.of_nat (length (solver_calls
                      (trace (snd (MHDCalcFlux (mhd true true plm llf) 8 blank)))))
  = 16
  /\ Z.of_nat (length (recon_calls
                         (trace (snd (MHDCalcFlux (mhd true true plm llf) 8 blank)))))
     = 40.
Proof.
  pose proof (X17_work_of_a_three_dimensional_invocation (mhd true true plm llf)
                PiecewiseLinear LLF_fn eq_refl eq_refl 8 blank eq_refl eq_refl
                ltac:(cbn; lia) ltac:(cbn; lia) ltac:(cbn; lia)) as H.
  cbv zeta in H. destruct H as [Hs Hr].
  exact (conj (eq_trans Hs eq_refl) (eq_trans Hr eq_refl)).
Defined.

End FluxCount.
(** * Reuse of the scratch arrays from one iteration to the next *)

Module FluxReuse.
Import Flux FluxEvents.

(** The arrays the reconstruction of iteration [n+1] writes are the arrays
    the solver of iteration [n] has read. *)
Lemma permute_back (n : Z) :
  wl_jp1 (permute (n + 1)) = wl (permute n)
  /\ wr (permute (n + 1)) = wr (permute n)
  /\ bl_jp1 (permute (n + 1)) = bl (permute n)
  /\ br (permute (n + 1)) = br (permute n).
Proof.
  unfold permute. rewrite rem2_succ. destruct (Z.rem n 2 =? 0); cbn; auto.
Qed.

Section Facts.
Context {K : Kernels}.
Variable pmhd : MHD.
Variables (s : Scheme) (slv : Solver).

Hypothesis scheme : selected_scheme (recon_method_ pmhd) = Some s.
Hypothesis solver : selected_solver (rsolver_method_ pmhd) = Some slv.

Let c := mb_cells (pmy_pack pmhd).

(** X18.  From one solving iteration [n] to the next, in the direction-2
    and direction-3 loops: the reconstruction of iteration [n+1] writes the
    very arrays the solver of iteration [n] has read (its left arrays, as
    the new next-arrays, and its right arrays); after it the array that was
    the solver's left input holds the left state of line [n+1].  In
    direction 2 the solver call of [n] is followed at once by the
    reconstruction calls of [n+1], no barrier in between; in direction 3 a
    barrier stands between them. *)
Theorem X18_next_reconstruction_overwrites_what_the_solver_read
    (m a n : Z) (t : Team ScrBuf) :
  (wl_jp1 (permute (n + 1)) = wl (permute n)
   /\ wr (permute (n + 1)) = wr (permute n)
   /\ bl_jp1 (permute (n + 1)) = bl (permute n)
   /\ br (permute (n + 1)) = br (permute n))
  /\ (forall t', scratch (flux2_recon pmhd m a (n + 1) t') (wl (permute n))
                 = fst (reconstruct s X2 m a (n + 1) (is_ c - 1) (ie c + 1) (w0 pmhd)
                          (scratch t' (wl (permute n))) (scratch t' (wr (permute n)))))
  /\ (forall t', scratch (flux3_recon pmhd m a (n + 1) t') (wl (permute n))
                 = fst (reconstruct s X3 m (n + 1) a (is_ c - 1) (ie c + 1) (w0 pmhd)
                          (scratch t' (wl (permute n))) (scratch t' (wr (permute n)))))
  /\ (js c - 1 < n ->
      trace (world (flux2_step pmhd m a (n + 1) (flux2_step pmhd m a n t)))
      = trace (world t)
        ++ [EvRecon s X2 W0 m a n (is_ c - 1) (ie c + 1);
            EvRecon s X2 Bcc0 m a n (is_ c - 1) (ie c + 1);
            EvBarrier;
            EvSolve slv m a n (is_ c - 1) (ie c + 1) IVY;
            EvRecon s X2 W0 m a (n + 1) (is_ c - 1) (ie c + 1);
            EvRecon s X2 Bcc0 m a (n + 1) (is_ c - 1) (ie c + 1);
            EvBarrier;
            EvSolve slv m a (n + 1) (is_ c - 1) (ie c + 1) IVY])
  /\ (ks c - 1 < n ->
      trace (world (flux3_step pmhd m a (n + 1) (flux3_step pmhd m a n t)))
      = trace (world t)
        ++ [EvRecon s X3 W0 m n a (is_ c - 1) (ie c + 1);
            EvRecon s X3 Bcc0 m n a (is_ c - 1) (ie c + 1);
            EvBarrier;
            EvSolve slv m n a (is_ c - 1) (ie c + 1) IVZ;
            EvBarrier;
            EvRecon s X3 W0 m (n + 1) a (is_ c - 1) (ie c + 1);
            EvRecon s X3 Bcc0 m (n + 1) a (is_ c - 1) (ie c + 1);
            EvBarrier;
            EvSolve slv m (n + 1) a (is_ c - 1) (ie c + 1) IVZ;
            EvBarrier]).
Proof.
  destruct (permute_back n) as (Ewl & Ewr & Ebl & Ebr).
  split; [exact (permute_back n)|].
  split; [|split; [|split]].
  - intros t'.
    destruct (FluxTheory.next_is_reconstructed pmhd m a (n + 1) t' s scheme)
      as (H & _). rewrite Ewl, Ewr in H. exact H.
  - intros t'.
    destruct (FluxTheory.next_is_reconstructed pmhd m a (n + 1) t' s scheme)
      as (_ & _ & H & _). unfold wl_kp1 in H. rewrite Ewl, Ewr in H. exact H.
  - intros Hn. rewrite !FluxTheory.trace_flux2_step. unfold x2_step_events.
    fold c. replace (n >? js c - 1) with true by lia.
    replace (n + 1 >? js c - 1) with true by lia.
    unfold recon_events, solve_events. rewrite scheme, solver.
    rewrite <- !app_assoc. reflexivity.
  - intros Hn. rewrite !FluxTheory.trace_flux3_step. unfold x3_step_events.
    fold c. replace (n >? ks c - 1) with true by lia.
    replace (n + 1 >? ks c - 1) with true by lia.
    unfold recon_events, solve_events. rewrite scheme, solver.
    rewrite <- !app_assoc. reflexivity.
Qed.

End Facts.

Import Recording.

(** X18 on the recording kernels: iterations [j = 2] and [j = 3] of a
    direction-2 unit. *)
Lemma X18_witness :
  trace (world (flux2_step (mhd true false plm llf) 0 0 (2 + 1)
                  (flux2_step (mhd true false plm llf) 0 0 2
                     (six_scratch 8 6 blank))))
  = [EvScratch 8 6; EvScratch 8 6; EvScratch 8 6;
     EvScratch 3 6; EvScratch 3 6; EvScratch 3 6;
     EvRecon PiecewiseLinear X2 W0 0 0 2 1 4;
     EvRecon PiecewiseLinear X2 Bcc0 0 0 2 1 4;
     EvBarrier;
     EvSolve LLF_fn 0 0 2 1 4 IVY;
     EvRecon PiecewiseLinear X2 W0 0 0 3 1 4;
     EvRecon PiecewiseLinear X2 Bcc0 0 0 3 1 4;
     EvBarrier;
     EvSolve LLF_fn 0 0 3 1 4 IVY].
Proof.
  pose proof (X18_next_reconstruction_overwrites_what_the_solver_read
                (mhd true false plm llf) PiecewiseLinear LLF_fn eq_refl eq_refl
                0 0 2 (six_scratch 8 6 blank)) as H.
  destruct H as (_ & _ & _ & H & _).
  exact (eq_trans (H ltac:(cbn; lia)) eq_refl).
Defined.

End FluxReuse.
